(** * Strong4VM: the backbone-based graph extractor and its front ends

    A shallow embedding of
    - [src/dimacs2graphs/api/Dimacs2GraphsAPI.cc]  (class [Dimacs2GraphsAPI::Impl]),
    - [src/cli/strong4vm.cc]                       (the [strong4vm] command line),
    - [dimacs2graphs.cc]                           (the [dimacs2graphs] command line),
    - [Strong4VMAPI.cc]                            (class [Strong4VMAPI::Impl]),
    - [src/uvl2dimacs/cli/uvl2dimacs.cc]           (the arguments of [uvl2dimacs]),
    - [src/uvl2dimacs/api/include/uvl2dimacs/UVL2Dimacs.hh]
                                                   (class [RelationEncoder]),
    together with the properties of the extractor, the work partitioning,
    the output writer, the exit codes, the analysis pipeline and the
    encoding of the relations.

    Conventions of the embedding.
    - C++ [int] is [Z]; [size_t] lengths are [nat]; [std::string] is [string];
      [std::vector<T>] is [list T]; a [std::stringstream] that is only
      written to is the list of the operands of [<<], in order ([stream]).
    - A call that has no defined result is a value of [res]: undefined
      behaviour (index out of bounds, division by zero), an exception that
      nothing catches, or a loop that never ends.
    - [BackboneSolverAPI] is not part of the sources at hand: an instance
      loaded from a file is the record [Solver] of its answers, and the
      file system and the machine are the record [Env]. *)

From Stdlib Require Import ZArith Ascii String.
From stdpp Require Import base option list strings pretty sorting.

Local Open Scope Z_scope.

(** ** Results of calls without a defined value *)

Inductive abort : Type :=
  | UndefinedBehaviour          (* out-of-bounds index, integer division by zero *)
  | Exception (what : string)   (* an exception is thrown and not yet caught *)
  | Hang.                       (* the call never returns *)

Inductive res (A : Type) : Type :=
  | Ok (a : A)
  | Abort (e : abort).

Arguments Ok {A} a.
Arguments Abort {A} e.

Global Instance res_ret : MRet res := fun A a => Ok a.
Global Instance res_bind : MBind res := fun A B f m =>
  match m with
  | Ok a => f a
  | Abort e => Abort e
  end.

(** ** Streams *)

(** One operand of [<<]. [std::endl] and the character ['\n'] both put a
    line feed into the stream. *)
Inductive tok : Type :=
  | Num (z : Z)
  | Txt (s : string)
  | Endl.

Definition stream : Type := list tok.

Definition newline : string := String (ascii_of_nat 10) EmptyString.
Definition dquote : string := String (ascii_of_nat 34) EmptyString.

Definition render_tok (t : tok) : string :=
  match t with
  | Num z => pretty z
  | Txt s => s
  | Endl => newline
  end.

(** [stringstream::str()] *)
Definition str (s : stream) : string :=
  foldr (fun t acc => render_tok t +:+ acc) EmptyString s.

(** The numbers written into a stream. *)
Definition nums (s : stream) : list Z :=
  omap (fun t => match t with Num z => Some z | _ => None end) s.

(** ** Strings *)

Definition size (s : string) : nat := String.length s.

(** [s.substr(pos)] for [pos <= s.size()] *)
Definition substr_from (pos : nat) (s : string) : string :=
  String.substring pos (size s - pos) s.

(** [s.substr(0, n)] *)
Definition substr_to (n : nat) (s : string) : string :=
  String.substring 0 n s.

(** [s.size() >= 7 && s.substr(s.size() - 7) == ".dimacs"] *)
Definition has_dimacs_suffix (s : string) : bool :=
  (7 <=? size s)%nat && String.eqb (substr_from (size s - 7) s) ".dimacs".

(** [s.find_last_of("/\\")]: [None] is [string::npos]. *)
Fixpoint find_last_slash_from (i : nat) (s : string) : option nat :=
  match s with
  | EmptyString => None
  | String c s' =>
      match find_last_slash_from (S i) s' with
      | Some j => Some j
      | None => if Ascii.eqb c "/" || Ascii.eqb c "\" then Some i else None
      end
  end.

Definition find_last_slash (s : string) : option nat := find_last_slash_from 0 s.

(** [s.back()] of a non-empty string *)
Fixpoint back (s : string) : option ascii :=
  match s with
  | EmptyString => None
  | String c EmptyString => Some c
  | String _ s' => back s'
  end.

(** ** Formatted input, as [operator>>] of a [stringstream] does it *)

Definition is_space (c : ascii) : bool :=
  let n := nat_of_ascii c in
  (n =? 32)%nat || ((9 <=? n)%nat && (n <=? 13)%nat).

Definition is_digit (c : ascii) : bool :=
  let n := nat_of_ascii c in (48 <=? n)%nat && (n <=? 57)%nat.

Definition digit_val (c : ascii) : Z := Z.of_nat (nat_of_ascii c) - 48.

Fixpoint skip_ws (s : string) : string :=
  match s with
  | EmptyString => EmptyString
  | String c s' => if is_space c then skip_ws s' else s
  end.

(** The digits at the front of [s]: their value, whether there was one,
    and the rest. *)
Fixpoint read_digits (acc : Z) (seen : bool) (s : string) : Z * bool * string :=
  match s with
  | EmptyString => (acc, seen, EmptyString)
  | String c s' =>
      if is_digit c then read_digits (10 * acc + digit_val c) true s'
      else (acc, seen, s)
  end.

Definition INT_MAX : Z := 2147483647.
Definition INT_MIN : Z := -2147483648.

(** [ss >> n] for an [int n]. When nothing but white space is left in the
    stream, the extraction fails before it starts and stores nothing
    ([IntEof]). Otherwise a failure without digits stores 0 and an overflow
    stores the nearest bound. After a failure the stream is in the fail
    state and every later extraction from it fails too. *)
Inductive int_result : Type :=
  | IntOk (v : Z) (rest : string)
  | IntFail (stored : Z)
  | IntEof.

Definition read_int (s : string) : int_result :=
  let s1 := skip_ws s in
  if (size s1 =? 0)%nat then IntEof
  else
  let '(neg, s2) :=
    match s1 with
    | String c s' =>
        if Ascii.eqb c "-" then (true, s')
        else if Ascii.eqb c "+" then (false, s')
        else (false, s1)
    | EmptyString => (false, s1)
    end in
  let '(v, seen, rest) := read_digits 0 false s2 in
  if negb seen then IntFail 0
  else
    let v := if neg then - v else v in
    if v <? INT_MIN then IntFail INT_MIN
    else if INT_MAX <? v then IntFail INT_MAX
    else IntOk v rest.

(** [ss >> c] for a [char c] *)
Definition read_char (s : string) : option (ascii * string) :=
  match skip_ws s with
  | String c s' => Some (c, s')
  | EmptyString => None
  end.

(** The words that [while (ss >> word)] reads until the stream ends. *)
Fixpoint words_go (cur : option string) (s : string) : list string :=
  match s with
  | EmptyString => match cur with Some w => [w] | None => [] end
  | String c s' =>
      if is_space c then
        match cur with
        | Some w => w :: words_go None s'
        | None => words_go None s'
        end
      else
        words_go (Some (default EmptyString cur +:+ String c EmptyString)) s'
  end.

Definition words (s : string) : list string := words_go None s.

(** [ss >> word] once: the first word and what follows it. *)
Fixpoint take_word (s : string) : string * string :=
  match s with
  | EmptyString => (EmptyString, EmptyString)
  | String c s' =>
      if is_space c then (EmptyString, s)
      else let '(w, r) := take_word s' in (String c w, r)
  end.

Definition read_word (s : string) : option (string * string) :=
  match skip_ws s with
  | EmptyString => None
  | s1 => Some (take_word s1)
  end.

(** [line_str[0]]; out of an empty [std::string] it is the terminating
    null character. *)
Definition first_char (s : string) : ascii :=
  match s with
  | String c _ => c
  | EmptyString => ascii_of_nat 0
  end.

(** [ss >> c >> var_number] on a line, then all the words after it:
    [None] when the extraction of the number fails. *)
Definition parse_comment (line : string) : option (Z * list string) :=
  match read_char line with
  | Some (_, rest) =>
      match read_int rest with
      | IntOk v rest' => Some (v, words rest')
      | IntFail _ | IntEof => None
      end
  | None => None
  end.

(** ** The collaborators: the backbone solver, the file system, the machine *)

(** What [compute_backbone_with_assumptions] does: it returns the literals
    of the backbone, or throws. *)
Inductive answer : Type :=
  | Backbone (lits : list Z)
  | Throws (what : string).

(** A [BackboneSolverAPI] after [create_backbone_detector] succeeded. What
    it answers is taken to depend on the formula, the detector and the
    assumptions alone, not on the queries made before: the callers rely
    only on which literals are forced. *)
Record Detector : Type := {
  compute_backbone : list Z;
  compute_backbone_with_assumptions : list Z -> answer;
}.

(** A [BackboneSolverAPI] after [read_dimacs] succeeded. *)
Record Formula : Type := {
  get_max_variable : Z;
  create_backbone_detector : string -> option Detector;
}.

(** [read_dimacs i path]: what [read_dimacs(path)] gives on the solver
    instance [i], where instance [0] is the member [bone_api] and instance
    [S t] is [apis[t]]; [None] is the result [false].
    [file_lines path] are the lines [getline] reads from [path], [None]
    when the file cannot be opened. *)
Record Env : Type := {
  read_dimacs : nat -> string -> option Formula;
  file_lines : string -> option (list string);
  hardware_concurrency : Z;
  path_exists : string -> bool;
  create_directories : string -> option string;   (* [Some what]: it throws *)
  open_for_writing : string -> bool;
}.

(** ** [class Dimacs2GraphsAPI::Impl] *)

Record Impl : Type := {
  num_variables : Z;
  num_clauses : Z;
  global_backbone : list Z;
  error_message : string;
  filter_auxiliary : bool;
}.

(** [Impl::Impl()] *)
Definition Impl_new : Impl :=
  {| num_variables := 0; num_clauses := 0; global_backbone := [];
     error_message := EmptyString; filter_auxiliary := false |}.

Definition set_filter_auxiliary (filter : bool) (st : Impl) : Impl :=
  {| num_variables := num_variables st; num_clauses := num_clauses st;
     global_backbone := global_backbone st; error_message := error_message st;
     filter_auxiliary := filter |}.

Definition set_error (msg : string) (st : Impl) : Impl :=
  {| num_variables := num_variables st; num_clauses := num_clauses st;
     global_backbone := global_backbone st; error_message := msg;
     filter_auxiliary := filter_auxiliary st |}.

Definition set_num_variables (n : Z) (st : Impl) : Impl :=
  {| num_variables := n; num_clauses := num_clauses st;
     global_backbone := global_backbone st; error_message := error_message st;
     filter_auxiliary := filter_auxiliary st |}.

Definition set_num_clauses (n : Z) (st : Impl) : Impl :=
  {| num_variables := num_variables st; num_clauses := n;
     global_backbone := global_backbone st; error_message := error_message st;
     filter_auxiliary := filter_auxiliary st |}.

Definition set_global_backbone (bb : list Z) (st : Impl) : Impl :=
  {| num_variables := num_variables st; num_clauses := num_clauses st;
     global_backbone := bb; error_message := error_message st;
     filter_auxiliary := filter_auxiliary st |}.

(** The getters of the public class. *)
Definition get_num_variables (st : Impl) : Z := num_variables st.
Definition get_num_clauses (st : Impl) : Z := num_clauses st.
Definition get_global_backbone (st : Impl) : list Z := global_backbone st.
Definition get_error_message (st : Impl) : string := error_message st.

Definition is_slash (c : ascii) : bool :=
  Ascii.eqb c (ascii_of_nat 47) || Ascii.eqb c (ascii_of_nat 92).

Definition normalize_path (path : string) : string :=
  match back path with
  | None => path
  | Some c => if is_slash c then substr_to (size path - 1) path else path
  end.

Definition get_basename (filepath : string) : string :=
  let filename :=
    match find_last_slash filepath with
    | None => filepath
    | Some last_slash => substr_from (S last_slash) filepath
    end in
  if has_dimacs_suffix filename then substr_to (size filename - 7) filename
  else filename.

Definition get_directory (filepath : string) : string :=
  match find_last_slash filepath with
  | None => "."
  | Some last_slash => substr_to last_slash filepath
  end.

(** [ss >> p >> cnf >> vars >> clauses] on a problem line. [clauses] is a
    reference to the member [num_clauses]: when the stream fails before the
    last extraction, or ends before it, it keeps the value [old] it had. *)
Definition parse_problem_line (line : string) (old : Z) : Z :=
  match read_char line with
  | None => old
  | Some (_, r1) =>
      match read_word r1 with
      | None => old
      | Some (_, r2) =>
          match read_int r2 with
          | IntFail _ | IntEof => old
          | IntOk _ r3 =>
              match read_int r3 with
              | IntOk clauses _ => clauses
              | IntFail stored => stored
              | IntEof => old
              end
          end
      end
  end.

(** [read_clause_count]: [inl msg] is the result [false] with
    [error_message = msg], [inr n] the result [true] with [clauses = n]. *)
Definition read_clause_count (e : Env) (dimacs_path : string) (old : Z)
  : string + Z :=
  match file_lines e dimacs_path with
  | None => inl ("Could not open file: " +:+ dimacs_path)
  | Some lines =>
      match List.find (fun l => Ascii.eqb (first_char l) "p") lines with
      | Some l => inr (parse_problem_line l old)
      | None => inl "No problem line found in DIMACS file"
      end
  end.

(** [full_name]: the words joined by single blanks. *)
Definition join_words (ws : list string) : string := String.concat " " ws.

(** [name.size() >= 4 && name.substr(0, 4) == "aux_"] *)
Definition has_aux_prefix (name : string) : bool :=
  (4 <=? size name)%nat && String.eqb (substr_to 4 name) "aux_".

(** The effect of one line on [aux_vars] in [read_feature_names]. The map
    [feature_map] is written here and never read by [generate_graphs_impl],
    so it is left out. The comparison [var_number >= aux_vars.size()] is a
    signed one: a negative [var_number] goes on to [aux_vars[var_number]],
    out of bounds. *)
Definition mark_aux_line (aux_vars : list bool) (line : string) : res (list bool) :=
  if (size line =? 0)%nat then Ok aux_vars
  else if Ascii.eqb (first_char line) "c" then
    match parse_comment line with
    | Some (var_number, w :: ws) =>
        if has_aux_prefix (join_words (w :: ws)) then
          if var_number <? 0 then Abort UndefinedBehaviour
          else
            let aux_vars :=
              if Z.of_nat (length aux_vars) <=? var_number
              then aux_vars ++ replicate (Z.to_nat (var_number + 1) - length aux_vars) false
              else aux_vars in
            Ok (<[Z.to_nat var_number := true]> aux_vars)
        else Ok aux_vars
    | _ => Ok aux_vars
    end
  else Ok aux_vars.

Fixpoint mark_aux_lines (aux_vars : list bool) (lines : list string) : res (list bool) :=
  match lines with
  | [] => Ok aux_vars
  | l :: rest => aux_vars ← mark_aux_line aux_vars l; mark_aux_lines aux_vars rest
  end.

Definition read_feature_names (e : Env) (dimacs_path : string) (aux_vars : list bool)
  : res (string + list bool) :=
  match file_lines e dimacs_path with
  | None => Ok (inl ("Could not open file: " +:+ dimacs_path))
  | Some lines => aux_vars ← mark_aux_lines aux_vars lines; Ok (inr aux_vars)
  end.

(** [v < static_cast<int>(aux_vars.size()) && aux_vars[v]], for [0 <= v];
    the callers with a [v] that may be negative go through [is_aux_at]. *)
Definition is_aux (aux_vars : list bool) (v : Z) : bool :=
  (v <? Z.of_nat (length aux_vars)) && (aux_vars !!! Z.to_nat v).

Definition is_aux_at (aux_vars : list bool) (v : Z) : res bool :=
  if v <? 0 then Abort UndefinedBehaviour else Ok (is_aux aux_vars v).

(** [vector<T>(n, x)] *)
Definition new_vector {A} (n : Z) (x : A) : res (list A) :=
  if n <? 0 then Abort (Exception "cannot create std::vector larger than max_size()")
  else Ok (replicate (Z.to_nat n) x).

(** [for (int lit : lits) { int var = abs(lit); line[var] = lit; }] *)
Fixpoint scatter (line : list Z) (lits : list Z) : res (list Z) :=
  match lits with
  | [] => Ok line
  | lit :: rest =>
      let var := Z.abs lit in
      if Z.of_nat (length line) <=? var then Abort UndefinedBehaviour
      else scatter (<[Z.to_nat var := lit]> line) rest
  end.

(** The indexed array of a literal list: [vector<int> line(n + 1, 0)]
    filled by [scatter]. *)
Definition to_indexed (n : Z) (lits : list Z) : res (list Z) :=
  line ← new_vector (n + 1) 0; scatter line lits.

(** [vec[i]] for an index known to be in range. *)
Definition at_ (vec : list Z) (i : Z) : Z := vec !!! Z.to_nat i.

Definition edge : Type := (Z * Z)%type.

(** The loop "Extract requires edges" for the source [v]. *)
Definition requires_edges (n v : Z) (line bb : list Z) (aux_vars : list bool)
  : list edge :=
  (fun i => (v, i)) <$>
  filter (fun i => i ≠ v ∧ at_ line i = i ∧ at_ bb i = 0 ∧ is_aux aux_vars i = false)
         (seqZ 1 n).

(** The loop "Extract excludes edges" for the source [v]: [i] runs from
    [v] to [n]. *)
Definition excludes_edges (n v : Z) (line bb : list Z) (aux_vars : list bool)
  : list edge :=
  (fun i => (v, i)) <$>
  filter (fun i => at_ line i = - i ∧ at_ bb i ≠ - i ∧ at_ bb v ≠ - v ∧
                   is_aux aux_vars i = false)
         (seqZ v (n - v + 1)).

(** "Compute backbone assuming v=true" and "Convert to indexed array". *)
Definition backbone_line (d : Detector) (n v : Z) : res (list Z) :=
  match compute_backbone_with_assumptions d [v] with
  | Throws what => Abort (Exception what)
  | Backbone line_vector => to_indexed n line_vector
  end.

(** ** [struct ThreadWorker] *)

Module ThreadWorker.

(** [progress] is this worker's share of the shared [progress_counter]:
    the number of variables it has completed. *)
Record t : Type := {
  thread_id : Z;
  start_idx : Z;
  end_idx : Z;
  bone_api : Detector;
  requires_list : list edge;
  excludes_list : list edge;
  global_bb : list Z;
  aux_vars : list bool;
  vars_to_process : list Z;
  num_variables : Z;
  success : bool;
  error_msg : string;
  progress : Z;
}.

Definition new (tid start end_ : Z) (api : Detector) (bb : list Z)
    (aux : list bool) (vars : list Z) (num_vars : Z) : t :=
  {| thread_id := tid; start_idx := start; end_idx := end_; bone_api := api;
     requires_list := []; excludes_list := [];
     global_bb := bb; aux_vars := aux; vars_to_process := vars;
     num_variables := num_vars; success := true; error_msg := EmptyString;
     progress := 0 |}.

(** The appends of [process_variable] and the increment of the counter
    that follows it in [run]. *)
Definition emit (w : t) (req exc : list edge) : t :=
  {| thread_id := thread_id w; start_idx := start_idx w; end_idx := end_idx w;
     bone_api := bone_api w;
     requires_list := requires_list w ++ req;
     excludes_list := excludes_list w ++ exc;
     global_bb := global_bb w; aux_vars := aux_vars w;
     vars_to_process := vars_to_process w; num_variables := num_variables w;
     success := success w; error_msg := error_msg w;
     progress := progress w |}.

Definition count (w : t) : t :=
  {| thread_id := thread_id w; start_idx := start_idx w; end_idx := end_idx w;
     bone_api := bone_api w;
     requires_list := requires_list w; excludes_list := excludes_list w;
     global_bb := global_bb w; aux_vars := aux_vars w;
     vars_to_process := vars_to_process w; num_variables := num_variables w;
     success := success w; error_msg := error_msg w;
     progress := progress w + 1 |}.

Definition finish (ok : bool) (msg : string) (w : t) : t :=
  {| thread_id := thread_id w; start_idx := start_idx w; end_idx := end_idx w;
     bone_api := bone_api w;
     requires_list := requires_list w; excludes_list := excludes_list w;
     global_bb := global_bb w; aux_vars := aux_vars w;
     vars_to_process := vars_to_process w; num_variables := num_variables w;
     success := ok; error_msg := msg;
     progress := progress w |}.

Definition process_variable (w : t) (v : Z) : res t :=
  line ← backbone_line (bone_api w) (num_variables w) v;
  Ok (emit w
        (requires_edges (num_variables w) v line (global_bb w) (aux_vars w))
        (excludes_edges (num_variables w) v line (global_bb w) (aux_vars w))).

(** The body of [run] over the indices still to do. An exception of
    [process_variable] is caught and recorded (every exception is taken to
    be a [std::exception]; the handler for others differs in the message
    only); undefined behaviour is not caught. *)
Fixpoint run_over (w : t) (idxs : list Z) : res t :=
  match idxs with
  | [] => Ok (finish true (error_msg w) w)
  | idx :: rest =>
      match (if idx <? 0 then None else vars_to_process w !! Z.to_nat idx) with
      | None => Abort UndefinedBehaviour
      | Some v =>
          match process_variable w v with
          | Ok w' => run_over (count w') rest
          | Abort (Exception what) =>
              Ok (finish false
                    ("Thread " +:+ pretty (thread_id w) +:+ " exception: " +:+ what) w)
          | Abort e => Abort e
          end
      end
  end.

(** [for (int idx = start_idx; idx <= end_idx; idx++)] *)
Definition run (w : t) : res t :=
  run_over w (seqZ (start_idx w) (end_idx w - start_idx w + 1)).

End ThreadWorker.

(** ** [generate_graphs_impl] *)

(** "Distribute vars_to_process indices across threads": the triples
    [(t, start_idx, end_idx)] of the workers [ts], from [current_idx] on. *)
Fixpoint distribute (ts : list Z) (current_idx vars_per_thread remainder : Z)
  : list (Z * Z * Z) :=
  match ts with
  | [] => []
  | t :: rest =>
      let start_idx := current_idx in
      let count := vars_per_thread + (if t <? remainder then 1 else 0) in
      let end_idx := start_idx + count - 1 in
      (t, start_idx, end_idx) :: distribute rest (end_idx + 1) vars_per_thread remainder
  end.

(** The division and the remainder of two [int]s; by zero they are
    undefined. *)
Definition partition (total_to_process effective_threads : Z) : res (list (Z * Z * Z)) :=
  if effective_threads =? 0 then Abort UndefinedBehaviour
  else
    let vars_per_thread := Z.quot total_to_process effective_threads in
    let remainder := Z.rem total_to_process effective_threads in
    Ok (distribute (seqZ 0 effective_threads) 0 vars_per_thread remainder).

(** What the two files of names and the two lists hold when they are
    written. An edge [(v, i)] stands for the line [v i]. *)
Record Graphs : Type := {
  requires : list edge;
  excludes : list edge;
  feat : stream;
  core : stream;
  dead : stream;
}.

(** The result of a call that returns: its value, the object after it, the
    graphs when the call got as far as building them, and the files it
    wrote, in order, with their contents. *)
Record Run : Type := {
  ok : bool;
  impl : Impl;
  graphs : option Graphs;
  files : list (string * string);
}.

Definition failed (msg : string) (st : Impl) : res Run :=
  Ok {| ok := false; impl := set_error msg st; graphs := None; files := [] |}.

(** "Reset state" *)
Definition reset (st : Impl) : Impl :=
  {| num_variables := 0; num_clauses := 0; global_backbone := [];
     error_message := EmptyString; filter_auxiliary := filter_auxiliary st |}.

(** "Construct DIMACS file path" *)
Definition dimacs_path_of (dimacs_file : string) : string :=
  if negb (has_dimacs_suffix dimacs_file) then dimacs_file +:+ ".dimacs"
  else dimacs_file.

(** "Build list of variables to process" *)
Definition build_vars_to_process (filtering : bool) (n : Z) (aux_vars : list bool)
  : list Z :=
  if filtering then filter (fun v => is_aux aux_vars v = false) (seqZ 1 n)
  else seqZ 1 n.

(** The single-threaded loop over [vars_to_process]; the member
    [bone_api] answers every query. *)
Fixpoint single_threaded (d : Detector) (n : Z) (bb : list Z) (aux_vars : list bool)
    (vars : list Z) (req exc : list edge) : res (list edge * list edge) :=
  match vars with
  | [] => Ok (req, exc)
  | v :: rest =>
      line ← backbone_line d n v;
      single_threaded d n bb aux_vars rest
        (req ++ requires_edges n v line bb aux_vars)
        (exc ++ excludes_edges n v line bb aux_vars)
  end.

(** "Pre-create and initialize BackboneSolverAPI instances": [inl msg] is
    the early [return false]. *)
Fixpoint init_apis (e : Env) (dimacs_path detector : string) (ts : list Z)
  : string + list Detector :=
  match ts with
  | [] => inr []
  | t :: rest =>
      match read_dimacs e (S (Z.to_nat t)) dimacs_path with
      | None => inl ("Failed to load DIMACS for thread " +:+ pretty t)
      | Some f =>
          match create_backbone_detector f detector with
          | None => inl ("Failed to create detector for thread " +:+ pretty t)
          | Some d =>
              match init_apis e dimacs_path detector rest with
              | inl msg => inl msg
              | inr ds => inr (d :: ds)
              end
          end
      end
  end.

(** The workers run on their own threads and share nothing that is
    written, so running them one after the other gives their final
    states. *)
Fixpoint run_workers (ws : list ThreadWorker.t) : res (list ThreadWorker.t) :=
  match ws with
  | [] => Ok []
  | w :: rest =>
      w' ← ThreadWorker.run w;
      rest' ← run_workers rest;
      Ok (w' :: rest')
  end.

Definition make_workers (ranges : list (Z * Z * Z)) (apis : list Detector)
    (bb : list Z) (aux_vars : list bool) (vars : list Z) (n : Z)
  : list ThreadWorker.t :=
  zip_with (fun '(t, start_idx, end_idx) api =>
              ThreadWorker.new t start_idx end_idx api bb aux_vars vars n)
           ranges apis.

(** "Multi-threaded mode". The driver leaves its progress loop only when
    the counter has reached [total_to_process]; a worker that stopped on
    an exception never gets it there. *)
Definition multi_threaded (e : Env) (dimacs_path detector : string) (n : Z)
    (bb : list Z) (aux_vars : list bool) (vars : list Z)
    (total_to_process effective_threads : Z)
  : res (string + (list edge * list edge)) :=
  match init_apis e dimacs_path detector (seqZ 0 effective_threads) with
  | inl msg => Ok (inl msg)
  | inr apis =>
      ranges ← partition total_to_process effective_threads;
      ws ← run_workers (make_workers ranges apis bb aux_vars vars n);
      if foldr Z.add 0 (ThreadWorker.progress <$> ws) <? total_to_process
      then Abort Hang
      else
        match List.find (fun w => negb (ThreadWorker.success w)) ws with
        | Some w => Ok (inl (ThreadWorker.error_msg w))
        | None =>
            Ok (inr (concat (ThreadWorker.requires_list <$> ws),
                     concat (ThreadWorker.excludes_list <$> ws)))
        end
  end.

(** "Cap effective threads at number of variables to process" *)
Definition effective_threads (num_of_threads total_to_process : Z) : Z :=
  Z.min num_of_threads total_to_process.

(** The branch on [effective_threads == 1]: the edges of both lists, or
    the message of an early [return false]. *)
Definition extract_edges (e : Env) (d : Detector) (dimacs_path detector : string)
    (n : Z) (bb : list Z) (aux_vars : list bool) (vars_to_process : list Z)
    (num_of_threads : Z) : res (string + (list edge * list edge)) :=
  let total_to_process := Z.of_nat (length vars_to_process) in
  let effective_threads := effective_threads num_of_threads total_to_process in
  if effective_threads =? 1
  then r ← single_threaded d n bb aux_vars vars_to_process [] []; Ok (inr r)
  else multi_threaded e dimacs_path detector n bb aux_vars vars_to_process
         total_to_process effective_threads.

(** What is written for one word: a blank and a quote, the word, a
    quote. *)
Definition quoted (word : string) : stream :=
  [Txt (" " +:+ dquote); Txt word; Txt dquote].

(** One line of the loop "Extract feature names from DIMACS comments" on
    the three streams [(feat_stream, core_stream, dead_stream)]. The number
    goes into [feat_stream] before the words are looked at; inside the loop
    over the words every word is written to [feat_stream], and to
    [core_stream] or [dead_stream] together with the number; the line ends
    are written only when there was a word. [bb[var_number]] is read only
    when there is a word. *)
Definition name_line (bb : list Z) (aux_vars : list bool)
    (s : stream * stream * stream) (line : string) : res (stream * stream * stream) :=
  if (size line =? 0)%nat then Ok s
  else if Ascii.eqb (first_char line) "c" then
    match parse_comment line with
    | None => Ok s
    | Some (var_number, ws) =>
        aux ← is_aux_at aux_vars var_number;
        if (aux : bool) then Ok s
        else
          let '(feat_stream, core_stream, dead_stream) := s in
          let feat_stream := feat_stream ++ [Num var_number] in
          match ws with
          | [] => Ok (feat_stream, core_stream, dead_stream)
          | _ :: _ =>
              if Z.of_nat (length bb) <=? var_number then Abort UndefinedBehaviour
              else
                let b := at_ bb var_number in
                let per_word := concat ((fun w => Num var_number :: quoted w) <$> ws) in
                Ok (feat_stream ++ concat (quoted <$> ws) ++ [Endl],
                    (if 0 <? b then core_stream ++ per_word ++ [Endl] else core_stream),
                    (if 0 <? b then dead_stream
                     else if b <? 0 then dead_stream ++ per_word ++ [Endl]
                     else dead_stream))
          end
    end
  else Ok s.

Fixpoint name_lines (bb : list Z) (aux_vars : list bool)
    (s : stream * stream * stream) (lines : list string)
  : res (stream * stream * stream) :=
  match lines with
  | [] => Ok s
  | l :: rest => s ← name_line bb aux_vars s l; name_lines bb aux_vars s rest
  end.

(** [requires_list << v << " " << i << endl], for every edge *)
Definition edge_stream (es : list edge) : stream :=
  concat ((fun '(v, i) => [Num v; Txt " "; Num i; Endl]) <$> es).

Definition net_file (n : Z) (section_ : string) (feat_stream : stream)
    (es : list edge) : stream :=
  [Txt "*Vertices "; Num n; Endl] ++ feat_stream ++
  [Txt section_; Endl] ++ edge_stream es ++ [Endl].

(** "Write output files": the files are opened and written one after the
    other; the first that cannot be opened ends the call. *)
Fixpoint write_files (e : Env) (todo : list (string * stream))
    (written : list (string * string)) : option string * list (string * string) :=
  match todo with
  | [] => (None, written)
  | (path, content) :: rest =>
      if open_for_writing e path
      then write_files e rest (written ++ [(path, str content)])
      else (Some ("Could not create output file: " +:+ path), written)
  end.

Definition output_files (output_base : string) (n : Z) (g : Graphs)
  : list (string * stream) :=
  [ (output_base +:+ "__core.txt", core g);
    (output_base +:+ "__dead.txt", dead g);
    (output_base +:+ "__requires.net", net_file n "*Arcs" (feat g) (requires g));
    (output_base +:+ "__excludes.net", net_file n "*Edges" (feat g) (excludes g)) ].

(** [thread::hardware_concurrency()], with its fallback *)
Definition max_threads (e : Env) : Z :=
  if hardware_concurrency e =? 0 then 4 else hardware_concurrency e.

Definition generate_graphs_impl (e : Env)
    (dimacs_file output_folder detector : string) (num_of_threads : Z)
    (st : Impl) : res Run :=
  let st := reset st in
  let dimacs_path := dimacs_path_of dimacs_file in
  let output_dir :=
    if (size output_folder =? 0)%nat then get_directory dimacs_path
    else normalize_path output_folder in
  let basename := get_basename dimacs_file in
  let output_base := output_dir +:+ "/" +:+ basename in
  match read_dimacs e 0 dimacs_path with
  | None =>
      failed ("Please check that " +:+ dimacs_path +:+
              " conforms to the DIMACS CNF format and is accessible.") st
  | Some f =>
  match create_backbone_detector f detector with
  | None => failed ("Failed to create backbone detector: " +:+ detector) st
  | Some d =>
  let st := set_num_variables (get_max_variable f) st in
  let n := num_variables st in
  match read_clause_count e dimacs_path (num_clauses st) with
  | inl msg => failed msg st
  | inr clauses =>
  let st := set_num_clauses clauses st in
  aux0 ← new_vector (n + 1) false;
  names ← (if filter_auxiliary st then read_feature_names e dimacs_path aux0
           else Ok (inr aux0));
  match names with
  | inl msg => failed msg st
  | inr aux_vars =>
  let vars_to_process := build_vars_to_process (filter_auxiliary st) n aux_vars in
  let bb_vector := compute_backbone d in
  let st := set_global_backbone bb_vector st in
  bb ← to_indexed n bb_vector;
  let max_threads := max_threads e in
  if num_of_threads <? 1 then failed "num_of_threads must be at least 1" st
  else if max_threads <? num_of_threads then
    failed ("Requested " +:+ pretty num_of_threads +:+ " threads but only " +:+
            pretty max_threads +:+ " cores available. Reduce thread count.") st
  else
  edges ← extract_edges e d dimacs_path detector n bb aux_vars vars_to_process
             num_of_threads;
  match edges with
  | inl msg => failed msg st
  | inr (requires_list, excludes_list) =>
  streams ← name_lines bb aux_vars ([], [], [])
              (default [] (file_lines e dimacs_path));
  let '(feat_stream, core_stream, dead_stream) := streams in
  let g := {| requires := requires_list; excludes := excludes_list;
              feat := feat_stream; core := core_stream; dead := dead_stream |} in
  match (if negb (size output_dir =? 0)%nat && negb (path_exists e output_dir)
         then create_directories e output_dir else None) with
  | Some what =>
      Ok {| ok := false;
            impl := set_error ("Could not create output directory: " +:+
                               output_dir +:+ " - " +:+ what) st;
            graphs := Some g; files := [] |}
  | None =>
      match write_files e (output_files output_base n g) [] with
      | (Some msg, written) =>
          Ok {| ok := false; impl := set_error msg st;
                graphs := Some g; files := written |}
      | (None, written) =>
          Ok {| ok := true; impl := st; graphs := Some g; files := written |}
      end
  end
  end
  end
  end
  end
  end.

(** [Dimacs2GraphsAPI::generate_graphs] *)
Definition generate_graphs := generate_graphs_impl.

(** ** The command line [strong4vm] *)

Module Strong4vm.

Inductive FileType : Type := UVL | DIMACS | UNKNOWN.

(** [fs::path::filename()], with ['/'] as the directory separator *)
Fixpoint last_component (acc : string) (s : string) : string :=
  match s with
  | EmptyString => acc
  | String c s' =>
      if Ascii.eqb c "/" then last_component s' s' else last_component acc s'
  end.

Definition filename (p : string) : string := last_component p p.

(** The index of the last period of [s], counted from [i]. *)
Fixpoint find_last_dot_from (i : nat) (s : string) : option nat :=
  match s with
  | EmptyString => None
  | String c s' =>
      match find_last_dot_from (S i) s' with
      | Some j => Some j
      | None => if Ascii.eqb c "." then Some i else None
      end
  end.

(** [fs::path::extension()]: from the last period of the file name on,
    unless the name is [.] or [..] or that period is its first character. *)
Definition extension (p : string) : string :=
  let f := filename p in
  if String.eqb f "." || String.eqb f ".." then EmptyString
  else
    match find_last_dot_from 0 f with
    | None | Some O => EmptyString
    | Some i => substr_from i f
    end.

(** [fs::path::stem()] *)
Definition stem (p : string) : string :=
  let f := filename p in
  substr_to (size f - size (extension p)) f.

Definition tolower (c : ascii) : ascii :=
  let n := nat_of_ascii c in
  if (65 <=? n)%nat && (n <=? 90)%nat then ascii_of_nat (n + 32) else c.

Fixpoint lowercase (s : string) : string :=
  match s with
  | EmptyString => EmptyString
  | String c s' => String (tolower c) (lowercase s')
  end.

Definition detect_file_type (filename : string) : FileType :=
  let ext := lowercase (extension filename) in
  if String.eqb ext ".uvl" then UVL
  else if String.eqb ext ".dimacs" || String.eqb ext ".cnf" then DIMACS
  else UNKNOWN.

Definition get_basename (filepath : string) : string := stem filepath.

(** The string without the separators at its end. *)
Fixpoint drop_trailing_slashes (s : string) : string :=
  match s with
  | EmptyString => EmptyString
  | String c s' =>
      match drop_trailing_slashes s' with
      | EmptyString => if Ascii.eqb c "/" then EmptyString else String c EmptyString
      | t => String c t
      end
  end.

(** [path.parent_path()] when there is one, else ["."]. The parent path is
    what stands before the file name, without the separators at its end,
    however many there are; when nothing but separators stands before the
    file name the parent is the root ["/"], and a path of separators alone
    is its own parent. A path without a separator has no parent path. *)
Definition get_directory (filepath : string) : string :=
  let f := filename filepath in
  let before := substr_to (size filepath - size f) filepath in
  if (size before =? 0)%nat then "."
  else
    match drop_trailing_slashes before with
    | EmptyString => if (size f =? 0)%nat then filepath else "/"
    | parent => parent
    end.

(** [std::atoi]: blanks, a sign, digits; a value that does not fit an
    [int] is undefined. *)
Definition atoi (s : string) : res Z :=
  let s1 := skip_ws s in
  let '(neg, s2) :=
    match s1 with
    | String c s' =>
        if Ascii.eqb c "-" then (true, s')
        else if Ascii.eqb c "+" then (false, s')
        else (false, s1)
    | EmptyString => (false, s1)
    end in
  let '(v, _, _) := read_digits 0 false s2 in
  let v := if neg then - v else v in
  if (v <? INT_MIN) || (INT_MAX <? v) then Abort UndefinedBehaviour else Ok v.

Record Options : Type := {
  input_file : string;
  output_dir : string;
  num_threads : Z;
  keep_dimacs : bool;
  use_tseitin : bool;
}.

Definition defaults : Options :=
  {| input_file := EmptyString; output_dir := EmptyString; num_threads := 1;
     keep_dimacs := false; use_tseitin := false |}.

(** The loop "Parse arguments" over [argv[1..]]: [inl code] is a
    [return code] from inside the loop. *)
Fixpoint parse_arguments (args : list string) (o : Options) : res (Z + Options) :=
  match args with
  | [] => Ok (inr o)
  | arg :: rest =>
      if String.eqb arg "-h" || String.eqb arg "--help" then Ok (inl 0)
      else if String.eqb arg "-k" || String.eqb arg "--keep-dimacs" then
        parse_arguments rest
          {| input_file := input_file o; output_dir := output_dir o;
             num_threads := num_threads o; keep_dimacs := true;
             use_tseitin := use_tseitin o |}
      else if String.eqb arg "-e" || String.eqb arg "--enable-tseitin" then
        parse_arguments rest
          {| input_file := input_file o; output_dir := output_dir o;
             num_threads := num_threads o; keep_dimacs := keep_dimacs o;
             use_tseitin := true |}
      else
        match rest with
        | next :: rest' =>
            if String.eqb arg "-t" || String.eqb arg "--threads" then
              n ← atoi next;
              if n <? 1 then Ok (inl 1)
              else parse_arguments rest'
                     {| input_file := input_file o; output_dir := output_dir o;
                        num_threads := n; keep_dimacs := keep_dimacs o;
                        use_tseitin := use_tseitin o |}
            else if String.eqb arg "-o" || String.eqb arg "--output" then
              parse_arguments rest'
                {| input_file := input_file o; output_dir := next;
                   num_threads := num_threads o; keep_dimacs := keep_dimacs o;
                   use_tseitin := use_tseitin o |}
            else if negb (Ascii.eqb (first_char arg) "-") then
              parse_arguments rest
                {| input_file := arg; output_dir := output_dir o;
                   num_threads := num_threads o; keep_dimacs := keep_dimacs o;
                   use_tseitin := use_tseitin o |}
            else Ok (inl 1)
        | [] =>
            if negb (Ascii.eqb (first_char arg) "-") then
              Ok (inr {| input_file := arg; output_dir := output_dir o;
                         num_threads := num_threads o; keep_dimacs := keep_dimacs o;
                         use_tseitin := use_tseitin o |})
            else Ok (inl 1)
        end
  end.

(** The machine as [main] sees it: [sys] as above, taken after the
    conversion of a UVL input has written its DIMACS file, and the
    converter [uvl_convert tseitin input output], which tells whether
    [converter.convert(input, output)] succeeded. The clean-up of the
    intermediate file has no bearing on the exit code and is left out. *)
Record Cli : Type := {
  sys : Env;
  uvl_convert : bool -> string -> string -> bool;
}.

(** [main(argc, argv)], with [argv[0]] the program name: its exit code. *)
Definition main (c : Cli) (argv : list string) : res Z :=
  if (length argv <? 2)%nat then Ok 1
  else
    parsed ← parse_arguments (tail argv) defaults;
    match parsed with
    | inl code => Ok code
    | inr o =>
        if (size (input_file o) =? 0)%nat then Ok 1
        else if negb (path_exists (sys c) (input_file o)) then Ok 1
        else
          let file_type := detect_file_type (input_file o) in
          match file_type with
          | UNKNOWN => Ok 1
          | _ =>
              let output_dir :=
                if (size (output_dir o) =? 0)%nat then get_directory (input_file o)
                else output_dir o in
              match (if negb (path_exists (sys c) output_dir)
                     then create_directories (sys c) output_dir else None) with
              | Some _ => Ok 1
              | None =>
                  let basename := get_basename (input_file o) in
                  let dimacs_file :=
                    match file_type with
                    | UVL => output_dir +:+ "/" +:+ basename +:+ ".dimacs"
                    | _ => input_file o
                    end in
                  if match file_type with
                     | UVL => negb (uvl_convert c (use_tseitin o) (input_file o) dimacs_file)
                     | _ => false
                     end
                  then Ok 1
                  else
                    let graph_api :=
                      if use_tseitin o then set_filter_auxiliary true Impl_new
                      else Impl_new in
                    r ← generate_graphs (sys c) dimacs_file output_dir "one"
                          (num_threads o) graph_api;
                    if negb (ok r) then Ok 1 else Ok 0
              end
          end
    end.

End Strong4vm.

(** ** The command line [dimacs2graphs] *)

Module Dimacs2graphs.

Definition main (e : Env) (argv : list string) : res Z :=
  if (length argv <? 2)%nat || (3 <? length argv)%nat then Ok 1
  else
    let file_name := default EmptyString (argv !! 1%nat) in
    num_threads ←
      (match argv !! 2%nat with
       | Some a => Strong4vm.atoi a
       | None => Ok 1
       end);
    if num_threads <? 1 then Ok 1
    else
      r ← generate_graphs e file_name EmptyString "one" num_threads Impl_new;
      if negb (ok r) then Ok 2 else Ok 0.

End Dimacs2graphs.

(** ** The analysis API: [class Strong4VMAPI]

    The converter as the analysis sees it, [namespace uvl2dimacs]: *)

Module UVL2Dimacs.

Inductive ConversionMode : Type := STRAIGHTFORWARD | TSEITIN.

Record ConversionResult : Type := {
  success : bool;
  error_message : string;
  num_features : Z;
  num_relations : Z;
  num_constraints : Z;
  num_variables : Z;
  num_clauses : Z;
}.

End UVL2Dimacs.

(** ** [class Strong4VMAPI::Impl] *)

Module Strong4VMAPI.

Inductive InputType : Type := UVL | DIMACS | AUTO.
Inductive ConversionMode : Type := STRAIGHTFORWARD | TSEITIN.
Inductive BackboneDetector : Type := ONE | WITHOUT.

Record AnalysisConfig : Type := {
  input_file : string;
  output_dir : string;
  input_type : InputType;
  conversion_mode : ConversionMode;
  keep_dimacs : bool;
  detector : BackboneDetector;
  num_threads : Z;
  verbose : bool;
}.

(** [AnalysisConfig::AnalysisConfig()] *)
Definition AnalysisConfig_new : AnalysisConfig :=
  {| input_file := EmptyString; output_dir := EmptyString; input_type := AUTO;
     conversion_mode := STRAIGHTFORWARD; keep_dimacs := false; detector := ONE;
     num_threads := 1; verbose := false |}.

Record AnalysisResult : Type := {
  success : bool;
  error_message : string;
  result_input_type : InputType;
  result_input_file : string;
  num_features : Z;
  num_relations : Z;
  num_constraints : Z;
  num_variables : Z;
  num_clauses : Z;
  global_backbone : list Z;
  core_features : list Z;
  dead_features : list Z;
  requires_graph_file : string;
  excludes_graph_file : string;
  core_features_file : string;
  dead_features_file : string;
  dimacs_file : string;
}.

(** [AnalysisResult::AnalysisResult()] *)
Definition AnalysisResult_new : AnalysisResult :=
  {| success := false; error_message := EmptyString; result_input_type := AUTO;
     result_input_file := EmptyString;
     num_features := 0; num_relations := 0; num_constraints := 0;
     num_variables := 0; num_clauses := 0;
     global_backbone := []; core_features := []; dead_features := [];
     requires_graph_file := EmptyString; excludes_graph_file := EmptyString;
     core_features_file := EmptyString; dead_features_file := EmptyString;
     dimacs_file := EmptyString |}.

(** The machine of an analysis: the file system and the solver as
    [generate_graphs] sees them, and the converter,
    [convert mode input output] being what
    [converter.convert(input, output)] returns after [set_mode(mode)]. As
    for the command line, one [Env] stands for the file system throughout:
    a folder that did not exist and was created is asked for again only to
    be created where it exists, which changes nothing. The removal of the
    intermediate DIMACS file has no bearing on the result and is left
    out. *)
Record Machine : Type := {
  sys : Env;
  convert : UVL2Dimacs.ConversionMode → string → string → UVL2Dimacs.ConversionResult;
}.

Definition detect_file_type (filename : string) : InputType :=
  let ext := Strong4vm.lowercase (Strong4vm.extension filename) in
  if String.eqb ext ".uvl" then UVL
  else if String.eqb ext ".dimacs" || String.eqb ext ".cnf" then DIMACS
  else AUTO.

Definition get_basename (filepath : string) : string := Strong4vm.stem filepath.

Definition get_directory (filepath : string) : string := Strong4vm.get_directory filepath.

(** The type that the pipeline works with. *)
Definition effective_type (config : AnalysisConfig) : InputType :=
  match input_type config with
  | AUTO => detect_file_type (input_file config)
  | t => t
  end.

(** [validate_configuration]: the empty string when the configuration is
    valid. *)
Definition validate_configuration (m : Machine) (config : AnalysisConfig) : string :=
  if (size (input_file config) =? 0)%nat then "Input file not specified"
  else if negb (path_exists (sys m) (input_file config))
  then "Input file not found: " +:+ input_file config
  else
    match effective_type config with
    | AUTO => "Cannot determine file type. Expected .uvl or .dimacs extension"
    | _ =>
        if num_threads config <? 1 then "Thread count must be at least 1"
        else
          match (if negb (size (output_dir config) =? 0)%nat &&
                    negb (path_exists (sys m) (output_dir config))
                 then create_directories (sys m) (output_dir config) else None) with
          | Some what => "Cannot create output directory: " +:+ what
          | None => EmptyString
          end
    end.

Definition detector_to_string (detector : BackboneDetector) : string :=
  match detector with ONE => "one" | WITHOUT => "without" end.

(** "Separate core and dead features from backbone": the two vectors after
    the loop over the literals [lits], from [(core, dead)] on. The literals
    are those of a call that returned [true], which [scatter] took for
    indices of its array: none of them is [INT_MIN], and [-lit] does not
    overflow. *)
Fixpoint separate (lits : list Z) (core dead : list Z) : list Z * list Z :=
  match lits with
  | [] => (core, dead)
  | lit :: rest =>
      if 0 <? lit then separate rest (core ++ [lit]) dead
      else separate rest core (dead ++ [- lit])
  end.

(** A result that is returned early: [success] and [error_message] are set
    on what the result holds by then. *)
Definition fails (msg : string) (result : AnalysisResult) : AnalysisResult :=
  {| success := false; error_message := msg;
     result_input_type := result_input_type result;
     result_input_file := result_input_file result;
     num_features := num_features result; num_relations := num_relations result;
     num_constraints := num_constraints result;
     num_variables := num_variables result; num_clauses := num_clauses result;
     global_backbone := global_backbone result;
     core_features := core_features result; dead_features := dead_features result;
     requires_graph_file := requires_graph_file result;
     excludes_graph_file := excludes_graph_file result;
     core_features_file := core_features_file result;
     dead_features_file := dead_features_file result;
     dimacs_file := dimacs_file result |}.

Definition perform_analysis (m : Machine) (config : AnalysisConfig) : res AnalysisResult :=
  let validation_error := validate_configuration m config in
  if negb (size validation_error =? 0)%nat then
    Ok {| success := false; error_message := validation_error;
          result_input_type := AUTO; result_input_file := input_file config;
          num_features := 0; num_relations := 0; num_constraints := 0;
          num_variables := 0; num_clauses := 0;
          global_backbone := []; core_features := []; dead_features := [];
          requires_graph_file := EmptyString; excludes_graph_file := EmptyString;
          core_features_file := EmptyString; dead_features_file := EmptyString;
          dimacs_file := EmptyString |}
  else
    let input_type := effective_type config in
    (* the result so far: the input file and its type *)
    let result :=
      {| success := false; error_message := EmptyString;
         result_input_type := input_type; result_input_file := input_file config;
         num_features := 0; num_relations := 0; num_constraints := 0;
         num_variables := 0; num_clauses := 0;
         global_backbone := []; core_features := []; dead_features := [];
         requires_graph_file := EmptyString; excludes_graph_file := EmptyString;
         core_features_file := EmptyString; dead_features_file := EmptyString;
         dimacs_file := EmptyString |} in
    let output_dir :=
      if (size (output_dir config) =? 0)%nat then get_directory (input_file config)
      else output_dir config in
    match (if negb (path_exists (sys m) output_dir)
           then create_directories (sys m) output_dir else None) with
    | Some what => Ok (fails ("Failed to create output directory: " +:+ what) result)
    | None =>
        let basename := get_basename (input_file config) in
        let uvl_result :=
          convert m
            (match conversion_mode config with
             | TSEITIN => UVL2Dimacs.TSEITIN
             | STRAIGHTFORWARD => UVL2Dimacs.STRAIGHTFORWARD
             end)
            (input_file config) (output_dir +:+ "/" +:+ basename +:+ ".dimacs") in
        let dimacs_file_ :=
          match input_type with
          | UVL => output_dir +:+ "/" +:+ basename +:+ ".dimacs"
          | _ => input_file config
          end in
        if match input_type with
           | UVL => negb (UVL2Dimacs.success uvl_result)
           | _ => false
           end
        then Ok (fails ("UVL to DIMACS conversion failed: " +:+
                        UVL2Dimacs.error_message uvl_result) result)
        else
          (* the result after step 1: the statistics of the conversion *)
          let result :=
            match input_type with
            | UVL =>
                {| success := false; error_message := EmptyString;
                   result_input_type := input_type;
                   result_input_file := input_file config;
                   num_features := UVL2Dimacs.num_features uvl_result;
                   num_relations := UVL2Dimacs.num_relations uvl_result;
                   num_constraints := UVL2Dimacs.num_constraints uvl_result;
                   num_variables := UVL2Dimacs.num_variables uvl_result;
                   num_clauses := UVL2Dimacs.num_clauses uvl_result;
                   global_backbone := []; core_features := []; dead_features := [];
                   requires_graph_file := EmptyString;
                   excludes_graph_file := EmptyString;
                   core_features_file := EmptyString;
                   dead_features_file := EmptyString;
                   dimacs_file :=
                     if keep_dimacs config then dimacs_file_ else EmptyString |}
            | _ => result
            end in
          let detector_str := detector_to_string (detector config) in
          r ← generate_graphs (sys m) dimacs_file_ output_dir detector_str
                (num_threads config) Impl_new;
          if negb (ok r) then
            Ok (fails ("Graph generation failed: " +:+ get_error_message (impl r)) result)
          else
            let '(core, dead) := separate (get_global_backbone (impl r)) [] [] in
            Ok {| success := true; error_message := EmptyString;
                  result_input_type := input_type;
                  result_input_file := input_file config;
                  num_features := num_features result;
                  num_relations := num_relations result;
                  num_constraints := num_constraints result;
                  num_variables :=
                    match input_type with
                    | DIMACS => get_num_variables (impl r)
                    | _ => num_variables result
                    end;
                  num_clauses :=
                    match input_type with
                    | DIMACS => get_num_clauses (impl r)
                    | _ => num_clauses result
                    end;
                  global_backbone := get_global_backbone (impl r);
                  core_features := core; dead_features := dead;
                  requires_graph_file := output_dir +:+ "/" +:+ basename +:+ "__requires.net";
                  excludes_graph_file := output_dir +:+ "/" +:+ basename +:+ "__excludes.net";
                  core_features_file := output_dir +:+ "/" +:+ basename +:+ "__core.txt";
                  dead_features_file := output_dir +:+ "/" +:+ basename +:+ "__dead.txt";
                  dimacs_file := dimacs_file result |}
    end.

(** The object behind the public class. *)
Record Impl : Type := {
  impl_verbose : bool;
  default_conversion_mode : ConversionMode;
  default_detector : BackboneDetector;
  default_num_threads : Z;
  last_result : AnalysisResult;
}.

(** [Impl::Impl()] *)
Definition Impl_new : Impl :=
  {| impl_verbose := false; default_conversion_mode := STRAIGHTFORWARD;
     default_detector := ONE; default_num_threads := 1;
     last_result := AnalysisResult_new |}.

(** [Strong4VMAPI::analyze(const AnalysisConfig&)]: the result, and the
    object with the result kept in it. *)
Definition analyze_config (m : Machine) (config : AnalysisConfig) (st : Impl)
  : res (AnalysisResult * Impl) :=
  result ← perform_analysis m config;
  Ok (result,
      {| impl_verbose := impl_verbose st;
         default_conversion_mode := default_conversion_mode st;
         default_detector := default_detector st;
         default_num_threads := default_num_threads st;
         last_result := result |}).

(** [Strong4VMAPI::analyze(input_file, output_dir)] *)
Definition analyze (m : Machine) (input_file_ output_dir_ : string) (st : Impl)
  : res (AnalysisResult * Impl) :=
  analyze_config m
    {| input_file := input_file_; output_dir := output_dir_; input_type := AUTO;
       conversion_mode := default_conversion_mode st; keep_dimacs := false;
       detector := default_detector st; num_threads := default_num_threads st;
       verbose := impl_verbose st |}
    st.

End Strong4VMAPI.

(** ** The command line [uvl2dimacs] *)

Module Uvl2dimacs.

Inductive CNFMode : Type := STRAIGHTFORWARD | TSEITIN.

Record CommandLineArgs : Type := {
  mode : CNFMode;
  verbose : bool;
  input_file : string;
  output_file : string;
}.

(** "Parse flags": the loop over the arguments that start with a dash,
    from [argv[arg_index]] on. [inl code] is [exit(code)]; otherwise the
    mode and the arguments from [arg_index] on, where the loop stopped. *)
Fixpoint parse_flags (args : list string) (mode_ : CNFMode)
  : Z + (CNFMode * list string) :=
  match args with
  | [] => inr (mode_, [])
  | flag :: rest =>
      if Ascii.eqb (first_char flag) "-" then
        if String.eqb flag "-t" then parse_flags rest TSEITIN
        else if String.eqb flag "-s" then parse_flags rest STRAIGHTFORWARD
        else inl 1
      else inr (mode_, args)
  end.

(** [parse_arguments(argc, argv)], with [argv[0]] the program name. *)
Definition parse_arguments (argv : list string) : Z + CommandLineArgs :=
  match parse_flags (tail argv) STRAIGHTFORWARD with
  | inl code => inl code
  | inr (mode_, rest) =>
      match rest with
      | [input; output] =>
          inr {| mode := mode_; verbose := true;
                 input_file := input; output_file := output |}
      | _ => inl 1
      end
  end.

End Uvl2dimacs.

(** ** [class RelationEncoder] of the UVL to DIMACS converter *)

Module RelationEncoder.

(** [Relation::Type]; [UNLISTED] stands for a value that the [switch] of
    [encode_relation] has no [case] for. *)
Inductive Type_ : Type :=
  | MANDATORY | OPTIONAL | OR | ALTERNATIVE | CARDINALITY | UNLISTED.

(** What the encoder asks of a [Relation]: its type, the name of its
    parent, the names of its children in order, and its bounds. *)
Record Relation : Type := {
  get_type : Type_;
  get_parent : string;
  get_children : list string;
  get_card_min : Z;
  get_card_max : Z;
}.

(** The encoder works on a [CNFModel], of which it uses two members:
    [get_variable], the number that the model has for a name, here a
    function of the name, and [add_clause]. The result of an encoding
    function is the list of the clauses it passes to [add_clause], in
    order. *)
Section Encoder.

Variable get_variable : string → Z.

(** [cnf_model.get_variable(children[i]->get_name())], for an index in
    range: the loops that use it keep [i] below [children.size()]. *)
Definition child_var (children : list string) (i : Z) : Z :=
  get_variable (children !!! Z.to_nat i).

Definition encode_mandatory (relation : Relation) : res (list (list Z)) :=
  let parent := get_parent relation in
  let children := get_children relation in
  if negb (length children =? 1)%nat
  then Abort (Exception "Mandatory relation must have exactly 1 child")
  else
    let parent_var := get_variable parent in
    let child_var := child_var children 0 in
    Ok [[- parent_var; child_var]; [- child_var; parent_var]].

Definition encode_optional (relation : Relation) : res (list (list Z)) :=
  let parent := get_parent relation in
  let children := get_children relation in
  if negb (length children =? 1)%nat
  then Abort (Exception "Optional relation must have exactly 1 child")
  else
    let parent_var := get_variable parent in
    let child_var := child_var children 0 in
    Ok [[- child_var; parent_var]].

(** "For each child, -child OR parent" *)
Definition children_imply_parent (children : list string) (parent_var : Z)
  : list (list Z) :=
  (fun child => [- get_variable child; parent_var]) <$> children.

Definition encode_or (relation : Relation) : res (list (list Z)) :=
  let parent := get_parent relation in
  let children := get_children relation in
  if (length children =? 0)%nat
  then Abort (Exception "Or relation must have at least 1 child")
  else
    let parent_var := get_variable parent in
    let or_clause := [- parent_var] ++ (get_variable <$> children) in
    Ok ([or_clause] ++ children_imply_parent children parent_var).

(** "For each pair (i,j), -child_i OR -child_j": [j] runs from [i + 1]. *)
Definition pairs (children : list string) : list (list Z) :=
  let n := Z.of_nat (length children) in
  concat ((fun i =>
             (fun j => [- child_var children i; - child_var children j])
             <$> seqZ (i + 1) (n - (i + 1)))
          <$> seqZ 0 n).

Definition encode_alternative (relation : Relation) : res (list (list Z)) :=
  let parent := get_parent relation in
  let children := get_children relation in
  if (length children <? 2)%nat
  then Abort (Exception "Alternative relation must have at least 2 children")
  else
    let parent_var := get_variable parent in
    let or_clause := [- parent_var] ++ (get_variable <$> children) in
    Ok ([or_clause] ++ pairs children ++ children_imply_parent children parent_var).

(** The lambda [backtrack(start, depth)] of [generate_combinations]: the
    combinations it pushes to [result], in order. [left] is [k - depth],
    which goes down by one with every level of the recursion, so that
    [depth == k] is [left = 0]; [current] is passed on with [i] pushed and
    is what it was again after the [pop_back]. *)
Fixpoint backtrack (n : Z) (left : nat) (start : Z) (current : list Z)
  : list (list Z) :=
  match left with
  | O => [current]
  | S left' =>
      concat ((fun i => backtrack n left' (i + 1) (current ++ [i]))
              <$> seqZ start (n - start))
  end.

Definition generate_combinations (n k : Z) : list (list Z) :=
  if (n <? k) || (k <? 0) then []
  else if k =? 0 then [[]]
  else backtrack n (Z.to_nat k) 0 [].

(** The clause for one combination of [count] children. *)
Definition combination_clause (children : list string) (parent_var : Z)
    (card_min card_max count : Z) (combo : list Z) : list Z :=
  let num_children := Z.of_nat (length children) in
  let is_invalid := (count <? card_min) || (card_max <? count) in
  let clause :=
    if is_invalid then [- parent_var]
    else if 0 <? count then [parent_var]
    else [- parent_var] in
  clause ++
  ((fun i =>
      let child_var := child_var children i in
      let in_combo := bool_decide (i ∈ combo) in
      if in_combo then - child_var else child_var)
   <$> seqZ 0 num_children).

Definition encode_cardinality (relation : Relation) : res (list (list Z)) :=
  let parent := get_parent relation in
  let children := get_children relation in
  let card_min := get_card_min relation in
  let card_max := get_card_max relation in
  let num_children := Z.of_nat (length children) in
  let parent_var := get_variable parent in
  Ok (concat ((fun count =>
                 let combinations := generate_combinations num_children count in
                 combination_clause children parent_var card_min card_max count
                 <$> combinations)
              <$> seqZ 0 (num_children + 1))
      ++ children_imply_parent children parent_var).

Definition encode_relation (relation : Relation) : res (list (list Z)) :=
  match get_type relation with
  | MANDATORY => encode_mandatory relation
  | OPTIONAL => encode_optional relation
  | OR => encode_or relation
  | ALTERNATIVE => encode_alternative relation
  | CARDINALITY => encode_cardinality relation
  | UNLISTED => Abort (Exception "Unknown relation type")
  end.

End Encoder.

End RelationEncoder.

(** ** A reference solver for finite examples *)

Module Reference.

(** All assignments to the variables [1..n], as lists of [n] booleans. *)
Fixpoint assignments (n : nat) : list (list bool) :=
  match n with
  | O => [[]]
  | S k => m ← assignments k; [m ++ [true]; m ++ [false]]
  end.

Definition lit_true (m : list bool) (l : Z) : bool :=
  match m !! (Z.to_nat (Z.abs l) - 1)%nat with
  | Some b => if 0 <? l then b else negb b
  | None => false
  end.

Definition satisfies (clauses : list (list Z)) (assumptions : list Z)
    (m : list bool) : bool :=
  forallb (fun c => existsb (lit_true m) c) clauses &&
  forallb (lit_true m) assumptions.

(** Modelled from the spec: the backbone engine of
    [backbone_solver/] is not among the sources; this is
    Backbone(F, A) of the data model, the literals true in every model of
    F and A, in ascending order of their variables, and no literal at all
    when F and A have no model. *)
Definition backbone (n : Z) (clauses : list (list Z)) (assumptions : list Z)
  : list Z :=
  let models := List.filter (satisfies clauses assumptions) (assignments (Z.to_nat n)) in
  match models with
  | [] => []
  | _ =>
      omap (fun v =>
              if forallb (fun m => lit_true m v) models then Some v
              else if forallb (fun m => lit_true m (- v)) models then Some (- v)
              else None)
           (seqZ 1 n)
  end.

Definition detector (n : Z) (clauses : list (list Z)) : Detector :=
  {| compute_backbone := backbone n clauses [];
     compute_backbone_with_assumptions := fun a => Backbone (backbone n clauses a) |}.

Definition formula (n : Z) (clauses : list (list Z)) : Formula :=
  {| get_max_variable := n;
     create_backbone_detector := fun name =>
       if String.eqb name "one" || String.eqb name "without"
       then Some (detector n clauses) else None |}.

(** A machine with [cores] cores on which each of the paths [paths] is a
    readable file holding the lines [lines] and the clauses [clauses] over
    [n] variables; every directory exists and every file can be
    written. *)
Definition env (cores : Z) (paths : list string) (lines : list string)
    (n : Z) (clauses : list (list Z)) : Env :=
  {| read_dimacs := fun _ p =>
       if existsb (String.eqb p) paths then Some (formula n clauses) else None;
     file_lines := fun p => if existsb (String.eqb p) paths then Some lines else None;
     hardware_concurrency := cores;
     path_exists := fun _ => true;
     create_directories := fun _ => None;
     open_for_writing := fun _ => true |}.

End Reference.

(** ** Inputs for the examples *)

Module Examples.

(** [b] requires [a] through the auxiliary variable [aux_1]. *)
Definition aux_lines : list string :=
  ["c 1 a"; "c 2 b"; "c 3 aux_1"; "p cnf 3 2"; "1 -3 0"; "3 -2 0"].
Definition aux_env : Env :=
  Reference.env 8 ["m.dimacs"] aux_lines 3 [[1; -3]; [3; -2]].

(** [c] requires [b], [b] requires [a]. *)
Definition chain_lines : list string :=
  ["c 1 a"; "c 2 b"; "c 3 c"; "p cnf 3 2"; "1 -2 0"; "2 -3 0"].
Definition chain_env : Env :=
  Reference.env 8 ["m.dimacs"] chain_lines 3 [[1; -2]; [2; -3]].

(** [a] and [b] exclude each other; [c] is free. *)
Definition mutex_lines : list string :=
  ["c 1 a"; "c 2 b"; "c 3 c"; "p cnf 3 1"; "-1 -2 0"].
Definition mutex_env : Env :=
  Reference.env 8 ["m.dimacs"] mutex_lines 3 [[-1; -2]].

(** A core variable with a name of two words, and a dead variable. *)
Definition words_lines : list string :=
  ["c 1 Multi Word"; "c 2 b"; "p cnf 2 2"; "1 0"; "-1 -2 0"].
Definition words_env : Env :=
  Reference.env 8 ["m.dimacs"] words_lines 2 [[1]; [-1; -2]].

(** The file [m.cnf] alone, and the same file beside a file
    [m.cnf.dimacs]. *)
Definition cnf_env : Env :=
  Reference.env 8 ["m.cnf"] mutex_lines 3 [[-1; -2]].
Definition cnf_twice_env : Env :=
  Reference.env 8 ["m.cnf"; "m.cnf.dimacs"] mutex_lines 3 [[-1; -2]].

(** The formula with the one clause [(a)], whose variable is core, on a
    solver that throws on every query, naming the assumption. *)
Definition tracing_detector : Detector :=
  {| compute_backbone := [1];
     compute_backbone_with_assumptions := fun a =>
       Throws ("query under the assumptions " +:+
               String.concat " " (pretty <$> a)) |}.
Definition tracing_env : Env :=
  {| read_dimacs := fun _ p =>
       if String.eqb p "m.dimacs"
       then Some {| get_max_variable := 1;
                    create_backbone_detector := fun _ => Some tracing_detector |}
       else None;
     file_lines := fun p =>
       if String.eqb p "m.dimacs" then Some ["c 1 a"; "p cnf 1 1"; "1 0"] else None;
     hardware_concurrency := 8;
     path_exists := fun _ => true;
     create_directories := fun _ => None;
     open_for_writing := fun _ => true |}.

(** [chain_env], except that only the member [bone_api] can load the
    file: the instances made for the workers cannot. *)
Definition lonely_env : Env :=
  {| read_dimacs := fun i p =>
       match i with
       | O => read_dimacs chain_env i p
       | S _ => None
       end;
     file_lines := file_lines chain_env;
     hardware_concurrency := 8;
     path_exists := fun _ => true;
     create_directories := fun _ => None;
     open_for_writing := fun _ => true |}.

Definition lonely_cli : Strong4vm.Cli :=
  {| Strong4vm.sys := lonely_env; Strong4vm.uvl_convert := fun _ _ _ => false |}.

(** A formula over two free variables on a solver that runs out of memory
    on the query for variable [2] and answers every other query with its
    assumptions. *)
Definition moody_detector : Detector :=
  {| compute_backbone := [];
     compute_backbone_with_assumptions := fun a =>
       if bool_decide (a = [2]) then Throws "std::bad_alloc" else Backbone a |}.
Definition moody_env : Env :=
  {| read_dimacs := fun _ p =>
       if String.eqb p "m.dimacs"
       then Some {| get_max_variable := 2;
                    create_backbone_detector := fun _ => Some moody_detector |}
       else None;
     file_lines := fun p =>
       if String.eqb p "m.dimacs" then Some ["c 1 a"; "c 2 b"; "p cnf 2 0"] else None;
     hardware_concurrency := 8;
     path_exists := fun _ => true;
     create_directories := fun _ => None;
     open_for_writing := fun _ => true |}.

(** A file with a problem line for no variable at all. *)
Definition empty_env : Env := Reference.env 8 ["m.dimacs"] ["p cnf 0 0"] 0 [].

(** [chain_env] on a disk where the two graph files cannot be opened. *)
Definition full_disk_env : Env :=
  {| read_dimacs := read_dimacs chain_env;
     file_lines := file_lines chain_env;
     hardware_concurrency := 8;
     path_exists := fun _ => true;
     create_directories := fun _ => None;
     open_for_writing := fun p => negb (String.eqb (substr_from (size p - 4) p) ".net") |}.

(** A car with two engines to choose from. *)
Definition car_var (name : string) : Z :=
  if String.eqb name "Car" then 1
  else if String.eqb name "Gas" then 2
  else if String.eqb name "Electric" then 3
  else 4.
Definition engines (t : RelationEncoder.Type_) (lo hi : Z) : RelationEncoder.Relation :=
  {| RelationEncoder.get_type := t;
     RelationEncoder.get_parent := "Car";
     RelationEncoder.get_children := ["Gas"; "Electric"];
     RelationEncoder.get_card_min := lo;
     RelationEncoder.get_card_max := hi |}.
(** The assignment that selects the variables of [vs] and no other. *)
Definition only (vs : list Z) (v : Z) : bool := bool_decide (v ∈ vs).

(** A converter that writes its output and reports a model of three
    features. *)
Definition converted : UVL2Dimacs.ConversionResult :=
  {| UVL2Dimacs.success := true; UVL2Dimacs.error_message := EmptyString;
     UVL2Dimacs.num_features := 3; UVL2Dimacs.num_relations := 2;
     UVL2Dimacs.num_constraints := 0;
     UVL2Dimacs.num_variables := 3; UVL2Dimacs.num_clauses := 2 |}.

Definition machine (e : Env) : Strong4VMAPI.Machine :=
  {| Strong4VMAPI.sys := e; Strong4VMAPI.convert := fun _ _ _ => converted |}.

(** The chain of [chain_env] as the file [out/car.dimacs], and as the file
    [models/car.dimacs]. *)
Definition converted_env : Env :=
  Reference.env 8 ["out/car.dimacs"] chain_lines 3 [[1; -2]; [2; -3]].
Definition models_env : Env :=
  Reference.env 8 ["models/car.dimacs"] chain_lines 3 [[1; -2]; [2; -3]].

Definition config (input output : string) : Strong4VMAPI.AnalysisConfig :=
  {| Strong4VMAPI.input_file := input; Strong4VMAPI.output_dir := output;
     Strong4VMAPI.input_type := Strong4VMAPI.AUTO;
     Strong4VMAPI.conversion_mode := Strong4VMAPI.STRAIGHTFORWARD;
     Strong4VMAPI.keep_dimacs := false;
     Strong4VMAPI.detector := Strong4VMAPI.ONE;
     Strong4VMAPI.num_threads := 1; Strong4VMAPI.verbose := false |}.

(** A comment with a number and no name before a comment with a name,
    and an auxiliary variable whose number is the two numbers put
    together. *)
Definition bare_lines : list string :=
  ["c 1"; "c 2 foo"; "c 12 aux_x"; "p cnf 12 1"; "1 0"].
Definition bare_env : Env := Reference.env 8 ["m.dimacs"] bare_lines 12 [[1]].

(** A file whose one variable is auxiliary. *)
Definition all_aux_lines : list string := ["c 1 aux_a"; "p cnf 1 1"; "1 0"].
Definition all_aux_env : Env := Reference.env 8 ["m.dimacs"] all_aux_lines 1 [[1]].

End Examples.

(** * The vocabulary of the properties *)

(** Where the range of worker [t] starts when every worker gets [q]
    indices and the first [r] workers one more. *)
Definition range_start (q r t : Z) : Z := t * q + Z.min t r.

(** The elements of [vars] at the indices [start_idx .. end_idx]. *)
Definition slice {A} (vars : list A) (range : Z * Z * Z) : list A :=
  let '(_, start_idx, end_idx) := range in
  take (Z.to_nat (end_idx - start_idx + 1)) (drop (Z.to_nat start_idx) vars).

(** The requires edges that answered queries give; a query is the pair of
    the variable assumed and the indexed line that came back. *)
Definition requires_from (n : Z) (bb : list Z) (aux_vars : list bool)
    (vl : list (Z * list Z)) : list edge :=
  concat ((fun p => requires_edges n p.1 p.2 bb aux_vars) <$> vl).

(** The same for the excludes edges. *)
Definition excludes_from (n : Z) (bb : list Z) (aux_vars : list bool)
    (vl : list (Z * list Z)) : list edge :=
  concat ((fun p => excludes_edges n p.1 p.2 bb aux_vars) <$> vl).

(** The solver instance [d] answers the query [p]. *)
Definition answered_by (d : Detector) (n : Z) (p : Z * list Z) : Prop :=
  backbone_line d n p.1 = Ok p.2.

(** [vars_to_process[idx]] gives [v]. *)
Definition at_index (vars : list Z) (idx v : Z) : Prop :=
  (if idx <? 0 then None else vars !! Z.to_nat idx) = Some v.

(** The worker of a range and of the solver instance made for it. *)
Definition worker_of (bb : list Z) (aux_vars : list bool) (vars : list Z) (n : Z)
    (ra : Z * Z * Z * Detector) : ThreadWorker.t :=
  let '(t, start_idx, end_idx, api) := ra in
  ThreadWorker.new t start_idx end_idx api bb aux_vars vars n.

(** The value of [progress_counter] once the workers [ws] have stopped. *)
Definition sum_progress (ws : list ThreadWorker.t) : Z :=
  foldr Z.add 0 (ThreadWorker.progress <$> ws).

(** [d] is a solver instance of this call: loaded from [path] and given
    the detector [detector]. *)
Definition loaded (e : Env) (path detector : string) (d : Detector) : Prop :=
  ∃ i f, read_dimacs e i path = Some f ∧ create_backbone_detector f detector = Some d.

(** The pieces of one analysis: the loaded formula, the detector of the
    member [bone_api], the table of auxiliary variables, the indexed global
    backbone, and the answered queries in the order of the candidates. *)
Record Analysis : Type := {
  a_formula : Formula;
  a_detector : Detector;
  a_aux_vars : list bool;
  a_bb : list Z;
  a_queries : list (Z * list Z);
}.

(** [aux_vars] as it stands after "Read feature names early". *)
Definition aux_table (e : Env) (path : string) (filtering : bool) (n : Z)
    (aux_vars : list bool) : Prop :=
  ∃ aux0, new_vector (n + 1) false = Ok aux0 ∧
    if filtering
    then ∃ lines, file_lines e path = Some lines ∧ mark_aux_lines aux0 lines = Ok aux_vars
    else aux_vars = aux0.

(** [a] is the analysis behind the graphs [g]: the steps of
    [generate_graphs_impl] up to the streams, each with its result. *)
Definition analysed (e : Env) (dimacs_file detector : string) (filtering : bool)
    (T : Z) (a : Analysis) (g : Graphs) : Prop :=
  let path := dimacs_path_of dimacs_file in
  let n := get_max_variable (a_formula a) in
  read_dimacs e 0 path = Some (a_formula a) ∧
  create_backbone_detector (a_formula a) detector = Some (a_detector a) ∧
  aux_table e path filtering n (a_aux_vars a) ∧
  to_indexed n (compute_backbone (a_detector a)) = Ok (a_bb a) ∧
  1 ≤ T ≤ max_threads e ∧
  (a_queries a).*1 = build_vars_to_process filtering n (a_aux_vars a) ∧
  Forall (fun p => ∃ d, loaded e path detector d ∧ answered_by d n p) (a_queries a) ∧
  requires g = requires_from n (a_bb a) (a_aux_vars a) (a_queries a) ∧
  excludes g = excludes_from n (a_bb a) (a_aux_vars a) (a_queries a) ∧
  name_lines (a_bb a) (a_aux_vars a) ([], [], []) (default [] (file_lines e path))
    = Ok (feat g, core g, dead g).

(** The line is a comment that gives the variable [w] a name starting
    with [aux_]. *)
Definition names_aux_line (line : string) (w : Z) : bool :=
  negb (size line =? 0)%nat && Ascii.eqb (first_char line) "c" &&
  match parse_comment line with
  | Some (var_number, w0 :: ws) =>
      (var_number =? w) && has_aux_prefix (join_words (w0 :: ws))
  | _ => false
  end.

(** [w] is an auxiliary variable of the file: one of its name comments
    starts with [aux_]. *)
Definition names_aux (lines : list string) (w : Z) : bool :=
  existsb (fun line => names_aux_line line w) lines.

(** Every number written into the stream satisfies [P]. *)
Definition all_nums (P : Z → Prop) (s : stream) : Prop := ∀ z, z ∈ nums s → P z.

(** Every number in the three streams is a variable that the table does not
    hold. *)
Definition clean (aux : list bool) (s : stream * stream * stream) : Prop :=
  let P z := 0 ≤ z ∧ is_aux aux z = false in
  all_nums P s.1.1 ∧ all_nums P s.1.2 ∧ all_nums P s.2.

(** [w] occurs in an output: as an end of an edge, or as the number of a
    line of names in the vertex list, the core list or the dead list. (The
    number after [*Vertices] is the count of all variables and names
    none.) *)
Definition mentions (g : Graphs) (w : Z) : Prop :=
  (∃ x, (w, x) ∈ requires g ∨ (x, w) ∈ requires g ∨
        (w, x) ∈ excludes g ∨ (x, w) ∈ excludes g) ∨
  w ∈ nums (feat g) ∨ w ∈ nums (core g) ∨ w ∈ nums (dead g).

(** The last literal of [lits] on the variable [i], if there is one. *)
Definition last_literal (lits : list Z) (i : Z) : option Z :=
  last (filter (fun l => Z.abs l = i) lits).

(** The number of indices in the range of a worker. *)
Definition workload (w : ThreadWorker.t) : Z :=
  Z.of_nat (length (seqZ (ThreadWorker.start_idx w)
                         (ThreadWorker.end_idx w - ThreadWorker.start_idx w + 1))).

(** The order of the lines of an edge list: by source, then by target. *)
Definition edge_lt (a b : edge) : Prop := a.1 < b.1 ∨ (a.1 = b.1 ∧ a.2 < b.2).

(** A file as it is on the disk after the call: its path and the text of
    the stream written to it. *)
Definition rendered (pc : string * stream) : string * string := (pc.1, str pc.2).

(** The folder the outputs go to. *)
Definition output_dir_of (dimacs_file output_folder : string) : string :=
  if (size output_folder =? 0)%nat then get_directory (dimacs_path_of dimacs_file)
  else normalize_path output_folder.

(** The numbers in the core stream stand at a positive entry of the indexed
    backbone, those in the dead stream at a negative one, and all of them
    are in the vertex stream too. *)
Definition listed (bb : list Z) (s : stream * stream * stream) : Prop :=
  all_nums (fun z => 0 ≤ z < Z.of_nat (length bb) ∧ 0 < at_ bb z ∧ z ∈ nums s.1.1) s.1.2 ∧
  all_nums (fun z => 0 ≤ z < Z.of_nat (length bb) ∧ at_ bb z < 0 ∧ z ∈ nums s.1.1) s.2.

(** No character of the string is white space. *)
Fixpoint spaceless (s : string) : bool :=
  match s with
  | EmptyString => true
  | String c s' => negb (is_space c) && spaceless s'
  end.

(** What [ss >> word] can give: at least one character, none of them white
    space. *)
Definition is_word (w : string) : Prop := w ≠ EmptyString ∧ spaceless w = true.

(** A literal, a clause and a list of clauses under an assignment [σ] of
    truth values to the variables. *)
Definition lit_holds (σ : Z → bool) (l : Z) : bool :=
  if 0 <? l then σ l else negb (σ (- l)).
Definition clause_holds (σ : Z → bool) (c : list Z) : bool := existsb (lit_holds σ) c.
Definition cnf_holds (σ : Z → bool) (cs : list (list Z)) : bool :=
  forallb (clause_holds σ) cs.

(** The number of the children that [σ] selects. *)
Definition selected (get_variable : string → Z) (σ : Z → bool) (children : list string)
  : Z :=
  Z.of_nat (length (filter (fun child => σ (get_variable child) = true) children)).

(** The indices of the children that [σ] selects. *)
Definition selection (get_variable : string → Z) (σ : Z → bool) (children : list string)
  : list Z :=
  filter (fun i => σ (RelationEncoder.child_var get_variable children i) = true)
         (seqZ 0 (Z.of_nat (length children))).

(** The first literal of the clauses for [count] selected children. *)
Definition first_literal (parent_var card_min card_max count : Z) : Z :=
  if (count <? card_min) || (card_max <? count) then - parent_var
  else if 0 <? count then parent_var else - parent_var.

(** One call of [generate_graphs]: the machine at the time of the call and
    the arguments. *)
Record Call : Type := {
  c_env : Env;
  c_file : string;
  c_folder : string;
  c_detector : string;
  c_threads : Z;
}.

Definition call_on (c : Call) (st : Impl) : res Run :=
  generate_graphs (c_env c) (c_file c) (c_folder c) (c_detector c) (c_threads c) st.

(** The object after the calls [cs], one after the other. *)
Fixpoint after_calls (cs : list Call) (st : Impl) : res Impl :=
  match cs with
  | [] => Ok st
  | c :: cs' => r ← call_on c st; after_calls cs' (impl r)
  end.

(** The configuration that stands for the options of the command line. *)
Definition config_of (o : Strong4vm.Options) : Strong4VMAPI.AnalysisConfig :=
  {| Strong4VMAPI.input_file := Strong4vm.input_file o;
     Strong4VMAPI.output_dir := Strong4vm.output_dir o;
     Strong4VMAPI.input_type := Strong4VMAPI.AUTO;
     Strong4VMAPI.conversion_mode :=
       if Strong4vm.use_tseitin o then Strong4VMAPI.TSEITIN
       else Strong4VMAPI.STRAIGHTFORWARD;
     Strong4VMAPI.keep_dimacs := Strong4vm.keep_dimacs o;
     Strong4VMAPI.detector := Strong4VMAPI.ONE;
     Strong4VMAPI.num_threads := Strong4vm.num_threads o;
     Strong4VMAPI.verbose := true |}.

(** The lines of a text: what stands between its line feeds. *)
Fixpoint text_lines (s : string) : list string :=
  match s with
  | EmptyString => [EmptyString]
  | String c s' =>
      if Ascii.eqb c (ascii_of_nat 10) then EmptyString :: text_lines s'
      else
        match text_lines s' with
        | l :: ls => String c l :: ls
        | [] => [String c EmptyString]
        end
  end.

(** The text of a file mentions the variable [w]: the number [w] is a
    field of one of its lines, the fields of a line being its words as [>>]
    reads them. The header lines of a Pajek file, [*Vertices n], [*Arcs] and
    [*Edges], which start with a star, name no variable. *)
Definition text_mentions (text : string) (w : Z) : Prop :=
  ∃ line, line ∈ text_lines text ∧
          Ascii.eqb (first_char line) "*" = false ∧
          pretty w ∈ words line.

(** The line is a comment that starts with a number and gives it no
    name. *)
Definition bare_number_comment (line : string) : bool :=
  negb (size line =? 0)%nat && Ascii.eqb (first_char line) "c" &&
  match parse_comment line with
  | Some (_, []) => true
  | _ => false
  end.

(** A word between quotes. *)
Definition in_quotes (word : string) : string := dquote +:+ word +:+ dquote.

(** The text of lines that are given by their fields: the fields are
    joined by single blanks and every line is ended. *)
Definition rows_text (rows : list (list string)) : string :=
  foldr (fun fs acc => join_words fs +:+ newline +:+ acc) EmptyString rows.

(** The stream holds lines of fields; the fields are words, and every
    number among them satisfies [P]. *)
Definition in_rows (P : Z → Prop) (s : stream) : Prop :=
  ∃ rows, str s = rows_text rows ∧
    Forall (Forall (fun f => is_word f ∧ ∀ z, f = pretty z → P z)) rows.

(** The fields of a line of the core or dead list for the variable [v] with
    the words [ws] of its name: the number comes again right after every
    word but the last. *)
Fixpoint glued_fields (v : Z) (ws : list string) : list string :=
  match ws with
  | [] => []
  | [w] => [in_quotes w]
  | w :: ws' => (in_quotes w +:+ pretty v) :: glued_fields v ws'
  end.

(** * Properties *)

Ltac res_simpl := unfold mbind, res_bind, mret, res_ret in *; cbn beta iota in *.

(** ** The work partitioning *)

Lemma range_start_succ q r t :
  range_start q r (t + 1) = range_start q r t + (q + (if t <? r then 1 else 0)).
Proof. unfold range_start. destruct (Z.ltb_spec t r); lia. Qed.

Lemma range_start_mono q r t1 t2 :
  0 ≤ q → t1 ≤ t2 → range_start q r t1 ≤ range_start q r t2.
Proof. unfold range_start. intros. nia. Qed.

Lemma distribute_length ts cur q r : length (distribute ts cur q r) = length ts.
Proof. revert cur. induction ts as [|t ts IH]; intros cur; simpl; [done|]. by rewrite IH. Qed.

Lemma distribute_lookup q r (m : nat) : ∀ t0 k t s e,
  distribute (seqZ t0 (Z.of_nat m)) (range_start q r t0) q r !! k = Some (t, s, e) →
  t = t0 + Z.of_nat k ∧ s = range_start q r t ∧ e = range_start q r (t + 1) - 1.
Proof.
  induction m as [|m IH]; intros t0 k t s e.
  - by rewrite seqZ_nil.
  - rewrite seqZ_cons by lia.
    replace (Z.pred (Z.of_nat (S m))) with (Z.of_nat m) by lia.
    cbn [distribute]. destruct k as [|k]; cbn [lookup list_lookup].
    + intros [= <- <- <-]. rewrite range_start_succ. split_and!; lia.
    + intros Hk.
      replace (range_start q r t0 + (q + (if t0 <? r then 1 else 0)) - 1 + 1)
        with (range_start q r (Z.succ t0)) in Hk
        by (rewrite <- Z.add_1_r, range_start_succ; lia).
      apply IH in Hk. destruct Hk as (-> & -> & ->). split_and!; [lia|done..].
Qed.

Lemma distribute_slices {A} (vars : list A) q r (m : nat) : ∀ t0,
  0 ≤ q → 0 ≤ t0 → 0 ≤ r →
  concat (slice vars <$> distribute (seqZ t0 (Z.of_nat m)) (range_start q r t0) q r)
  = take (Z.to_nat (range_start q r (t0 + Z.of_nat m) - range_start q r t0))
         (drop (Z.to_nat (range_start q r t0)) vars).
Proof.
  induction m as [|m IH]; intros t0 Hq Ht0 Hr.
  - rewrite seqZ_nil by lia. simpl. by rewrite Z.add_0_r, Z.sub_diag.
  - rewrite seqZ_cons by lia.
    replace (Z.pred (Z.of_nat (S m))) with (Z.of_nat m) by lia.
    cbn [distribute fmap list_fmap concat slice].
    pose proof (range_start_succ q r t0) as Hs.
    set (c := q + (if t0 <? r then 1 else 0)) in *.
    set (cur := range_start q r t0) in *.
    assert (0 ≤ c) by (unfold c; destruct (t0 <? r); lia).
    assert (0 ≤ cur) by (unfold cur, range_start; nia).
    replace (cur + c - 1 - cur + 1) with c by lia.
    replace (cur + c - 1 + 1) with (range_start q r (Z.succ t0))
      by (rewrite <- Z.add_1_r; lia).
    change (list_fmap _ _ (slice vars)) with (fmap (M:=list) (slice vars)).
    rewrite IH by lia.
    pose proof (range_start_mono q r (Z.succ t0) (t0 + Z.of_nat (S m)) Hq ltac:(lia)) as Hm.
    replace (Z.succ t0 + Z.of_nat m) with (t0 + Z.of_nat (S m)) by lia.
    rewrite <- Z.add_1_r in *. rewrite Hs in *.
    replace (Z.to_nat (cur + c)) with (Z.to_nat cur + Z.to_nat c)%nat by lia.
    rewrite <- drop_drop, take_take_drop. f_equal. lia.
Qed.

Lemma partition_ok total eff :
  eff ≠ 0 →
  partition total eff =
    Ok (distribute (seqZ 0 eff) 0 (Z.quot total eff) (Z.rem total eff)).
Proof. intros H. unfold partition. by destruct (Z.eqb_spec eff 0). Qed.

(** With no candidate the driver divides by zero. *)
Lemma partition_no_candidates total : partition total 0 = Abort UndefinedBehaviour.
Proof. reflexivity. Qed.

Lemma partition_slices {A} (vars : list A) eff ranges :
  1 ≤ eff →
  partition (Z.of_nat (length vars)) eff = Ok ranges →
  concat (slice vars <$> ranges) = vars.
Proof.
  intros Heff. rewrite partition_ok by lia. intros [= <-].
  set (total := Z.of_nat (length vars)).
  assert (Hq : Z.quot total eff = total `div` eff) by (apply Z.quot_div_nonneg; lia).
  assert (Hr : Z.rem total eff = total `mod` eff) by (apply Z.rem_mod_nonneg; lia).
  rewrite Hq, Hr.
  pose proof (Z.div_mod total eff ltac:(lia)) as Hdm.
  pose proof (Z.mod_pos_bound total eff ltac:(lia)) as Hmb.
  assert (0 ≤ total `div` eff) by (apply Z.div_pos; lia).
  pose proof (distribute_slices vars (total `div` eff) (total `mod` eff)
                (Z.to_nat eff) 0 ltac:(lia) ltac:(lia) ltac:(lia)) as Hd.
  assert (H0 : range_start (total `div` eff) (total `mod` eff) 0 = 0)
    by (unfold range_start; lia).
  rewrite H0 in Hd. rewrite Z2Nat.id in Hd by lia. rewrite Hd.
  unfold range_start. rewrite Z.add_0_l. simpl.
  rewrite take_ge; [done|]. rewrite length_drop. unfold total in *. clear Hd. nia.
Qed.

Lemma partition_lookup total eff ranges (k : nat) t s e :
  1 ≤ eff → 0 ≤ total →
  partition total eff = Ok ranges →
  ranges !! k = Some (t, s, e) →
  t = Z.of_nat k ∧
  s = range_start (total `div` eff) (total `mod` eff) t ∧
  e = range_start (total `div` eff) (total `mod` eff) (t + 1) - 1.
Proof.
  intros Heff Htotal. rewrite partition_ok by lia. intros [= <-] Hk.
  rewrite Z.quot_div_nonneg, Z.rem_mod_nonneg in Hk by lia.
  set (q := total `div` eff) in *. set (r := total `mod` eff) in *.
  pose proof (Z.mod_pos_bound total eff ltac:(lia)) as Hmb. fold r in Hmb.
  assert (H0 : range_start q r 0 = 0) by (unfold range_start; lia).
  rewrite <- H0 in Hk at 2. rewrite <- (Z2Nat.id eff) in Hk by lia.
  apply distribute_lookup in Hk. destruct Hk as (-> & -> & ->).
  split_and!; [lia|done..].
Qed.

Lemma partition_length total eff ranges :
  partition total eff = Ok ranges → length ranges = Z.to_nat eff.
Proof.
  unfold partition. destruct (eff =? 0); [done|]. intros [= <-].
  by rewrite distribute_length, length_seqZ.
Qed.

Lemma partition_in_bounds total eff ranges :
  1 ≤ eff → 0 ≤ total →
  partition total eff = Ok ranges →
  Forall (fun '(_, s, e) => 0 ≤ s ∧ s ≤ e + 1 ∧ e < total) ranges.
Proof.
  intros Heff Htotal Hp. apply Forall_lookup_2. intros k [[t s] e] Hk.
  pose proof (lookup_lt_Some _ _ _ Hk) as Hklt.
  rewrite (partition_length _ _ _ Hp) in Hklt.
  destruct (partition_lookup _ _ _ _ _ _ _ Heff Htotal Hp Hk) as (-> & -> & ->).
  pose proof (Z.div_mod total eff ltac:(lia)) as Hdm.
  pose proof (Z.mod_pos_bound total eff ltac:(lia)) as Hmb.
  assert (Hq0 : 0 ≤ total `div` eff) by (apply Z.div_pos; lia).
  set (q := total `div` eff) in *. set (r := total `mod` eff) in *.
  pose proof (range_start_mono q r 0 (Z.of_nat k) Hq0 ltac:(lia)) as H1.
  pose proof (range_start_mono q r (Z.of_nat k) (Z.of_nat k + 1) Hq0 ltac:(lia)) as H2.
  pose proof (range_start_mono q r (Z.of_nat k + 1) eff Hq0 ltac:(lia)) as H3.
  assert (range_start q r 0 = 0) by (unfold range_start; lia).
  assert (range_start q r eff = total) by (unfold range_start; lia).
  lia.
Qed.

Lemma range_start_covers q r (m : nat) i :
  0 ≤ q → 0 ≤ r → 0 ≤ i < range_start q r (Z.of_nat m) →
  ∃ k : nat, (k < m)%nat ∧
    range_start q r (Z.of_nat k) ≤ i ≤ range_start q r (Z.of_nat k + 1) - 1.
Proof.
  intros Hq Hr. induction m as [|m IH]; intros Hi.
  - unfold range_start in Hi. lia.
  - destruct (Z.lt_ge_cases i (range_start q r (Z.of_nat m))) as [Hlt|Hge].
    + destruct IH as (k & Hk & Hik); [lia|]. exists k. split; [lia|done].
    + exists m. split; [lia|]. replace (Z.of_nat m + 1) with (Z.of_nat (S m)) by lia. lia.
Qed.

(** The candidates are handed out as C6 says whenever there is one: for a
    non-empty candidate list [C] and a worker count [T >= 1] the
    driver uses [min(T, |C|)] workers, and the ranges it hands out, worker
    [k] getting the indices [s..e], are as many as the workers, have
    [|C| div T_eff] indices each and one more for the first [|C| mod T_eff]
    workers, follow one another without a gap from index [0] to index
    [|C| - 1], so that every index lies in exactly one range and the
    ranges put one after the other give back [C]. *)
Theorem partition_contiguous_cover (C : list Z) (T : Z) :
  1 ≤ T → C ≠ [] →
  let total := Z.of_nat (length C) in
  let eff := effective_threads T total in
  eff = Z.min T total ∧ 1 ≤ eff ∧
  ∃ ranges,
    partition total eff = Ok ranges ∧
    Z.of_nat (length ranges) = eff ∧
    (∀ (k : nat) t s e, ranges !! k = Some (t, s, e) →
       t = Z.of_nat k ∧
       e - s + 1 = total `div` eff + (if Z.of_nat k <? total `mod` eff then 1 else 0) ∧
       0 ≤ s ∧ e < total ∧
       (k = 0%nat → s = 0) ∧
       (Z.of_nat k = eff - 1 → e = total - 1) ∧
       (∀ t' s' e', ranges !! S k = Some (t', s', e') → s' = e + 1)) ∧
    (∀ i, 0 ≤ i < total →
       ∃ (k : nat) t s e, ranges !! k = Some (t, s, e) ∧ s ≤ i ≤ e) ∧
    (∀ i (k1 k2 : nat) t1 s1 e1 t2 s2 e2,
       ranges !! k1 = Some (t1, s1, e1) → ranges !! k2 = Some (t2, s2, e2) →
       s1 ≤ i ≤ e1 → s2 ≤ i ≤ e2 → k1 = k2) ∧
    concat (slice C <$> ranges) = C.
Proof.
  intros HT HC total eff.
  assert (Htotal : 1 ≤ total) by (unfold total; destruct C; simpl in *; [done|lia]).
  assert (Heff : 1 ≤ eff) by (unfold eff, effective_threads; lia).
  split; [done|]. split; [done|].
  assert (Hq : Z.quot total eff = total `div` eff) by (apply Z.quot_div_nonneg; lia).
  assert (Hr : Z.rem total eff = total `mod` eff) by (apply Z.rem_mod_nonneg; lia).
  pose proof (Z.div_mod total eff ltac:(lia)) as Hdm.
  pose proof (Z.mod_pos_bound total eff ltac:(lia)) as Hmb.
  assert (Hq0 : 0 ≤ total `div` eff) by (apply Z.div_pos; lia).
  set (q := total `div` eff) in *. set (r := total `mod` eff) in *.
  exists (distribute (seqZ 0 eff) 0 q r).
  assert (Hlook : ∀ (k : nat) t s e,
            distribute (seqZ 0 eff) 0 q r !! k = Some (t, s, e) →
            t = Z.of_nat k ∧ s = range_start q r t ∧ e = range_start q r (t + 1) - 1).
  { intros k t s e Hk.
    assert (H0 : range_start q r 0 = 0) by (unfold range_start; lia).
    rewrite <- H0 in Hk at 2. rewrite <- (Z2Nat.id eff) in Hk by lia.
    apply distribute_lookup in Hk. destruct Hk as (-> & -> & ->).
    split_and!; [lia|done..]. }
  assert (Hlen : length (distribute (seqZ 0 eff) 0 q r) = Z.to_nat eff)
    by (by rewrite distribute_length, length_seqZ).
  assert (Hend : range_start q r eff = total) by (unfold range_start; lia).
  split_and!.
  - rewrite partition_ok by lia. f_equal. f_equal; [exact Hq|exact Hr].
  - lia.
  - intros k t s e Hk.
    assert (Hklt : (k < Z.to_nat eff)%nat) by (rewrite <- Hlen; by eapply lookup_lt_Some).
    destruct (Hlook _ _ _ _ Hk) as (-> & -> & ->).
    pose proof (range_start_succ q r (Z.of_nat k)) as Hs.
    pose proof (range_start_mono q r (Z.of_nat k + 1) eff Hq0 ltac:(lia)) as Hm.
    pose proof (range_start_mono q r 0 (Z.of_nat k) Hq0 ltac:(lia)) as Hm0.
    assert (H0 : range_start q r 0 = 0) by (unfold range_start; lia).
    split_and!; try lia.
    + intros ->. done.
    + intros Hk'. replace (Z.of_nat k + 1) with eff by lia. lia.
    + intros t' s' e' Hk'. destruct (Hlook _ _ _ _ Hk') as (-> & -> & ->).
      replace (Z.of_nat (S k)) with (Z.of_nat k + 1) by lia. lia.
  - intros i Hi.
    destruct (range_start_covers q r (Z.to_nat eff) i Hq0 ltac:(lia)) as (k & Hk & Hik).
    { rewrite Z2Nat.id by lia. lia. }
    destruct (lookup_lt_is_Some_2 (distribute (seqZ 0 eff) 0 q r) k) as [[[t s] e] Hl];
      [lia|].
    exists k, t, s, e. split; [done|].
    destruct (Hlook _ _ _ _ Hl) as (-> & -> & ->). done.
  - intros i k1 k2 t1 s1 e1 t2 s2 e2 H1 H2 Hi1 Hi2.
    destruct (Hlook _ _ _ _ H1) as (-> & -> & ->).
    destruct (Hlook _ _ _ _ H2) as (-> & -> & ->).
    destruct (Nat.lt_trichotomy k1 k2) as [Hlt|[->|Hlt]]; [|done|].
    + pose proof (range_start_mono q r (Z.of_nat k1 + 1) (Z.of_nat k2) Hq0 ltac:(lia)). lia.
    + pose proof (range_start_mono q r (Z.of_nat k2 + 1) (Z.of_nat k1) Hq0 ltac:(lia)). lia.
  - apply partition_slices with eff; [done|].
    rewrite partition_ok by lia. f_equal. f_equal; [exact Hq|exact Hr].
Qed.

(** ** What the loops over the candidates produce *)

Lemma requires_from_app n bb aux vl1 vl2 :
  requires_from n bb aux (vl1 ++ vl2)
  = requires_from n bb aux vl1 ++ requires_from n bb aux vl2.
Proof. unfold requires_from. by rewrite fmap_app, concat_app. Qed.

Lemma excludes_from_app n bb aux vl1 vl2 :
  excludes_from n bb aux (vl1 ++ vl2)
  = excludes_from n bb aux vl1 ++ excludes_from n bb aux vl2.
Proof. unfold excludes_from. by rewrite fmap_app, concat_app. Qed.

Lemma requires_from_concat n bb aux vls :
  requires_from n bb aux (concat vls) = concat (requires_from n bb aux <$> vls).
Proof.
  induction vls as [|vl vls IH]; [done|].
  simpl. by rewrite requires_from_app, IH.
Qed.

Lemma excludes_from_concat n bb aux vls :
  excludes_from n bb aux (concat vls) = concat (excludes_from n bb aux <$> vls).
Proof.
  induction vls as [|vl vls IH]; [done|].
  simpl. by rewrite excludes_from_app, IH.
Qed.

Lemma single_threaded_spec d n bb aux vars : ∀ req exc r x,
  single_threaded d n bb aux vars req exc = Ok (r, x) ↔
  ∃ vl, vl.*1 = vars ∧ Forall (answered_by d n) vl ∧
        r = req ++ requires_from n bb aux vl ∧
        x = exc ++ excludes_from n bb aux vl.
Proof.
  induction vars as [|v vars IH]; intros req exc r x; simpl.
  - split.
    + intros [= <- <-]. exists []. by rewrite !app_nil_r.
    + intros (vl & Hfst & _ & -> & ->). apply fmap_nil_inv in Hfst as ->.
      by rewrite !app_nil_r.
  - res_simpl. split.
    + destruct (backbone_line d n v) as [line|] eqn:Hline; [|done].
      intros (vl & <- & Hall & -> & ->)%IH.
      exists ((v, line) :: vl). split_and!; [done|by constructor|..];
        by rewrite <- app_assoc.
    + intros (vl & Hfst & Hall & -> & ->).
      destruct vl as [|[v' line] vl]; [done|].
      injection Hfst as -> <-. apply Forall_cons in Hall as [Hv Hall].
      unfold answered_by in Hv. simpl in Hv. rewrite Hv.
      apply IH. exists vl. split_and!; [done..| |]; by rewrite <- app_assoc.
Qed.

Lemma at_index_slice_1 (vars : list Z) (c : nat) : ∀ s vs,
  Forall2 (at_index vars) (seqZ s (Z.of_nat c)) vs →
  vs = take c (drop (Z.to_nat s) vars).
Proof.
  induction c as [|c IH]; intros s vs H.
  - rewrite seqZ_nil in H by lia. by inversion H.
  - rewrite seqZ_cons in H by lia.
    replace (Z.pred (Z.of_nat (S c))) with (Z.of_nat c) in H by lia.
    inversion H as [|idx v idxs vs' Hat Hrest]; subst.
    unfold at_index in Hat. destruct (Z.ltb_spec s 0); [done|].
    apply IH in Hrest. subst vs'.
    rewrite (drop_S _ _ _ Hat). simpl.
    by replace (Z.to_nat (Z.succ s)) with (S (Z.to_nat s)) by lia.
Qed.

Lemma at_index_slice_2 (vars : list Z) (c : nat) : ∀ s,
  0 ≤ s → s + Z.of_nat c ≤ Z.of_nat (length vars) →
  Forall2 (at_index vars) (seqZ s (Z.of_nat c)) (take c (drop (Z.to_nat s) vars)).
Proof.
  induction c as [|c IH]; intros s Hs Hlen.
  - rewrite seqZ_nil by lia. constructor.
  - rewrite seqZ_cons by lia.
    replace (Z.pred (Z.of_nat (S c))) with (Z.of_nat c) by lia.
    destruct (lookup_lt_is_Some_2 vars (Z.to_nat s)) as [v Hv]; [lia|].
    rewrite (drop_S _ _ _ Hv). simpl. constructor.
    + unfold at_index. destruct (Z.ltb_spec s 0); [lia|done].
    + replace (S (Z.to_nat s)) with (Z.to_nat (Z.succ s)) by lia.
      apply IH; lia.
Qed.

Lemma seqZ_to_nat s len : seqZ s len = seqZ s (Z.of_nat (Z.to_nat len)).
Proof.
  destruct (Z.le_gt_cases 0 len); [by rewrite Z2Nat.id|].
  by rewrite !seqZ_nil by lia.
Qed.

Module WorkerFacts.
Import ThreadWorker.

Lemma run_over_inv idxs : ∀ w w',
  run_over w idxs = Ok w' → success w' = true →
  ∃ vl,
    Forall2 (at_index (vars_to_process w)) idxs (vl.*1) ∧
    Forall (answered_by (bone_api w) (num_variables w)) vl ∧
    requires_list w' = requires_list w ++
      requires_from (num_variables w) (global_bb w) (aux_vars w) vl ∧
    excludes_list w' = excludes_list w ++
      excludes_from (num_variables w) (global_bb w) (aux_vars w) vl ∧
    progress w' = progress w + Z.of_nat (length idxs).
Proof.
  induction idxs as [|idx idxs IH]; intros w w'; cbn [run_over].
  - intros [= <-] _. exists []. simpl.
    rewrite !app_nil_r. split_and!; try done; try constructor; lia.
  - destruct (if idx <? 0 then None else vars_to_process w !! Z.to_nat idx)
      as [v|] eqn:Hidx; [|done].
    unfold process_variable. res_simpl.
    destruct (backbone_line (bone_api w) (num_variables w) v) as [line|[]] eqn:Hline;
      try done.
    + intros Hrun Hok. apply IH in Hrun; [|done].
      destruct Hrun as (vl & Hvs & Hall & Hreq & Hexc & Hprog).
      simpl in *. exists ((v, line) :: vl).
      split_and!; [by constructor|by constructor|..].
      * rewrite Hreq, <- app_assoc. done.
      * rewrite Hexc, <- app_assoc. done.
      * lia.
    + intros [= <-]. done.
Qed.

Lemma run_over_intro idxs : ∀ w vl,
  Forall2 (at_index (vars_to_process w)) idxs (vl.*1) →
  Forall (answered_by (bone_api w) (num_variables w)) vl →
  ∃ w', run_over w idxs = Ok w' ∧ success w' = true ∧
    requires_list w' = requires_list w ++
      requires_from (num_variables w) (global_bb w) (aux_vars w) vl ∧
    excludes_list w' = excludes_list w ++
      excludes_from (num_variables w) (global_bb w) (aux_vars w) vl ∧
    progress w' = progress w + Z.of_nat (length idxs).
Proof.
  induction idxs as [|idx idxs IH]; intros w vl Hvs Hall; cbn [run_over].
  - destruct vl; [|by inversion Hvs].
    eexists. split; [done|]. simpl. rewrite !app_nil_r. split_and!; try done. lia.
  - destruct vl as [|[v line] vl]; [by inversion Hvs|].
    apply Forall2_cons in Hvs as [Hat Hrest].
    apply Forall_cons in Hall as [Hv Hall].
    unfold at_index in Hat. simpl in Hat. rewrite Hat.
    unfold process_variable. res_simpl.
    unfold answered_by in Hv. simpl in Hv. rewrite Hv.
    edestruct (IH (count (emit w
                    (requires_edges (num_variables w) v line (global_bb w) (aux_vars w))
                    (excludes_edges (num_variables w) v line (global_bb w) (aux_vars w))))
                  vl) as (w' & Hrun & Hok & Hreq & Hexc & Hprog); [done..|].
    exists w'. simpl in *. split_and!; [done|done|..].
    + rewrite Hreq, <- app_assoc. done.
    + rewrite Hexc, <- app_assoc. done.
    + lia.
Qed.

End WorkerFacts.

Lemma make_workers_zip ranges apis bb aux vars n :
  make_workers ranges apis bb aux vars n = worker_of bb aux vars n <$> zip ranges apis.
Proof.
  unfold make_workers. rewrite zip_with_zip. apply list_fmap_ext.
  by intros _ [[[t s] e] api] _.
Qed.

Lemma run_workers_inv bb aux vars n ras : ∀ ws,
  run_workers (worker_of bb aux vars n <$> ras) = Ok ws →
  Forall (fun w => ThreadWorker.success w = true) ws →
  ∃ vls,
    Forall2 (fun ra vl => vl.*1 = slice vars ra.1 ∧ Forall (answered_by ra.2 n) vl)
            ras vls ∧
    concat (ThreadWorker.requires_list <$> ws) = requires_from n bb aux (concat vls) ∧
    concat (ThreadWorker.excludes_list <$> ws) = excludes_from n bb aux (concat vls).
Proof.
  induction ras as [|[[[t s] e] api] ras IH]; intros ws; cbn [fmap list_fmap run_workers].
  - intros [= <-] _. exists []. split; [constructor|done].
  - res_simpl.
    destruct (ThreadWorker.run (worker_of bb aux vars n (t, s, e, api))) as [w'|] eqn:Hrun;
      [|done].
    change (list_fmap _ _ (worker_of bb aux vars n)) with (fmap (M:=list) (worker_of bb aux vars n)).
    destruct (run_workers (worker_of bb aux vars n <$> ras)) as [ws'|] eqn:Hrest; [|done].
    intros [= <-] [Hok Hoks]%Forall_cons.
    destruct (IH ws' eq_refl Hoks) as (vls & Hvls & Hreq & Hexc).
    unfold ThreadWorker.run in Hrun. cbn [worker_of ThreadWorker.new ThreadWorker.start_idx
      ThreadWorker.end_idx] in Hrun.
    apply WorkerFacts.run_over_inv in Hrun; [|done].
    destruct Hrun as (vl & Hvs & Hall & Hreq1 & Hexc1 & _).
    cbn in Hvs, Hall, Hreq1, Hexc1.
    rewrite seqZ_to_nat in Hvs. apply at_index_slice_1 in Hvs.
    exists (vl :: vls). split_and!.
    + constructor; [|done]. split; [|done]. by rewrite Hvs.
    + cbn [fmap list_fmap concat]. rewrite Hreq1. simpl.
      rewrite requires_from_app. f_equal. exact Hreq.
    + cbn [fmap list_fmap concat]. rewrite Hexc1. simpl.
      rewrite excludes_from_app. f_equal. exact Hexc.
Qed.

Lemma run_workers_intro bb aux vars n ras : ∀ vls,
  Forall (fun ra => let '(_, s, e) := ra.1 in
                    0 ≤ s ∧ s ≤ e + 1 ∧ e < Z.of_nat (length vars)) ras →
  Forall2 (fun ra vl => vl.*1 = slice vars ra.1 ∧ Forall (answered_by ra.2 n) vl)
          ras vls →
  ∃ ws,
    run_workers (worker_of bb aux vars n <$> ras) = Ok ws ∧
    Forall (fun w => ThreadWorker.success w = true) ws ∧
    concat (ThreadWorker.requires_list <$> ws) = requires_from n bb aux (concat vls) ∧
    concat (ThreadWorker.excludes_list <$> ws) = excludes_from n bb aux (concat vls) ∧
    sum_progress ws = Z.of_nat (length (concat vls)).
Proof.
  induction ras as [|[[[t s] e] api] ras IH]; intros vls Hb Hvls;
    cbn [fmap list_fmap run_workers].
  - inversion Hvls; subst. exists []. split_and!; try done.
  - inversion Hvls as [|? vl ? vls' [Hfst Hall] Hrest]; subst.
    apply Forall_cons in Hb as [(Hs & Hse & He) Hb]. simpl in Hfst, Hall.
    destruct (IH vls' Hb Hrest) as (ws' & Hrun' & Hoks & Hreq & Hexc & Hprog).
    destruct (WorkerFacts.run_over_intro (seqZ s (e - s + 1))
                (worker_of bb aux vars n (t, s, e, api)) vl)
      as (w' & Hrun & Hok & Hreq1 & Hexc1 & Hprog1); [|done|].
    { cbn. rewrite Hfst, seqZ_to_nat. apply at_index_slice_2; lia. }
    res_simpl. unfold ThreadWorker.run.
    cbn [worker_of ThreadWorker.new ThreadWorker.start_idx ThreadWorker.end_idx] in *.
    rewrite Hrun.
    change (list_fmap _ _ (worker_of bb aux vars n)) with (fmap (M:=list) (worker_of bb aux vars n)).
    rewrite Hrun'. exists (w' :: ws'). cbn in Hreq1, Hexc1, Hprog1.
    split_and!; [done|by constructor|..].
    + cbn [fmap list_fmap concat]. rewrite Hreq1. simpl.
      rewrite requires_from_app. f_equal. exact Hreq.
    + cbn [fmap list_fmap concat]. rewrite Hexc1. simpl.
      rewrite excludes_from_app. f_equal. exact Hexc.
    + unfold sum_progress in *. cbn [fmap list_fmap foldr].
      change (list_fmap _ _ ThreadWorker.progress) with (fmap (M:=list) ThreadWorker.progress).
      rewrite Hprog, Hprog1, length_seqZ. simpl. rewrite length_app.
      assert (length vl = Z.to_nat (e - s + 1)); [|lia].
      rewrite <- (length_fmap fst), Hfst. unfold slice.
      rewrite length_take, length_drop. lia.
Qed.

Lemma init_apis_inv e path det ts : ∀ apis,
  init_apis e path det ts = inr apis →
  length apis = length ts ∧ Forall (loaded e path det) apis.
Proof.
  induction ts as [|t ts IH]; intros apis; cbn [init_apis].
  - intros [= <-]. split; [done|constructor].
  - destruct (read_dimacs e (S (Z.to_nat t)) path) as [f|] eqn:Hf; [|done].
    destruct (create_backbone_detector f det) as [d|] eqn:Hd; [|done].
    destruct (init_apis e path det ts) as [|ds]; [done|].
    intros [= <-]. destruct (IH ds eq_refl) as [Hlen Hall].
    split; [simpl; by rewrite Hlen|]. constructor; [|done]. by exists (S (Z.to_nat t)), f.
Qed.

Lemma init_apis_same e path det f d ts :
  (∀ i, read_dimacs e i path = Some f) →
  create_backbone_detector f det = Some d →
  init_apis e path det ts = inr (replicate (length ts) d).
Proof.
  intros Hf Hd. induction ts as [|t ts IH]; [done|].
  cbn [init_apis]. by rewrite Hf, Hd, IH.
Qed.

Lemma find_none_success ws :
  List.find (fun w => negb (ThreadWorker.success w)) ws = None ↔
  Forall (fun w => ThreadWorker.success w = true) ws.
Proof.
  induction ws as [|w ws IH]; simpl.
  - split; [constructor|done].
  - destruct (ThreadWorker.success w) eqn:Hw; simpl.
    + rewrite IH. split; [by constructor|by intros [_ ?]%Forall_cons].
    + split; [done|]. intros [? _]%Forall_cons. congruence.
Qed.

Lemma slices_fst vars (ras : list (Z * Z * Z * Detector)) n vls :
  Forall2 (fun ra vl => vl.*1 = slice vars ra.1 ∧ Forall (answered_by ra.2 n) vl)
          ras vls →
  (concat vls).*1 = concat (slice vars <$> ras.*1).
Proof.
  induction 1 as [|ra vl ras vls [Hfst _] _ IH]; [done|].
  simpl. by rewrite fmap_app, Hfst, IH.
Qed.

Lemma slices_answered e path det vars (ras : list (Z * Z * Z * Detector)) n vls :
  Forall (loaded e path det) (ras.*2) →
  Forall2 (fun ra vl => vl.*1 = slice vars ra.1 ∧ Forall (answered_by ra.2 n) vl)
          ras vls →
  Forall (fun p => ∃ d, loaded e path det d ∧ answered_by d n p) (concat vls).
Proof.
  intros Hl H. induction H as [|ra vl ras vls [_ Hall] _ IH]; [constructor|].
  apply Forall_cons in Hl as [Hra Hl]. simpl. apply Forall_app. split; [|by apply IH].
  eapply Forall_impl; [exact Hall|]. intros p Hp. by exists ra.2.
Qed.

Lemma multi_threaded_inv e path det n bb aux vars eff req exc :
  0 ≤ eff →
  multi_threaded e path det n bb aux vars (Z.of_nat (length vars)) eff
    = Ok (inr (req, exc)) →
  ∃ vl, vl.*1 = vars ∧
        Forall (fun p => ∃ d, loaded e path det d ∧ answered_by d n p) vl ∧
        req = requires_from n bb aux vl ∧ exc = excludes_from n bb aux vl.
Proof.
  intros Heff. unfold multi_threaded.
  destruct (init_apis e path det (seqZ 0 eff)) as [|apis] eqn:Hinit; [done|].
  apply init_apis_inv in Hinit as [Hlen Hloaded]. rewrite length_seqZ in Hlen.
  res_simpl.
  destruct (partition (Z.of_nat (length vars)) eff) as [ranges|] eqn:Hpart; [|done].
  assert (1 ≤ eff).
  { destruct (Z.eq_dec eff 0) as [->|]; [|lia]. by rewrite partition_no_candidates in Hpart. }
  rewrite make_workers_zip.
  destruct (run_workers (worker_of bb aux vars n <$> zip ranges apis)) as [ws|] eqn:Hrun;
    [|done].
  destruct (_ <? _); [done|].
  destruct (List.find _ ws) eqn:Hfind; [done|]. intros [= <- <-].
  apply find_none_success in Hfind.
  destruct (run_workers_inv _ _ _ _ _ _ Hrun Hfind) as (vls & Hvls & Hreq & Hexc).
  pose proof (partition_length _ _ _ Hpart) as Hrl.
  exists (concat vls). split_and!; [|
    |done|done].
  - rewrite (slices_fst _ _ _ _ Hvls), fst_zip by lia.
    by apply partition_slices with eff.
  - eapply slices_answered; [|exact Hvls]. rewrite snd_zip by lia. done.
Qed.

Lemma multi_threaded_intro e path det n bb aux f d eff vl :
  1 ≤ eff →
  (∀ i, read_dimacs e i path = Some f) →
  create_backbone_detector f det = Some d →
  Forall (answered_by d n) vl →
  multi_threaded e path det n bb aux (vl.*1) (Z.of_nat (length (vl.*1))) eff
    = Ok (inr (requires_from n bb aux vl, excludes_from n bb aux vl)).
Proof.
  intros Heff Hf Hd Hall. unfold multi_threaded.
  rewrite (init_apis_same e path det f d) by done. rewrite length_seqZ.
  rewrite partition_ok by lia. res_simpl.
  set (ranges := distribute _ _ _ _).
  assert (Hpart : partition (Z.of_nat (length (vl.*1))) eff = Ok ranges)
    by (by rewrite partition_ok by lia).
  pose proof (partition_length _ _ _ Hpart) as Hrl.
  pose proof (partition_in_bounds (Z.of_nat (length (vl.*1))) eff ranges Heff
                ltac:(lia) Hpart) as Hb.
  rewrite make_workers_zip.
  set (ras := zip ranges (replicate (Z.to_nat eff) d)).
  assert (Hfst : ras.*1 = ranges) by (apply fst_zip; rewrite length_replicate; lia).
  destruct (run_workers_intro bb aux (vl.*1) n ras (slice vl <$> ranges))
    as (ws & Hrun & Hok & Hreq & Hexc & Hprog).
  - apply Forall_forall. intros [[[t s] e'] api] Hin.
    assert (Hin' : (t, s, e') ∈ ranges).
    { rewrite <- Hfst. apply list_elem_of_fmap. by exists (t, s, e', api). }
    rewrite Forall_forall in Hb. exact (Hb _ Hin').
  - rewrite <- Hfst, <- list_fmap_compose.
    apply Forall2_fmap_r, Forall_Forall2_diag, Forall_forall.
    intros [[[t s] e'] api] Hin. simpl. split.
    + by rewrite fmap_take, fmap_drop.
    + assert (api = d) as ->.
      { apply elem_of_zip_r in Hin. by apply elem_of_replicate in Hin as [-> _]. }
      by apply Forall_take, Forall_drop.
  - rewrite Hrun.
    assert (Hcat : concat (slice vl <$> ranges) = vl).
    { apply partition_slices with eff; [done|]. by rewrite length_fmap in Hpart. }
    rewrite Hcat in *. fold (sum_progress ws). rewrite Hprog, length_fmap.
    rewrite Z.ltb_irrefl. apply find_none_success in Hok. rewrite Hok.
    by rewrite Hreq, Hexc.
Qed.

Lemma extract_edges_inv e d path det n bb aux vars T req exc :
  1 ≤ T → loaded e path det d →
  extract_edges e d path det n bb aux vars T = Ok (inr (req, exc)) →
  ∃ vl, vl.*1 = vars ∧
        Forall (fun p => ∃ d', loaded e path det d' ∧ answered_by d' n p) vl ∧
        req = requires_from n bb aux vl ∧ exc = excludes_from n bb aux vl.
Proof.
  intros HT Hd. unfold extract_edges, effective_threads.
  destruct (_ =? 1) eqn:Heff.
  - res_simpl.
    destruct (single_threaded d n bb aux vars [] []) as [[r x]|] eqn:Hs; [|done].
    intros [= <- <-]. apply single_threaded_spec in Hs as (vl & Hfst & Hall & -> & ->).
    exists vl. split_and!; [done| |done..].
    eapply Forall_impl; [exact Hall|]. intros p Hp. by exists d.
  - apply multi_threaded_inv. lia.
Qed.

(** ** What a call that built its graphs went through *)

Lemma generate_graphs_inv e file out det T st r g :
  generate_graphs e file out det T st = Ok r → graphs r = Some g →
  ∃ a, analysed e file det (filter_auxiliary st) T a g ∧
       num_variables (impl r) = get_max_variable (a_formula a) ∧
       global_backbone (impl r) = compute_backbone (a_detector a).
Proof.
  unfold generate_graphs, generate_graphs_impl. intros Hrun Hg.
  set (path := dimacs_path_of file) in *.
  destruct (read_dimacs e 0 path) as [f|] eqn:Hf;
    [|injection Hrun as <-; discriminate Hg].
  destruct (create_backbone_detector f det) as [d|] eqn:Hd;
    [|injection Hrun as <-; discriminate Hg].
  cbn [num_variables set_num_variables num_clauses reset filter_auxiliary
       set_num_clauses set_global_backbone] in Hrun.
  destruct (read_clause_count e path 0) as [|clauses];
    [injection Hrun as <-; discriminate Hg|].
  res_simpl.
  destruct (new_vector (get_max_variable f + 1) false) as [aux0|] eqn:Haux0; [|done].
  destruct (if filter_auxiliary st then read_feature_names e path aux0 else Ok (inr aux0))
    as [[msg|aux]|] eqn:Hnames; [injection Hrun as <-; discriminate Hg| |done].
  destruct (to_indexed (get_max_variable f) (compute_backbone d)) as [bb|] eqn:Hbb; [|done].
  destruct (Z.ltb_spec T 1); [injection Hrun as <-; discriminate Hg|].
  destruct (Z.ltb_spec (max_threads e) T); [injection Hrun as <-; discriminate Hg|].
  destruct (extract_edges e d path det (get_max_variable f) bb aux _ T)
    as [[msg|[req exc]]|] eqn:Hedges; [injection Hrun as <-; discriminate Hg| |done].
  destruct (name_lines bb aux ([], [], []) (default [] (file_lines e path)))
    as [[[fs cs] ds]|] eqn:Hstreams; [|done].
  apply extract_edges_inv in Hedges as (vl & Hfst & Hall & -> & ->);
    [|lia|by exists 0%nat, f].
  exists {| a_formula := f; a_detector := d; a_aux_vars := aux; a_bb := bb;
            a_queries := vl |}.
  assert (Haux : aux_table e path (filter_auxiliary st) (get_max_variable f) aux).
  { exists aux0. split; [done|]. destruct (filter_auxiliary st).
    - unfold read_feature_names in Hnames.
      destruct (file_lines e path) as [lines|]; [|done]. res_simpl.
      destruct (mark_aux_lines aux0 lines) eqn:Hm; [|done].
      injection Hnames as <-. by exists lines.
    - by injection Hnames as <-. }
  assert (Hgraphs : g = {| requires := requires_from (get_max_variable f) bb aux vl;
                           excludes := excludes_from (get_max_variable f) bb aux vl;
                           feat := fs; core := cs; dead := ds |} ∧
                    num_variables (impl r) = get_max_variable f ∧
                    global_backbone (impl r) = compute_backbone d).
  { destruct (if _ && _ then _ else _).
    - injection Hrun as <-. simpl in *. by injection Hg as <-.
    - destruct (write_files _ _ _) as [[msg|] written];
        injection Hrun as <-; simpl in *; by injection Hg as <-. }
  destruct Hgraphs as (-> & Hn & Hgb).
  split; [|done]. unfold analysed. cbn. fold path. split_and!; try done; lia.
Qed.

Lemma write_files_all e todo : ∀ written written',
  write_files e todo written = (None, written') →
  written' = written ++ ((fun pc => (pc.1, str pc.2)) <$> todo).
Proof.
  induction todo as [|[path content] todo IH]; intros written written'; simpl.
  - intros [= <-]. by rewrite app_nil_r.
  - destruct (open_for_writing e path); [|done].
    intros H%IH. by rewrite H, <- app_assoc.
Qed.

(** A call that returns [true] has written the four files, with the
    streams of its graphs as their contents. *)
Lemma generate_graphs_files e file out det T st r :
  generate_graphs e file out det T st = Ok r → ok r = true →
  ∃ g base,
    graphs r = Some g ∧
    files r = (fun pc => (pc.1, str pc.2)) <$>
              output_files base (get_num_variables (impl r)) g.
Proof.
  unfold generate_graphs, generate_graphs_impl. intros Hrun Hok.
  set (path := dimacs_path_of file) in *.
  destruct (read_dimacs e 0 path) as [f|]; [|injection Hrun as <-; discriminate Hok].
  destruct (create_backbone_detector f det) as [d|];
    [|injection Hrun as <-; discriminate Hok].
  cbn [num_variables set_num_variables num_clauses reset filter_auxiliary
       set_num_clauses set_global_backbone] in Hrun.
  destruct (read_clause_count e path 0) as [|clauses];
    [injection Hrun as <-; discriminate Hok|].
  res_simpl.
  destruct (new_vector (get_max_variable f + 1) false) as [aux0|]; [|done].
  destruct (if filter_auxiliary st then read_feature_names e path aux0 else Ok (inr aux0))
    as [[msg|aux]|]; [injection Hrun as <-; discriminate Hok| |done].
  destruct (to_indexed (get_max_variable f) (compute_backbone d)) as [bb|]; [|done].
  destruct (T <? 1); [injection Hrun as <-; discriminate Hok|].
  destruct (max_threads e <? T); [injection Hrun as <-; discriminate Hok|].
  destruct (extract_edges e d path det (get_max_variable f) bb aux _ T)
    as [[msg|[req exc]]|]; [injection Hrun as <-; discriminate Hok| |done].
  destruct (name_lines bb aux ([], [], []) (default [] (file_lines e path)))
    as [[[fs cs] ds]|]; [|done].
  destruct (if _ && _ then _ else _); [injection Hrun as <-; discriminate Hok|].
  destruct (write_files _ _ _) as [[msg|] written] eqn:Hw;
    [injection Hrun as <-; discriminate Hok|].
  injection Hrun as <-. apply write_files_all in Hw. simpl in Hw.
  eexists _, _. split; [reflexivity|]. exact Hw.
Qed.

(** ** Auxiliary variables *)

Lemma is_aux_true aux w :
  0 ≤ w → is_aux aux w = true ↔ aux !! Z.to_nat w = Some true.
Proof.
  intros Hw. unfold is_aux. rewrite andb_true_iff, Z.ltb_lt. split.
  - intros [Hlt Hb]. destruct (lookup_lt_is_Some_2 aux (Z.to_nat w)) as [b Hl]; [lia|].
    rewrite (list_lookup_total_correct _ _ _ Hl) in Hb. by subst.
  - intros Hl. split; [apply lookup_lt_Some in Hl; lia|].
    by rewrite (list_lookup_total_correct _ _ _ Hl).
Qed.

Lemma is_aux_replicate k w : 0 ≤ w → is_aux (replicate k false) w = false.
Proof.
  intros Hw. apply not_true_is_false. rewrite is_aux_true by done.
  by intros [? _]%lookup_replicate.
Qed.

Lemma mark_aux_line_spec aux line aux' w :
  mark_aux_line aux line = Ok aux' → 0 ≤ w →
  is_aux aux' w = is_aux aux w || names_aux_line line w.
Proof.
  unfold mark_aux_line, names_aux_line. intros H Hw.
  destruct (size line =? 0)%nat; [injection H as <-; by rewrite orb_false_r|].
  destruct (Ascii.eqb (first_char line) "c"); [|injection H as <-; by rewrite orb_false_r].
  destruct (parse_comment line) as [[v [|w0 ws]]|];
    try (injection H as <-; by rewrite orb_false_r).
  destruct (has_aux_prefix (join_words (w0 :: ws)));
    [|injection H as <-; by rewrite andb_false_r, orb_false_r].
  destruct (Z.ltb_spec v 0); [done|]. injection H as <-.
  simpl. rewrite andb_true_r.
  set (aux1 := if Z.of_nat (length aux) <=? v then _ else aux).
  assert (Hlen : (Z.to_nat v < length aux1)%nat).
  { unfold aux1. destruct (Z.leb_spec (Z.of_nat (length aux)) v); [|lia].
    rewrite length_app, length_replicate. lia. }
  assert (Hsame : is_aux aux1 w = is_aux aux w).
  { unfold aux1. destruct (Z.leb_spec (Z.of_nat (length aux)) v); [|done].
    apply eq_true_iff_eq. rewrite !is_aux_true by done.
    destruct (decide (Z.to_nat w < length aux)%nat).
    - by rewrite lookup_app_l.
    - rewrite lookup_app_r by lia. split.
      + intros [? _]%lookup_replicate. done.
      + intros ?%lookup_lt_Some. lia. }
  rewrite <- Hsame. apply eq_true_iff_eq.
  rewrite orb_true_iff, !is_aux_true, Z.eqb_eq by done.
  destruct (decide (v = w)) as [->|Hne].
  - rewrite list_lookup_insert_eq by done. split; [by right|done].
  - rewrite list_lookup_insert_ne by lia. split; [by left|by intros [?|?]].
Qed.

Lemma mark_aux_line_nonneg aux line aux' w :
  mark_aux_line aux line = Ok aux' → names_aux_line line w = true → 0 ≤ w.
Proof.
  unfold mark_aux_line, names_aux_line. intros H Hn.
  destruct (size line =? 0)%nat; [done|].
  destruct (Ascii.eqb (first_char line) "c"); [|done].
  destruct (parse_comment line) as [[v [|w0 ws]]|]; try done.
  simpl in Hn. apply andb_true_iff in Hn as [->%Z.eqb_eq Hp]. rewrite Hp in H.
  destruct (Z.ltb_spec w 0); [done|lia].
Qed.

Lemma mark_aux_lines_spec lines : ∀ aux aux' w,
  mark_aux_lines aux lines = Ok aux' → 0 ≤ w →
  is_aux aux' w = is_aux aux w || names_aux lines w.
Proof.
  induction lines as [|l lines IH]; intros aux aux' w; simpl.
  - intros [= <-] _. by rewrite orb_false_r.
  - res_simpl. destruct (mark_aux_line aux l) as [aux1|] eqn:H1; [|done].
    intros H Hw. rewrite (IH _ _ _ H Hw), (mark_aux_line_spec _ _ _ _ H1 Hw).
    by rewrite orb_assoc.
Qed.

Lemma mark_aux_lines_nonneg lines : ∀ aux aux' w,
  mark_aux_lines aux lines = Ok aux' → names_aux lines w = true → 0 ≤ w.
Proof.
  induction lines as [|l lines IH]; intros aux aux' w; simpl; [done|].
  res_simpl. destruct (mark_aux_line aux l) as [aux1|] eqn:H1; [|done].
  intros H [Hl|Hr]%orb_true_iff.
  - by eapply mark_aux_line_nonneg.
  - by eapply IH.
Qed.

(** With the filter on, the table holds exactly the auxiliary variables
    of the file; with the filter off it holds none. *)
Lemma aux_table_on e path n aux lines w :
  aux_table e path true n aux → file_lines e path = Some lines →
  names_aux lines w = true → 0 ≤ w ∧ is_aux aux w = true.
Proof.
  intros (aux0 & H0 & lines' & Hl & Hm) Hlines Hn.
  rewrite Hlines in Hl. injection Hl as <-.
  pose proof (mark_aux_lines_nonneg _ _ _ _ Hm Hn) as Hw. split; [done|].
  rewrite (mark_aux_lines_spec _ _ _ _ Hm Hw), Hn. apply orb_true_r.
Qed.

Lemma aux_table_not_named e path filtering n aux w :
  aux_table e path filtering n aux → 0 ≤ w →
  (∀ lines, file_lines e path = Some lines → names_aux lines w = false) →
  is_aux aux w = false.
Proof.
  intros (aux0 & H0 & Ht) Hw Hn. unfold new_vector in H0.
  destruct (n + 1 <? 0); [done|]. injection H0 as <-.
  destruct filtering.
  - destruct Ht as (lines & Hl & Hm).
    rewrite (mark_aux_lines_spec _ _ _ _ Hm Hw), (Hn _ Hl), is_aux_replicate; done.
  - subst. by apply is_aux_replicate.
Qed.

(** ** The edges of a run *)

Lemma elem_requires_edges n v line bb aux x y :
  (x, y) ∈ requires_edges n v line bb aux ↔
  x = v ∧ 1 ≤ y ≤ n ∧ y ≠ v ∧ at_ line y = y ∧ at_ bb y = 0 ∧ is_aux aux y = false.
Proof.
  unfold requires_edges. rewrite list_elem_of_fmap. split.
  - intros (i & [= -> ->] & Hi). apply list_elem_of_filter in Hi as [Hp Hi].
    apply elem_of_seqZ in Hi. split_and!; try tauto; lia.
  - intros (-> & Hy & Hp). exists y. split; [done|].
    apply list_elem_of_filter. split; [done|]. apply elem_of_seqZ. lia.
Qed.

Lemma elem_excludes_edges n v line bb aux x y :
  (x, y) ∈ excludes_edges n v line bb aux ↔
  x = v ∧ v ≤ y ≤ n ∧ at_ line y = - y ∧ at_ bb y ≠ - y ∧ at_ bb v ≠ - v ∧
  is_aux aux y = false.
Proof.
  unfold excludes_edges. rewrite list_elem_of_fmap. split.
  - intros (i & [= -> ->] & Hi). apply list_elem_of_filter in Hi as [Hp Hi].
    apply elem_of_seqZ in Hi. split_and!; try tauto; lia.
  - intros (-> & Hy & Hp). exists y. split; [done|].
    apply list_elem_of_filter. split; [done|]. apply elem_of_seqZ. lia.
Qed.

Lemma elem_requires_from n bb aux vl x y :
  (x, y) ∈ requires_from n bb aux vl ↔
  ∃ line, (x, line) ∈ vl ∧ (x, y) ∈ requires_edges n x line bb aux.
Proof.
  unfold requires_from. induction vl as [|[v l] vl IH]; simpl.
  - split; [by intros ?%elem_of_nil|by intros (? & ?%elem_of_nil & _)].
  - rewrite elem_of_app, IH. split.
    + intros [H|(line & Hin & H)].
      * pose proof H as (-> & _)%elem_requires_edges. exists l. split; [left|done].
      * exists line. split; [by right|done].
    + intros (line & [[= <- <-]|Hin]%elem_of_cons & H); [by left|right; by exists line].
Qed.

Lemma elem_excludes_from n bb aux vl x y :
  (x, y) ∈ excludes_from n bb aux vl ↔
  ∃ line, (x, line) ∈ vl ∧ (x, y) ∈ excludes_edges n x line bb aux.
Proof.
  unfold excludes_from. induction vl as [|[v l] vl IH]; simpl.
  - split; [by intros ?%elem_of_nil|by intros (? & ?%elem_of_nil & _)].
  - rewrite elem_of_app, IH. split.
    + intros [H|(line & Hin & H)].
      * pose proof H as (-> & _)%elem_excludes_edges. exists l. split; [left|done].
      * exists line. split; [by right|done].
    + intros (line & [[= <- <-]|Hin]%elem_of_cons & H); [by left|right; by exists line].
Qed.



Lemma elem_build_vars_to_process filtering n aux v :
  v ∈ build_vars_to_process filtering n aux ↔
  1 ≤ v ≤ n ∧ (filtering = true → is_aux aux v = false).
Proof.
  unfold build_vars_to_process. destruct filtering.
  - rewrite list_elem_of_filter, elem_of_seqZ. split; [intros [? ?]|intros [? H]].
    + split; [lia|done].
    + split; [by apply H|lia].
  - rewrite elem_of_seqZ. split; [intros ?|intros [? _]]; [split|]; [lia|done|lia].
Qed.


Lemma NoDup_requires_from n bb aux vl :
  NoDup (vl.*1) → NoDup (requires_from n bb aux vl).
Proof.
  unfold requires_from. induction vl as [|[v l] vl IH]; simpl; [constructor|].
  intros [Hnin Hnd]%NoDup_cons. apply NoDup_app. split_and!.
  - unfold requires_edges. apply NoDup_fmap_2; [by intros ?? [= ->]|].
    apply NoDup_filter, NoDup_seqZ.
  - intros [x y] (-> & _)%elem_requires_edges (line & Hin & _)%elem_requires_from.
    destruct Hnin. apply list_elem_of_fmap. by exists (v, line).
  - by apply IH.
Qed.

(** ** The names in the output *)

Lemma all_nums_nil P : all_nums P [].
Proof. by intros z ?%elem_of_nil. Qed.

Lemma all_nums_app P s1 s2 : all_nums P s1 → all_nums P s2 → all_nums P (s1 ++ s2).
Proof.
  intros H1 H2 z. unfold nums. rewrite omap_app, elem_of_app.
  intros [?|?]; [by apply H1|by apply H2].
Qed.

Lemma all_nums_num P v s : P v → all_nums P s → all_nums P (Num v :: s).
Proof. intros Hv Hs z [->|?]%elem_of_cons; [done|by apply Hs]. Qed.

Lemma all_nums_txt P t s : all_nums P s → all_nums P (Txt t :: s).
Proof. intros Hs z ?. by apply Hs. Qed.

Lemma all_nums_endl P s : all_nums P s → all_nums P (Endl :: s).
Proof. intros Hs z ?. by apply Hs. Qed.

Lemma all_nums_quoted P ws : all_nums P (concat (quoted <$> ws)).
Proof.
  induction ws as [|w ws IH]; [apply all_nums_nil|].
  simpl. by do 3 apply all_nums_txt.
Qed.

Lemma all_nums_per_word P v ws :
  P v → all_nums P (concat ((fun w => Num v :: quoted w) <$> ws)).
Proof.
  intros Hv. induction ws as [|w ws IH]; [apply all_nums_nil|].
  simpl. apply all_nums_num; [done|]. by do 3 apply all_nums_txt.
Qed.

Ltac nums_tac :=
  repeat match goal with
    | |- all_nums _ [] => apply all_nums_nil
    | |- all_nums _ (Endl :: _) => apply all_nums_endl
    | |- all_nums _ (Txt _ :: _) => apply all_nums_txt
    | |- all_nums _ (Num _ :: _) => apply all_nums_num; [done|]
    | |- all_nums _ (_ ++ _) => apply all_nums_app
    | |- all_nums _ (concat _) =>
        first [apply all_nums_quoted | apply all_nums_per_word; done]
    | |- _ => assumption
    end.

Lemma name_line_clean bb aux s line s' :
  clean aux s → name_line bb aux s line = Ok s' → clean aux s'.
Proof.
  unfold name_line. intros Hs H.
  destruct (size line =? 0)%nat; [by injection H as <-|].
  destruct (Ascii.eqb (first_char line) "c"); [|by injection H as <-].
  destruct (parse_comment line) as [[v ws]|]; [|by injection H as <-].
  unfold is_aux_at in H. res_simpl. destruct (Z.ltb_spec v 0); [done|].
  destruct (is_aux aux v) eqn:Hv; [by injection H as <-|].
  destruct s as [[fs cs] ds]. destruct Hs as (Hfs & Hcs & Hds). simpl in Hfs, Hcs, Hds.
  destruct ws as [|w ws].
  - injection H as <-. split_and!; [|done..]. cbn [fst snd]. nums_tac.
  - destruct (_ <=? v); [done|]. injection H as <-.
    split_and!; cbn [fst snd].
    + nums_tac.
    + destruct (0 <? _); [|done]. nums_tac.
    + destruct (0 <? _); [done|]. destruct (_ <? 0); [|done]. nums_tac.
Qed.

Lemma name_lines_clean bb aux lines : ∀ s s',
  clean aux s → name_lines bb aux s lines = Ok s' → clean aux s'.
Proof.
  induction lines as [|l lines IH]; intros s s' Hs; simpl.
  - by intros [= <-].
  - res_simpl. destruct (name_line bb aux s l) as [s1|] eqn:H1; [|done].
    apply IH. by eapply name_line_clean.
Qed.

(** No number written into an output is that of an auxiliary variable
    when the filter is on. *)
Lemma filtered_streams_omit_auxiliary e file out det T st r g lines w :
  filter_auxiliary st = true →
  generate_graphs e file out det T st = Ok r → graphs r = Some g →
  file_lines e (dimacs_path_of file) = Some lines →
  names_aux lines w = true →
  ¬ mentions g w.
Proof.
  intros Hfilter Hrun Hg Hlines Hnamed.
  destruct (generate_graphs_inv _ _ _ _ _ _ _ _ Hrun Hg) as (a & Ha & _).
  rewrite Hfilter in Ha.
  destruct Ha as (_ & _ & Haux & _ & _ & Hvars & _ & Hreq & Hexc & Hnames).
  destruct (aux_table_on _ _ _ _ _ _ Haux Hlines Hnamed) as [Hw Hwaux].
  assert (Hsrc : ∀ line, (w, line) ∉ a_queries a).
  { intros line Hin.
    assert (Hv : w ∈ (a_queries a).*1) by (apply list_elem_of_fmap; by exists (w, line)).
    rewrite Hvars in Hv. apply elem_build_vars_to_process in Hv as [_ Hv].
    rewrite Hv in Hwaux; done. }
  intros [(x & [H|[H|[H|H]]])|Hstream].
  - rewrite Hreq in H. apply elem_requires_from in H as (line & Hin & _).
    by apply (Hsrc line).
  - rewrite Hreq in H. apply elem_requires_from in H as (line & _ & H).
    apply elem_requires_edges in H. destruct H as (_ & _ & _ & _ & _ & H). congruence.
  - rewrite Hexc in H. apply elem_excludes_from in H as (line & Hin & _).
    by apply (Hsrc line).
  - rewrite Hexc in H. apply elem_excludes_from in H as (line & _ & H).
    apply elem_excludes_edges in H. destruct H as (_ & _ & _ & _ & _ & H). congruence.
  - apply name_lines_clean in Hnames; [|by split_and!; apply all_nums_nil].
    destruct Hnames as (Hf & Hc & Hd). simpl in Hf, Hc, Hd.
    destruct Hstream as [H|[H|H]];
      [apply Hf in H|apply Hc in H|apply Hd in H]; destruct H as [_ H]; congruence.
Qed.


(** ** One worker or many *)

Lemma extract_edges_more_threads e d path det n bb aux vars T f x :
  (∀ i, read_dimacs e i path = Some f) →
  create_backbone_detector f det = Some d → 1 ≤ T →
  extract_edges e d path det n bb aux vars 1 = Ok x →
  extract_edges e d path det n bb aux vars T = Ok x.
Proof.
  intros Hf Hd HT. unfold extract_edges, effective_threads.
  destruct (decide (length vars = 0)%nat) as [->|Hne].
  { simpl. by rewrite !Z.min_r by lia. }
  rewrite (Z.min_l 1) by lia. simpl.
  destruct (Z.eqb_spec (T `min` Z.of_nat (length vars)) 1) as [|Heff]; [done|].
  res_simpl.
  destruct (single_threaded d n bb aux vars [] []) as [[r x']|] eqn:Hs; [|done].
  intros [= <-]. apply single_threaded_spec in Hs as (vl & <- & Hall & -> & ->).
  simpl. apply (multi_threaded_intro e path det n bb aux f d); [lia|done..].
Qed.

Lemma extract_edges_fewer_threads e d path det n bb aux vars T f p :
  (∀ i, read_dimacs e i path = Some f) →
  create_backbone_detector f det = Some d → 1 ≤ T →
  extract_edges e d path det n bb aux vars T = Ok (inr p) →
  extract_edges e d path det n bb aux vars 1 = Ok (inr p).
Proof.
  intros Hf Hd HT. unfold extract_edges, effective_threads.
  destruct (decide (length vars = 0)%nat) as [->|Hne].
  { simpl. by rewrite !Z.min_r by lia. }
  rewrite (Z.min_l 1) by lia. simpl.
  destruct (Z.eqb_spec (T `min` Z.of_nat (length vars)) 1) as [|Heff]; [done|].
  destruct p as [req exc]. intros Hm.
  apply multi_threaded_inv in Hm as (vl & Hfst & Hall & -> & ->); [|lia].
  res_simpl.
  assert (Hs : single_threaded d n bb aux vars [] []
               = Ok (requires_from n bb aux vl, excludes_from n bb aux vl)).
  { apply single_threaded_spec. exists vl. split_and!; [done| |done..].
    eapply Forall_impl; [exact Hall|]. intros q (d' & (i & f' & Hf' & Hd') & Hq).
    rewrite Hf in Hf'. injection Hf' as <-. rewrite Hd in Hd'. by injection Hd' as <-. }
  by rewrite Hs.
Qed.

(** C5. Let every solver instance that the call loads from the file be the
    same solver (the instances [apis[t]] answer as the member [bone_api]
    does), and let [T > 1] be a worker count the machine allows. Then a
    call with one worker that returns is matched by the call with [T]
    workers: same result, same edges in both graphs, same files; and a call
    with [T] workers that got as far as its graphs is matched by the call
    with one worker. *)
Theorem worker_count_invariance e file out det T st :
  (∀ i, read_dimacs e i (dimacs_path_of file) = read_dimacs e 0 (dimacs_path_of file)) →
  1 < T ≤ max_threads e →
  (∀ r, generate_graphs e file out det 1 st = Ok r →
        generate_graphs e file out det T st = Ok r) ∧
  (∀ r g, generate_graphs e file out det T st = Ok r → graphs r = Some g →
          generate_graphs e file out det 1 st = Ok r).
Proof.
  intros Hsame HT. unfold generate_graphs, generate_graphs_impl.
  set (path := dimacs_path_of file) in *.
  destruct (read_dimacs e 0 path) as [f|] eqn:Hf; [|split; [done|by intros ?? [= <-]]].
  assert (Hall : ∀ i, read_dimacs e i path = Some f) by (intros i; by rewrite Hsame).
  destruct (create_backbone_detector f det) as [d|] eqn:Hd;
    [|split; [done|by intros ?? [= <-]]].
  cbn [num_variables set_num_variables num_clauses reset filter_auxiliary
       set_num_clauses set_global_backbone].
  destruct (read_clause_count e path 0) as [|clauses];
    [split; [done|by intros ?? [= <-]]|].
  res_simpl.
  destruct (new_vector (get_max_variable f + 1) false) as [aux0|]; [|done].
  destruct (if filter_auxiliary st then read_feature_names e path aux0 else Ok (inr aux0))
    as [[msg|aux]|]; [split; [done|by intros ?? [= <-]]| |done].
  destruct (to_indexed (get_max_variable f) (compute_backbone d)) as [bb|]; [|done].
  change (1 <? 1) with false. cbn iota.
  destruct (Z.ltb_spec T 1); [lia|].
  destruct (Z.ltb_spec (max_threads e) 1); [lia|].
  destruct (Z.ltb_spec (max_threads e) T); [lia|].
  set (vars := build_vars_to_process _ _ _).
  split.
  - intros r Hrun.
    destruct (extract_edges e d path det (get_max_variable f) bb aux vars 1)
      as [x|] eqn:Hx; [|done].
    by rewrite (extract_edges_more_threads _ _ _ _ _ _ _ _ T f x Hall Hd ltac:(lia) Hx).
  - intros r g Hrun Hg.
    destruct (extract_edges e d path det (get_max_variable f) bb aux vars T)
      as [[msg|p]|] eqn:Hx; [by injection Hrun as <-| |done].
    by rewrite (extract_edges_fewer_threads _ _ _ _ _ _ _ _ T f p Hall Hd ltac:(lia) Hx).
Qed.

(** ** The path handed to the loader *)

Lemma substr_from_0 s : substr_from 0 s = s.
Proof.
  unfold substr_from, size. rewrite Nat.sub_0_r.
  induction s as [|c s IH]; [done|]. simpl. by rewrite IH.
Qed.

Lemma substr_from_S c s k : substr_from (S k) (String c s) = substr_from k s.
Proof. done. Qed.

Lemma substr_from_append p t : substr_from (size p) (p +:+ t) = t.
Proof.
  induction p as [|c p IH].
  - apply substr_from_0.
  - change (substr_from (S (size p)) (String c (p +:+ t)) = t).
    by rewrite substr_from_S.
Qed.

Lemma substr_split s : ∀ k, (k ≤ size s)%nat → s = substr_to k s +:+ substr_from k s.
Proof.
  induction s as [|c s IH]; intros k Hk.
  - by destruct k.
  - destruct k as [|k].
    + by rewrite substr_from_0.
    + rewrite substr_from_S.
      change (String c s = String c (substr_to k s +:+ substr_from k s)).
      f_equal. apply IH. simpl in Hk. lia.
Qed.

Lemma size_append s t : size (s +:+ t) = (size s + size t)%nat.
Proof. induction s as [|c s IH]; [done|]. simpl. by rewrite IH. Qed.

(** [has_dimacs_suffix] holds exactly of the strings that end in
    [.dimacs]. *)
Lemma has_dimacs_suffix_spec s :
  has_dimacs_suffix s = true ↔ ∃ p, s = p +:+ ".dimacs".
Proof.
  unfold has_dimacs_suffix. rewrite andb_true_iff, Nat.leb_le, String.eqb_eq. split.
  - intros [Hlen Hsuf]. exists (substr_to (size s - 7) s).
    rewrite <- Hsuf. apply substr_split. lia.
  - intros [p ->]. rewrite size_append. simpl. split; [lia|].
    replace (size p + 7 - 7)%nat with (size p) by lia. apply substr_from_append.
Qed.

Lemma back_append s t : t ≠ EmptyString → back (s +:+ t) = back t.
Proof.
  intros Ht. induction s as [|c s IH]; [done|].
  simpl. rewrite IH. destruct (s +:+ t) eqn:E; [|done].
  destruct s; [by simpl in E|done].
Qed.

Lemma cnf_has_no_dimacs_suffix name : has_dimacs_suffix (name +:+ ".cnf") = false.
Proof.
  apply not_true_is_false. rewrite has_dimacs_suffix_spec. intros [p Hp].
  apply (f_equal back) in Hp. rewrite !back_append in Hp by done. done.
Qed.

(** C9, as amended. A path that does not end in [.dimacs] gets [.dimacs]
    appended, whatever else it ends in. So for an input file
    [<name>.cnf] the loader is given [<name>.cnf.dimacs] and never the file
    itself; the call fails with the load error whenever nothing can be
    loaded under that longer name, also when [<name>.cnf] is a well-formed
    file. *)
Theorem cnf_input_is_loaded_under_longer_name :
  (∀ file, (∀ p, file ≠ p +:+ ".dimacs") →
           dimacs_path_of file = file +:+ ".dimacs") ∧
  (∀ e name out det T st,
     dimacs_path_of (name +:+ ".cnf") = (name +:+ ".cnf") +:+ ".dimacs" ∧
     (read_dimacs e 0 ((name +:+ ".cnf") +:+ ".dimacs") = None →
      generate_graphs e (name +:+ ".cnf") out det T st =
        Ok {| ok := false;
              impl := set_error
                        ("Please check that " +:+ ((name +:+ ".cnf") +:+ ".dimacs") +:+
                         " conforms to the DIMACS CNF format and is accessible.")
                        (reset st);
              graphs := None; files := [] |})).
Proof.
  split.
  - intros file Hfile. unfold dimacs_path_of.
    destruct (has_dimacs_suffix file) eqn:Hs; [|done].
    apply has_dimacs_suffix_spec in Hs as [p ->]. by destruct (Hfile p).
  - intros e name out det T st.
    assert (Hpath : dimacs_path_of (name +:+ ".cnf") = (name +:+ ".cnf") +:+ ".dimacs")
      by (unfold dimacs_path_of; by rewrite cnf_has_no_dimacs_suffix).
    split; [done|]. intros Hnone.
    unfold generate_graphs, generate_graphs_impl. rewrite Hpath, Hnone. done.
Qed.

(** ** The state an earlier call left behind *)

Lemma reset_forgets st st' :
  filter_auxiliary st = filter_auxiliary st' → reset st = reset st'.
Proof. unfold reset. by intros ->. Qed.

(** C10. A call starts by resetting the variable count, the clause count,
    the global backbone and the error message, so nothing of the object's
    earlier state but the filter switch has any bearing on what the call
    returns and leaves behind: started from any two states with the same
    switch the call ends the same way. In particular, when the formula
    cannot be loaded the call returns [false] and the getters give [0], [0]
    and the empty backbone, whatever an earlier call had stored. *)
Theorem failed_call_keeps_nothing e file out det T st st' :
  filter_auxiliary st = filter_auxiliary st' →
  generate_graphs e file out det T st = generate_graphs e file out det T st' ∧
  (read_dimacs e 0 (dimacs_path_of file) = None →
   ∃ r, generate_graphs e file out det T st = Ok r ∧ ok r = false ∧
        get_num_variables (impl r) = 0 ∧ get_num_clauses (impl r) = 0 ∧
        get_global_backbone (impl r) = []).
Proof.
  intros Hfilter. split.
  - unfold generate_graphs, generate_graphs_impl. by rewrite (reset_forgets st st').
  - intros Hnone. unfold generate_graphs, generate_graphs_impl. rewrite Hnone.
    eexists. split; [done|]. done.
Qed.

(** ** Which variables are queried *)

(** The candidates are built before the global backbone is computed and
    do not depend on it: every variable that the table of auxiliary
    variables does not hold is a candidate. *)
Lemma candidates_ignore_backbone filtering n aux v :
  1 ≤ v ≤ n → is_aux aux v = false → v ∈ build_vars_to_process filtering n aux.
Proof. intros Hv Haux. apply elem_build_vars_to_process. by split. Qed.

(** In a run that built its graphs every variable outside the table of
    auxiliary variables was queried, the variables of the global backbone
    among them. *)
Lemma every_candidate_is_queried e file out det T st r g :
  generate_graphs e file out det T st = Ok r → graphs r = Some g →
  ∃ a, analysed e file det (filter_auxiliary st) T a g ∧
    ∀ v, 1 ≤ v ≤ get_max_variable (a_formula a) →
         is_aux (a_aux_vars a) v = false →
         ∃ line d, (v, line) ∈ a_queries a ∧
                   loaded e (dimacs_path_of file) det d ∧
                   backbone_line d (get_max_variable (a_formula a)) v = Ok line.
Proof.
  intros Hrun Hg.
  destruct (generate_graphs_inv _ _ _ _ _ _ _ _ Hrun Hg) as (a & Ha & _).
  exists a. split; [done|]. intros v Hv Haux.
  destruct Ha as (_ & _ & _ & _ & _ & Hvars & Hall & _).
  assert (Hin : v ∈ (a_queries a).*1)
    by (rewrite Hvars; by apply candidates_ignore_backbone).
  apply list_elem_of_fmap in Hin as ([v' line] & -> & Hin).
  rewrite Forall_forall in Hall. destruct (Hall _ Hin) as (d & Hd & Hline).
  by exists line, d.
Qed.

(** C4 (the code departs from the claim). The formula with the one clause
    [(a)] has [a] in its global backbone, and still [a] is a candidate and
    the query under the assumption [a] is issued: on a solver that throws on
    every query the call ends with the exception of the query for
    variable [1]. *)
Theorem backbone_variable_is_queried :
  compute_backbone Examples.tracing_detector = [1] ∧
  to_indexed 1 (compute_backbone Examples.tracing_detector) = Ok [0; 1] ∧
  build_vars_to_process false 1 [false; false] = [1] ∧
  generate_graphs Examples.tracing_env "m" EmptyString "one" 1 Impl_new
    = Abort (Exception "query under the assumptions 1").
Proof. split_and!; reflexivity. Qed.

(** ** The lines of names *)

(** For a name of one word the line of the core or dead list is the line of
    the vertex list: the number, a blank, the word in quotes. *)
Lemma single_word_lines_agree bb aux fs cs ds line v w :
  (size line =? 0)%nat = false → Ascii.eqb (first_char line) "c" = true →
  parse_comment line = Some (v, [w]) →
  0 ≤ v < Z.of_nat (length bb) → is_aux aux v = false →
  let l := [Num v; Txt (" " +:+ dquote); Txt w; Txt dquote; Endl] in
  name_line bb aux (fs, cs, ds) line =
    Ok (fs ++ l,
        (if 0 <? at_ bb v then cs ++ l else cs),
        (if 0 <? at_ bb v then ds else if at_ bb v <? 0 then ds ++ l else ds)).
Proof.
  intros Hsize Hc Hparse Hv Haux l. unfold name_line, is_aux_at.
  rewrite Hsize, Hc, Hparse. res_simpl.
  destruct (Z.ltb_spec v 0); [lia|]. rewrite Haux.
  destruct (Z.leb_spec (Z.of_nat (length bb)) v); [lia|].
  simpl. by rewrite <- app_assoc.
Qed.

(** C7 (the code departs from the claim). The core variable [1] with the
    name comment [c 1 Multi Word] gets the vertex line
    [1 "Multi" "Word"], each word in quotes of its own, and the core line
    [1 "Multi"1 "Word"], the number again before every word: neither is
    the number and the whole name, and the two are not the same. *)
Theorem core_line_repeats_index :
  ∃ r g, generate_graphs Examples.words_env "m" EmptyString "one" 1 Impl_new = Ok r ∧
    graphs r = Some g ∧
    core g = [Num 1; Txt (" " +:+ dquote); Txt "Multi"; Txt dquote;
              Num 1; Txt (" " +:+ dquote); Txt "Word"; Txt dquote; Endl] ∧
    str (core g) = "1 " +:+ dquote +:+ "Multi" +:+ dquote +:+
                   "1 " +:+ dquote +:+ "Word" +:+ dquote +:+ newline ∧
    take 8 (feat g) = [Num 1; Txt (" " +:+ dquote); Txt "Multi"; Txt dquote;
                       Txt (" " +:+ dquote); Txt "Word"; Txt dquote; Endl] ∧
    str (take 8 (feat g)) = "1 " +:+ dquote +:+ "Multi" +:+ dquote +:+
                            " " +:+ dquote +:+ "Word" +:+ dquote +:+ newline.
Proof.
  eexists _, _. split; [vm_compute; reflexivity|].
  split; [reflexivity|]. split_and!; reflexivity.
Qed.

(** ** Exit codes *)

Lemma parse_arguments_codes (n : nat) : ∀ args o code,
  (length args ≤ n)%nat →
  Strong4vm.parse_arguments args o = Ok (inl code) → code = 0 ∨ code = 1.
Proof.
  induction n as [|n IH]; intros args o code Hlen.
  - destruct args; [done|simpl in Hlen; lia].
  - destruct args as [|arg rest]; [done|]. simpl in Hlen.
    cbn [Strong4vm.parse_arguments].
    destruct (String.eqb arg "-h" || String.eqb arg "--help"); [intros [= <-]; by left|].
    destruct (String.eqb arg "-k" || String.eqb arg "--keep-dimacs");
      [apply IH; lia|].
    destruct (String.eqb arg "-e" || String.eqb arg "--enable-tseitin");
      [apply IH; lia|].
    destruct rest as [|next rest'].
    + destruct (negb _); [done|]. intros [= <-]. by right.
    + simpl in Hlen.
      destruct (String.eqb arg "-t" || String.eqb arg "--threads").
      { res_simpl. destruct (Strong4vm.atoi next) as [k|]; [|done].
        destruct (k <? 1); [intros [= <-]; by right|]. apply IH. lia. }
      destruct (String.eqb arg "-o" || String.eqb arg "--output"); [apply IH; lia|].
      destruct (negb _); [apply IH; simpl; lia|]. intros [= <-]. by right.
Qed.

(** [strong4vm] ends with the code 0 or the code 1 whenever it ends. *)
Lemma strong4vm_exit_codes c argv code :
  Strong4vm.main c argv = Ok code → code = 0 ∨ code = 1.
Proof.
  unfold Strong4vm.main.
  destruct (length argv <? 2)%nat; [intros [= <-]; by right|].
  res_simpl.
  destruct (Strong4vm.parse_arguments (tail argv) Strong4vm.defaults)
    as [[code'|o]|] eqn:Hparse; [|..|done].
  { intros [= <-]. by eapply parse_arguments_codes. }
  destruct (size (Strong4vm.input_file o) =? 0)%nat; [intros [= <-]; by right|].
  destruct (negb (path_exists _ _)); [intros [= <-]; by right|].
  destruct (Strong4vm.detect_file_type _); [..|intros [= <-]; by right];
    (destruct (if negb (path_exists _ _) then _ else None); [intros [= <-]; by right|]).
  - destruct (negb (Strong4vm.uvl_convert _ _ _ _)); [intros [= <-]; by right|].
    destruct (generate_graphs _ _ _ _ _ _) as [r|]; [|done].
    destruct (negb (ok r)); intros [= <-]; [by right|by left].
  - destruct (generate_graphs _ _ _ _ _ _) as [r|]; [|done].
    destruct (negb (ok r)); intros [= <-]; [by right|by left].
Qed.

(** C8 (the code departs from the claim). A graph generation that fails
    after the formula was loaded (here the worker count is fine and the file
    was read, but the solver instance for the first worker cannot be set up)
    makes [strong4vm] end with the code 1, the code of its usage errors;
    the sibling command line [dimacs2graphs] ends with the code 2 on the
    same failure. *)
Theorem analysis_error_exit_code :
  (∃ r, generate_graphs Examples.lonely_env "m.dimacs" "." "one" 2 Impl_new = Ok r ∧
        ok r = false ∧ get_num_variables (impl r) = 3 ∧
        get_error_message (impl r) = "Failed to load DIMACS for thread 0") ∧
  Strong4vm.main Examples.lonely_cli ["strong4vm"; "m.dimacs"; "-t"; "2"] = Ok 1 ∧
  Dimacs2graphs.main Examples.lonely_env ["dimacs2graphs"; "m"; "2"] = Ok 2.
Proof.
  split_and!; [|reflexivity..].
  eexists. split; [vm_compute; reflexivity|]. split_and!; reflexivity.
Qed.

(** ** The theorems at work on the examples *)

(** C1 as it stands fails: without the filter, which is off unless it is
    asked for, the auxiliary variable [3] of the example, named [aux_1], is
    the end of two requires edges and has a line in the vertex list. *)
Lemma unfiltered_outputs_mention_auxiliary :
  ∃ r g,
    generate_graphs Examples.aux_env "m" EmptyString "one" 1 Impl_new = Ok r ∧
    graphs r = Some g ∧ names_aux Examples.aux_lines 3 = true ∧
    (2, 3) ∈ requires g ∧ (3, 1) ∈ requires g ∧ 3 ∈ nums (feat g) ∧ mentions g 3.
Proof.
  eexists _, _. split; [vm_compute; reflexivity|]. split; [reflexivity|].
  split; [reflexivity|].
  assert (H3 : ∀ s : list Z, bool_decide (3 ∈ s) = true → 3 ∈ s)
    by (intros s; apply bool_decide_eq_true_1).
  assert (He : ∀ (x : edge) (s : list edge), bool_decide (x ∈ s) = true → x ∈ s)
    by (intros x s; apply bool_decide_eq_true_1).
  split_and!.
  - apply He. reflexivity.
  - apply He. reflexivity.
  - apply H3. reflexivity.
  - right. left. apply H3. reflexivity.
Qed.


Lemma worker_count_invariance_witness :
  ∃ r g,
    generate_graphs Examples.chain_env "m" EmptyString "one" 1 Impl_new = Ok r ∧
    generate_graphs Examples.chain_env "m" EmptyString "one" 3 Impl_new = Ok r ∧
    graphs r = Some g ∧ requires g = [(2, 1); (3, 1); (3, 2)] ∧ excludes g = [].
Proof.
  eassert (generate_graphs Examples.chain_env "m" EmptyString "one" 1 Impl_new = Ok _) as Hrun
    by (vm_compute; reflexivity).
  eexists _, _. split; [exact Hrun|]. split; [|split_and!; reflexivity].
  apply (worker_count_invariance Examples.chain_env "m" EmptyString "one" 3 Impl_new);
    [intros i; reflexivity|unfold max_threads; simpl; lia|exact Hrun].
Defined.

Lemma partition_contiguous_cover_witness :
  ∃ ranges,
    partition 5 (effective_threads 2 5) = Ok ranges ∧
    ranges = [(0, 0, 2); (1, 3, 4)] ∧
    concat (slice [10; 20; 30; 40; 50] <$> ranges) = [10; 20; 30; 40; 50].
Proof.
  destruct (partition_contiguous_cover [10; 20; 30; 40; 50] 2)
    as (_ & _ & ranges & Hp & _ & _ & _ & _ & Hc); [lia|done|].
  exists ranges. split; [exact Hp|]. split; [|exact Hc].
  simpl in Hp. vm_compute in Hp. by injection Hp as <-.
Defined.

Lemma cnf_input_is_loaded_under_longer_name_witness :
  is_Some (read_dimacs Examples.cnf_env 0 "m.cnf") ∧
  read_dimacs Examples.cnf_env 0 "m.cnf.dimacs" = None ∧
  generate_graphs Examples.cnf_env "m.cnf" EmptyString "one" 1 Impl_new =
    Ok {| ok := false;
          impl := set_error
                    "Please check that m.cnf.dimacs conforms to the DIMACS CNF format and is accessible."
                    Impl_new;
          graphs := None; files := [] |}.
Proof.
  split; [by eexists|]. split; [reflexivity|].
  destruct cnf_input_is_loaded_under_longer_name as [_ H].
  destruct (H Examples.cnf_env "m" EmptyString "one" 1 Impl_new) as [_ H'].
  apply H'. reflexivity.
Defined.

(** C9 as it stands fails: with a file [m.cnf.dimacs] beside [m.cnf] the
    call on [m.cnf] loads the former and succeeds. *)
Lemma cnf_input_with_sibling_succeeds :
  is_Some (read_dimacs Examples.cnf_twice_env 0 "m.cnf") ∧
  ∃ r, generate_graphs Examples.cnf_twice_env "m.cnf" EmptyString "one" 1 Impl_new = Ok r ∧
       ok r = true ∧ get_error_message (impl r) = EmptyString.
Proof.
  split; [by eexists|].
  eexists. split; [vm_compute; reflexivity|]. split; reflexivity.
Qed.

Lemma failed_call_keeps_nothing_witness :
  ∃ r1 r2,
    generate_graphs Examples.chain_env "m" EmptyString "one" 1 Impl_new = Ok r1 ∧
    ok r1 = true ∧ get_num_variables (impl r1) = 3 ∧ get_num_clauses (impl r1) = 2 ∧
    generate_graphs Examples.chain_env "missing" EmptyString "one" 1 (impl r1) = Ok r2 ∧
    generate_graphs Examples.chain_env "missing" EmptyString "one" 1 Impl_new = Ok r2 ∧
    ok r2 = false ∧
    get_num_variables (impl r2) = 0 ∧ get_num_clauses (impl r2) = 0 ∧
    get_global_backbone (impl r2) = [].
Proof.
  eassert (generate_graphs Examples.chain_env "m" EmptyString "one" 1 Impl_new = Ok _) as Hrun
    by (vm_compute; reflexivity).
  match type of Hrun with _ = Ok ?r => set (r1 := r) in * end.
  exists r1.
  destruct (failed_call_keeps_nothing Examples.chain_env "missing" EmptyString "one" 1
              (impl r1) Impl_new eq_refl) as [Heq Hzero].
  destruct (Hzero eq_refl) as (r2 & Hr2 & Hok & Hv & Hc & Hb).
  exists r2. split; [exact Hrun|].
  do 3 (split; [reflexivity|]). split; [exact Hr2|].
  split; [rewrite <- Heq; exact Hr2|]. by split_and!.
Defined.

(** ** The indexed array of a literal list *)

Lemma scatter_length lits : ∀ line line',
  scatter line lits = Ok line' → length line' = length line.
Proof.
  induction lits as [|lit lits IH]; intros line line'; simpl.
  - by intros [= <-].
  - destruct (_ <=? _); [done|]. intros H%IH. by rewrite length_insert in H.
Qed.

Lemma scatter_at lits : ∀ line line' i,
  scatter line lits = Ok line' → 0 ≤ i < Z.of_nat (length line) →
  at_ line' i = default (at_ line i) (last_literal lits i).
Proof.
  induction lits as [|lit lits IH]; intros line line' i; simpl.
  - by intros [= <-] _.
  - destruct (Z.leb_spec (Z.of_nat (length line)) (Z.abs lit)) as [|Hlen]; [done|].
    intros H Hi. rewrite (IH _ _ i H) by (rewrite length_insert; lia).
    unfold last_literal. rewrite filter_cons. unfold at_.
    destruct (decide (Z.abs lit = i)) as [Heq|Hne].
    + rewrite last_cons. destruct (last (filter _ lits)); simpl; [done|].
      rewrite Heq. apply list_lookup_total_insert_eq. lia.
    + destruct (last (filter _ lits)); simpl; [done|].
      apply list_lookup_total_insert_ne. lia.
Qed.

Lemma to_indexed_at n lits line i :
  to_indexed n lits = Ok line → 0 ≤ i ≤ n →
  at_ line i = default 0 (last_literal lits i).
Proof.
  unfold to_indexed, new_vector. res_simpl. destruct (n + 1 <? 0); [done|].
  intros H Hi. rewrite (scatter_at _ _ _ i H) by (rewrite length_replicate; lia).
  destruct (last_literal lits i); [done|]. simpl. unfold at_.
  rewrite list_lookup_total_alt, lookup_replicate_2 by lia. done.
Qed.

(** When the answer of the solver has no variable in both polarities, the
    indexed array holds [+w] at [w] exactly when the answer contains the
    positive literal [w], and [0] exactly when it contains neither. *)
Lemma indexed_positive n lits line w :
  to_indexed n lits = Ok line → 1 ≤ w ≤ n →
  (at_ line w = w → w ∈ lits) ∧
  (w ∈ lits → (- w) ∉ lits → at_ line w = w) ∧
  (at_ line w = 0 ↔ (w ∉ lits) ∧ ((- w) ∉ lits)).
Proof.
  intros H Hw. rewrite (to_indexed_at _ _ _ w H) by lia. unfold last_literal.
  assert (Hmem : ∀ l, l ∈ filter (fun l => Z.abs l = w) lits ↔
                      l ∈ lits ∧ (l = w ∨ l = - w)).
  { intros l. rewrite list_elem_of_filter. split; intros [? ?]; split; try done; lia. }
  destruct (last (filter _ lits)) as [l|] eqn:Hlast; simpl.
  - apply last_Some in Hlast as [pre Hpre].
    assert (Hl : l ∈ lits ∧ (l = w ∨ l = - w))
      by (apply Hmem; rewrite Hpre; apply elem_of_app; right; by left).
    destruct Hl as [Hin Hl]. split_and!.
    + by intros ->.
    + intros _ Hneg. destruct Hl as [-> | ->]; done.
    + split; [lia|]. intros [H1 H2]. destruct Hl as [-> | ->]; done.
  - apply last_None in Hlast.
    assert (Hno : ∀ l, l ∈ lits → l ≠ w ∧ l ≠ - w).
    { intros l Hin. split; intros ->.
      - assert (Hf : w ∈ filter (fun l => Z.abs l = w) lits) by (apply Hmem; auto).
        rewrite Hlast in Hf. by apply elem_of_nil in Hf.
      - assert (Hf : (- w) ∈ filter (fun l => Z.abs l = w) lits) by (apply Hmem; auto).
        rewrite Hlast in Hf. by apply elem_of_nil in Hf. }
    split_and!.
    + lia.
    + intros Hin. by destruct (Hno _ Hin).
    + split; [|done]. intros _. split; intros Hin; by destruct (Hno _ Hin).
Qed.

(** ** A worker that stops on an exception *)

Module WorkerProgress.
Import ThreadWorker.

Lemma run_over_progress idxs : ∀ w w',
  run_over w idxs = Ok w' →
  (success w' = true ∧ progress w' = progress w + Z.of_nat (length idxs)) ∨
  (success w' = false ∧ progress w ≤ progress w' < progress w + Z.of_nat (length idxs)).
Proof.
  induction idxs as [|idx idxs IH]; intros w w'; cbn [run_over].
  - intros [= <-]. left. simpl. split; [done|lia].
  - destruct (if idx <? 0 then None else _) as [v|]; [|done].
    unfold process_variable. res_simpl.
    destruct (backbone_line _ _ v) as [line|[]]; try done.
    + intros H%IH. simpl in H. cbn [length].
      destruct H as [[? ?]|[? ?]]; [left|right]; split; try done; lia.
    + intros [= <-]. right. cbn [length]. simpl. split; [done|lia].
Qed.

End WorkerProgress.

Lemma run_workers_progress ws : ∀ ws',
  run_workers ws = Ok ws' →
  Forall (fun w => ThreadWorker.progress w = 0) ws →
  sum_progress ws' ≤ foldr Z.add 0 (workload <$> ws) ∧
  (Exists (fun w => ThreadWorker.success w = false) ws' →
   sum_progress ws' < foldr Z.add 0 (workload <$> ws)).
Proof.
  induction ws as [|w ws IH]; intros ws'; cbn [run_workers].
  - intros [= <-] _. split; [done|]. intros H. by apply Exists_nil in H.
  - res_simpl. unfold ThreadWorker.run.
    destruct (ThreadWorker.run_over w _) as [w1|] eqn:Hw; [|done].
    destruct (run_workers ws) as [ws1|] eqn:Hws; [|done].
    intros [= <-] [H0 Hall]%Forall_cons.
    destruct (IH _ eq_refl Hall) as [Hle Hlt].
    apply WorkerProgress.run_over_progress in Hw. rewrite H0 in Hw.
    unfold sum_progress in *. cbn [fmap list_fmap foldr]. fold (workload w).
    unfold workload at 1 3.
    set (L := Z.of_nat (length (seqZ _ _))) in *.
    set (P := foldr Z.add 0 (ThreadWorker.progress <$> ws1)) in *.
    set (W := foldr Z.add 0 (workload <$> ws)) in *.
    split.
    + destruct Hw as [[_ ->]|[_ ?]]; lia.
    + intros [Hf|Hf]%Exists_cons.
      * destruct Hw as [[Hs _]|[_ ?]]; [congruence|lia].
      * specialize (Hlt Hf). destruct Hw as [[_ ->]|[_ ?]]; lia.
Qed.

Lemma length_concat_sum {A} (ls : list (list A)) :
  Z.of_nat (length (concat ls)) = foldr Z.add 0 ((fun l => Z.of_nat (length l)) <$> ls).
Proof.
  induction ls as [|l ls IH]; [done|].
  cbn [concat fmap list_fmap foldr]. rewrite length_app, Nat2Z.inj_add, IH. done.
Qed.

Lemma make_workers_fresh ranges apis bb aux vars n :
  Forall (fun w => ThreadWorker.progress w = 0) (make_workers ranges apis bb aux vars n).
Proof.
  rewrite make_workers_zip. apply Forall_fmap, Forall_forall.
  by intros [[[t s] e'] api] _.
Qed.

(** The ranges of a partition add up to the number of candidates. *)
Lemma sum_workload ranges apis bb aux (vars : list Z) n eff :
  1 ≤ eff →
  partition (Z.of_nat (length vars)) eff = Ok ranges →
  length apis = length ranges →
  foldr Z.add 0 (workload <$> make_workers ranges apis bb aux vars n)
  = Z.of_nat (length vars).
Proof.
  intros Heff Hpart Hlen.
  pose proof (partition_slices vars eff ranges Heff Hpart) as Hcat.
  pose proof (partition_in_bounds (Z.of_nat (length vars)) eff ranges Heff
                ltac:(lia) Hpart) as Hb.
  rewrite <- Hcat at 2. rewrite length_concat_sum, make_workers_zip.
  rewrite <- (fst_zip ranges apis) at 2 by lia.
  rewrite <- !list_fmap_compose. f_equal.
  apply Forall_fmap_ext_1.
  rewrite <- (fst_zip ranges apis) in Hb by lia. apply Forall_fmap in Hb.
  eapply Forall_impl; [exact Hb|]. intros [[[t s] e'] api]. simpl. intros (? & ? & ?).
  unfold workload. simpl. rewrite length_seqZ, length_take, length_drop. lia.
Qed.

(** In a call that got as far as running its workers, the counter of
    completed variables stays below the number of candidates as soon as one
    worker stopped on an exception. *)
Lemma failed_worker_stalls e path det n bb aux (vars : list Z) eff apis ranges ws :
  init_apis e path det (seqZ 0 eff) = inr apis →
  partition (Z.of_nat (length vars)) eff = Ok ranges →
  run_workers (make_workers ranges apis bb aux vars n) = Ok ws →
  Exists (fun w => ThreadWorker.success w = false) ws →
  sum_progress ws < Z.of_nat (length vars).
Proof.
  intros Hinit Hpart Hrun Hex.
  apply init_apis_inv in Hinit as [Hlen _]. rewrite length_seqZ in Hlen.
  pose proof (partition_length _ _ _ Hpart) as Hrl.
  destruct (run_workers_progress _ _ Hrun (make_workers_fresh _ _ _ _ _ _)) as [_ Hlt].
  specialize (Hlt Hex).
  destruct (Z.le_gt_cases 1 eff) as [Heff|Heff].
  - by rewrite (sum_workload ranges apis bb aux vars n eff) in Hlt by (done || lia).
  - destruct ranges; [|simpl in Hrl; lia].
    simpl in Hrun. injection Hrun as <-. by apply Exists_nil in Hex.
Qed.

(** X1. A worker catches the exception of a query and records it for the
    driver, but the driver waits until the counter of completed variables
    has reached the number of candidates before it looks at the workers: as
    soon as one worker has stopped on an exception the multi-threaded call
    never returns. *)
Theorem failed_worker_hangs_the_driver e path det n bb aux (vars : list Z) eff
    apis ranges ws :
  init_apis e path det (seqZ 0 eff) = inr apis →
  partition (Z.of_nat (length vars)) eff = Ok ranges →
  run_workers (make_workers ranges apis bb aux vars n) = Ok ws →
  Exists (fun w => ThreadWorker.success w = false) ws →
  multi_threaded e path det n bb aux vars (Z.of_nat (length vars)) eff = Abort Hang.
Proof.
  intros Hinit Hpart Hrun Hex.
  pose proof (failed_worker_stalls _ _ _ _ _ _ _ _ _ _ _ Hinit Hpart Hrun Hex) as Hlt.
  unfold multi_threaded. rewrite Hinit, Hpart. res_simpl. rewrite Hrun.
  fold (sum_progress ws). by apply Z.ltb_lt in Hlt as ->.
Qed.

Lemma failed_worker_hangs_the_driver_witness :
  ∃ ws,
    run_workers (make_workers [(0, 0, 0); (1, 1, 1)]
                   [Examples.moody_detector; Examples.moody_detector]
                   [0; 0; 0] [false; false; false] [1; 2] 2) = Ok ws ∧
    ThreadWorker.success <$> ws = [true; false] ∧
    ThreadWorker.error_msg <$> ws = [EmptyString; "Thread 1 exception: std::bad_alloc"] ∧
    multi_threaded Examples.moody_env "m.dimacs" "one" 2 [0; 0; 0] [false; false; false]
      [1; 2] 2 2 = Abort Hang ∧
    generate_graphs Examples.moody_env "m" EmptyString "one" 2 Impl_new = Abort Hang.
Proof.
  eassert (run_workers (make_workers [(0, 0, 0); (1, 1, 1)]
                   [Examples.moody_detector; Examples.moody_detector]
                   [0; 0; 0] [false; false; false] [1; 2] 2) = Ok _) as Hrun
    by (vm_compute; reflexivity).
  eexists. split; [exact Hrun|]. split; [reflexivity|]. split; [reflexivity|].
  split; [|vm_compute; reflexivity].
  eapply (failed_worker_hangs_the_driver Examples.moody_env "m.dimacs" "one" 2
            [0; 0; 0] [false; false; false] [1; 2] 2
            [Examples.moody_detector; Examples.moody_detector]
            [(0, 0, 0); (1, 1, 1)]);
    [reflexivity|reflexivity|exact Hrun|].
  apply Exists_cons_tl, Exists_cons_hd. reflexivity.
Defined.

(** The only failure that the multi-threaded branch reports is one of the
    set-up of a solver instance. *)
Lemma multi_threaded_error e path det n bb aux (vars : list Z) eff msg :
  multi_threaded e path det n bb aux vars (Z.of_nat (length vars)) eff = Ok (inl msg) →
  init_apis e path det (seqZ 0 eff) = inl msg.
Proof.
  unfold multi_threaded.
  destruct (init_apis e path det (seqZ 0 eff)) as [|apis] eqn:Hinit; [by intros [= ->]|].
  res_simpl.
  destruct (partition (Z.of_nat (length vars)) eff) as [ranges|] eqn:Hpart; [|done].
  destruct (run_workers (make_workers ranges apis bb aux vars n)) as [ws|] eqn:Hrun;
    [|done].
  destruct (_ <? _) eqn:Hlt; [done|]. apply Z.ltb_ge in Hlt.
  destruct (List.find _ ws) as [w|] eqn:Hfind; [|done]. intros _.
  apply find_some in Hfind as [Hin Hw]. apply negb_true_iff in Hw.
  assert (Hex : Exists (fun w => ThreadWorker.success w = false) ws).
  { apply Exists_exists. exists w. split; [by apply list_elem_of_In|done]. }
  pose proof (failed_worker_stalls _ _ _ _ _ _ _ _ _ _ _ Hinit Hpart Hrun Hex).
  fold (sum_progress ws) in Hlt. lia.
Qed.

Lemma init_apis_error e path det ts : ∀ msg,
  init_apis e path det ts = inl msg →
  ∃ t : Z, msg = "Failed to load DIMACS for thread " +:+ pretty t ∨
       msg = "Failed to create detector for thread " +:+ pretty t.
Proof.
  induction ts as [|t ts IH]; intros msg; simpl; [done|].
  destruct (read_dimacs _ _ _) as [f|]; [|intros [= <-]; exists t; by left].
  destruct (create_backbone_detector _ _) as [d|]; [|intros [= <-]; exists t; by right].
  destruct (init_apis e path det ts) as [msg'|]; [|done].
  intros [= <-]. by apply IH.
Qed.

(** ** The two channels of a result: the value and the message *)

Lemma read_clause_count_error e path old msg :
  read_clause_count e path old = inl msg → msg ≠ EmptyString.
Proof.
  unfold read_clause_count. destruct (file_lines e path) as [lines|].
  - destruct (List.find _ lines); [done|]. by intros [= <-].
  - by intros [= <-].
Qed.

Lemma read_feature_names_error e path aux msg :
  read_feature_names e path aux = Ok (inl msg) → msg ≠ EmptyString.
Proof.
  unfold read_feature_names. destruct (file_lines e path) as [lines|].
  - res_simpl. by destruct (mark_aux_lines aux lines).
  - by intros [= <-].
Qed.

Lemma extract_edges_error e d path det n bb aux vars T msg :
  extract_edges e d path det n bb aux vars T = Ok (inl msg) → msg ≠ EmptyString.
Proof.
  unfold extract_edges. destruct (_ =? 1).
  - res_simpl. by destruct (single_threaded _ _ _ _ _ _ _).
  - intros H%multi_threaded_error. apply init_apis_error in H as [t [-> | ->]]; done.
Qed.

Lemma write_files_error e todo : ∀ written msg written',
  write_files e todo written = (Some msg, written') → msg ≠ EmptyString.
Proof.
  induction todo as [|[path content] todo IH]; intros written msg written'; simpl; [done|].
  destruct (open_for_writing e path); [apply IH|]. by intros [= <- _].
Qed.

(** X2. A call that returns has an empty error message exactly when it
    returns [true]: every [return false] is preceded by an assignment of a
    non-empty text to [error_message], and nothing writes to it on the way
    to [return true] after the reset at the start. *)
Theorem success_iff_no_error_message e file out det T st r :
  generate_graphs e file out det T st = Ok r →
  (ok r = true ↔ get_error_message (impl r) = EmptyString).
Proof.
  unfold generate_graphs, generate_graphs_impl, get_error_message, failed. intros Hrun.
  set (path := dimacs_path_of file) in *.
  destruct (read_dimacs e 0 path) as [f|]; [|by injection Hrun as <-].
  destruct (create_backbone_detector f det) as [d|]; [|by injection Hrun as <-].
  cbn [num_variables set_num_variables num_clauses reset filter_auxiliary
       set_num_clauses set_global_backbone] in Hrun.
  destruct (read_clause_count e path 0) as [msg|clauses] eqn:Hc.
  { apply read_clause_count_error in Hc. by injection Hrun as <-. }
  res_simpl.
  destruct (new_vector (get_max_variable f + 1) false) as [aux0|]; [|done].
  destruct (if filter_auxiliary st then read_feature_names e path aux0 else Ok (inr aux0))
    as [[msg|aux]|] eqn:Hnames; [| |done].
  { destruct (filter_auxiliary st); [|done].
    apply read_feature_names_error in Hnames. by injection Hrun as <-. }
  destruct (to_indexed (get_max_variable f) (compute_backbone d)) as [bb|]; [|done].
  destruct (T <? 1); [by injection Hrun as <-|].
  destruct (max_threads e <? T); [by injection Hrun as <-|].
  destruct (extract_edges e d path det (get_max_variable f) bb aux _ T)
    as [[msg|[req exc]]|] eqn:Hedges; [| |done].
  { apply extract_edges_error in Hedges. by injection Hrun as <-. }
  destruct (name_lines bb aux ([], [], []) (default [] (file_lines e path)))
    as [[[fs cs] ds]|]; [|done].
  destruct (if _ && _ then _ else _); [by injection Hrun as <-|].
  destruct (write_files _ _ _) as [[msg|] written] eqn:Hw.
  - apply write_files_error in Hw. by injection Hrun as <-.
  - by injection Hrun as <-.
Qed.

(** ** A formula without variables *)

Lemma scatter_aborts lits : ∀ line e, scatter line lits = Abort e → e = UndefinedBehaviour.
Proof.
  induction lits as [|lit lits IH]; intros line e; simpl; [done|].
  destruct (_ <=? _); [by intros [= <-]|apply IH].
Qed.

Lemma mark_aux_lines_aborts lines : ∀ aux e,
  mark_aux_lines aux lines = Abort e → e = UndefinedBehaviour.
Proof.
  induction lines as [|l lines IH]; intros aux e; simpl; [done|]. res_simpl.
  destruct (mark_aux_line aux l) as [aux'|e'] eqn:Hl; [apply IH|].
  intros [= <-]. unfold mark_aux_line in Hl.
  destruct (size l =? 0)%nat; [done|]. destruct (Ascii.eqb _ _); [|done].
  destruct (parse_comment l) as [[v [|w ws]]|]; try done.
  destruct (has_aux_prefix _); [|done]. destruct (v <? 0); [|done]. by injection Hl as <-.
Qed.

(** X3. A formula without variables has no candidate, so the number of
    workers is capped at zero, the single-threaded branch is not taken, and
    the candidates are divided by zero workers: once such a file is loaded
    and its problem line found, every call with a valid number of threads
    has undefined behaviour. *)
Theorem no_variable_divides_by_zero e file out det T st f d clauses :
  read_dimacs e 0 (dimacs_path_of file) = Some f →
  create_backbone_detector f det = Some d →
  read_clause_count e (dimacs_path_of file) 0 = inr clauses →
  get_max_variable f = 0 →
  1 ≤ T ≤ max_threads e →
  generate_graphs e file out det T st = Abort UndefinedBehaviour.
Proof.
  intros Hf Hd Hc Hn HT. unfold generate_graphs, generate_graphs_impl.
  rewrite Hf, Hd.
  cbn [num_variables set_num_variables num_clauses reset filter_auxiliary
       set_num_clauses set_global_backbone].
  rewrite Hc, Hn. res_simpl. simpl new_vector. cbn iota.
  assert (Hnames : ∀ k : list bool → res Run,
    (∀ aux, k aux = Abort UndefinedBehaviour) →
    match (if filter_auxiliary st
           then read_feature_names e (dimacs_path_of file) [false]
           else Ok (inr [false])) with
    | Ok (inl msg) => failed msg
        (set_num_clauses clauses (set_num_variables 0 (reset st)))
    | Ok (inr aux) => k aux
    | Abort e => Abort e
    end = Abort UndefinedBehaviour).
  { intros k Hk. destruct (filter_auxiliary st); [|apply Hk].
    unfold read_feature_names, read_clause_count in *.
    destruct (file_lines e (dimacs_path_of file)) as [lines|]; [|done]. res_simpl.
    destruct (mark_aux_lines [false] lines) as [aux|e'] eqn:Hm; [apply Hk|].
    by apply mark_aux_lines_aborts in Hm as ->. }
  cbn [num_variables set_num_variables num_clauses reset filter_auxiliary
       set_num_clauses set_global_backbone] in *.
  apply Hnames. intros aux.
  assert (Hvars : build_vars_to_process (filter_auxiliary st) 0 aux = []).
  { unfold build_vars_to_process. by destruct (filter_auxiliary st). }
  rewrite Hvars. unfold to_indexed. res_simpl.
  change (new_vector (0 + 1) 0) with (Ok [0] : res (list Z)). cbn iota.
  destruct (scatter [0] (compute_backbone d)) as [bb|e'] eqn:Hs;
    [|by apply scatter_aborts in Hs as ->].
  destruct (Z.ltb_spec T 1); [lia|]. destruct (Z.ltb_spec (max_threads e) T); [lia|].
  unfold extract_edges, effective_threads. simpl length.
  replace (Z.min T (Z.of_nat 0)) with 0 by lia. simpl. done.
Qed.

Lemma no_variable_divides_by_zero_witness :
  read_clause_count Examples.empty_env "m.dimacs" 0 = inr 0 ∧
  generate_graphs Examples.empty_env "m" EmptyString "one" 1 Impl_new
    = Abort UndefinedBehaviour.
Proof.
  split; [reflexivity|].
  eapply (no_variable_divides_by_zero Examples.empty_env "m" EmptyString "one" 1 Impl_new
            (Reference.formula 0 []) (Reference.detector 0 []) 0);
    [reflexivity..|unfold max_threads; simpl; lia].
Defined.

(** ** The order and the ends of the edges *)

Lemma StronglySorted_seqZ m n : StronglySorted Z.lt (seqZ m n).
Proof.
  rewrite seqZ_to_nat. induction (Z.to_nat n) as [|k IH]; [constructor|].
  rewrite seqZ_S. apply StronglySorted_app_2; [|done|repeat constructor].
  intros x1 x2 H1%elem_of_seqZ H2%list_elem_of_singleton. lia.
Qed.

Lemma StronglySorted_filter {A} (R : relation A) (P : A → Prop)
    `{∀ x, Decision (P x)} (l : list A) :
  StronglySorted R l → StronglySorted R (filter P l).
Proof.
  induction 1 as [|a l Hl IH Ha]; [constructor|].
  rewrite filter_cons. destruct (decide (P a)); [|done].
  constructor; [done|]. rewrite Forall_forall in Ha. apply Forall_forall.
  intros x [_ Hx]%list_elem_of_filter. by apply Ha.
Qed.

Lemma build_vars_to_process_sorted filtering n aux :
  StronglySorted Z.lt (build_vars_to_process filtering n aux).
Proof.
  unfold build_vars_to_process. destruct filtering.
  - apply StronglySorted_filter, StronglySorted_seqZ.
  - apply StronglySorted_seqZ.
Qed.

Lemma requires_from_sorted n bb aux vl :
  StronglySorted Z.lt (vl.*1) → StronglySorted edge_lt (requires_from n bb aux vl).
Proof.
  induction vl as [|[v line] vl IH]; [constructor|].
  rewrite fmap_cons. intros [Hs Hv]%StronglySorted_inv.
  change (requires_from n bb aux ((v, line) :: vl))
    with (requires_edges n v line bb aux ++ requires_from n bb aux vl).
  apply StronglySorted_app_2; [| |by apply IH].
  - intros [x1 y1] [x2 y2] (-> & _)%elem_requires_edges (l2 & Hin & _)%elem_requires_from.
    left. simpl. rewrite Forall_forall in Hv. apply Hv.
    apply list_elem_of_fmap. by exists (x2, l2).
  - unfold requires_edges. apply StronglySorted_fmap with Z.lt.
    + intros x y Hxy. right. by split.
    + apply StronglySorted_filter, StronglySorted_seqZ.
Qed.

Lemma excludes_from_sorted n bb aux vl :
  StronglySorted Z.lt (vl.*1) → StronglySorted edge_lt (excludes_from n bb aux vl).
Proof.
  induction vl as [|[v line] vl IH]; [constructor|].
  rewrite fmap_cons. intros [Hs Hv]%StronglySorted_inv.
  change (excludes_from n bb aux ((v, line) :: vl))
    with (excludes_edges n v line bb aux ++ excludes_from n bb aux vl).
  apply StronglySorted_app_2; [| |by apply IH].
  - intros [x1 y1] [x2 y2] (-> & _)%elem_excludes_edges (l2 & Hin & _)%elem_excludes_from.
    left. simpl. rewrite Forall_forall in Hv. apply Hv.
    apply list_elem_of_fmap. by exists (x2, l2).
  - unfold excludes_edges. apply StronglySorted_fmap with Z.lt.
    + intros x y Hxy. right. by split.
    + apply StronglySorted_filter, StronglySorted_seqZ.
Qed.

(** X4. Both edge lists come out in ascending order, by source and then
    by target, whatever the number of workers: the candidates are taken in
    ascending order, each worker takes a range of them, the lists of the
    workers are joined in the order of the ranges, and the targets of one
    source are found by a loop that counts upwards. No line occurs
    twice. *)
Theorem edges_are_ascending e file out det T st r g :
  generate_graphs e file out det T st = Ok r → graphs r = Some g →
  StronglySorted edge_lt (requires g) ∧ StronglySorted edge_lt (excludes g).
Proof.
  intros Hrun Hg.
  destruct (generate_graphs_inv _ _ _ _ _ _ _ _ Hrun Hg) as (a & Ha & _).
  destruct Ha as (_ & _ & _ & _ & _ & Hvars & _ & -> & -> & _).
  pose proof (build_vars_to_process_sorted (filter_auxiliary st)
                (get_max_variable (a_formula a)) (a_aux_vars a)) as Hs.
  rewrite <- Hvars in Hs.
  split; [by apply requires_from_sorted|by apply excludes_from_sorted].
Qed.

Lemma to_indexed_length n lits line :
  to_indexed n lits = Ok line → 0 ≤ n + 1 ∧ length line = Z.to_nat (n + 1).
Proof.
  unfold to_indexed, new_vector. res_simpl.
  destruct (Z.ltb_spec (n + 1) 0) as [|Hn]; [done|].
  intros Hs%scatter_length. rewrite length_replicate in Hs. done.
Qed.

(** What the indexed array holds for a variable is a literal of the list on
    that variable. *)
Lemma to_indexed_elem n lits line i :
  to_indexed n lits = Ok line → 0 ≤ i ≤ n → at_ line i ≠ 0 →
  at_ line i ∈ lits ∧ Z.abs (at_ line i) = i.
Proof.
  intros H Hi. rewrite (to_indexed_at _ _ _ i H Hi). unfold last_literal.
  destruct (last (filter _ lits)) as [l|] eqn:Hlast; simpl; [|done]. intros _.
  apply last_Some in Hlast as [pre Hpre].
  assert (Hl : l ∈ filter (fun l => Z.abs l = i) lits)
    by (rewrite Hpre; apply elem_of_app; right; by left).
  by apply list_elem_of_filter in Hl as [? ?].
Qed.

(** X5. The ends of the edges. A requires edge joins two different
    variables of the formula and never points at a variable of the global
    backbone; an excludes edge runs from a variable to one that is not
    smaller, and the literal that the indexed backbone holds for either end
    is not the negative one: if the backbone lists a variable as dead, it
    lists it as core later on. *)
Theorem edge_ends e file out det T st r g :
  generate_graphs e file out det T st = Ok r → graphs r = Some g →
  let n := get_num_variables (impl r) in
  let B := get_global_backbone (impl r) in
  (∀ v w, (v, w) ∈ requires g →
     1 ≤ v ≤ n ∧ 1 ≤ w ≤ n ∧ v ≠ w ∧ (w ∉ B) ∧ ((- w) ∉ B)) ∧
  (∀ v w, (v, w) ∈ excludes g →
     1 ≤ v ∧ v ≤ w ∧ w ≤ n ∧
     last_literal B v ≠ Some (- v) ∧ last_literal B w ≠ Some (- w)).
Proof.
  intros Hrun Hg.
  destruct (generate_graphs_inv _ _ _ _ _ _ _ _ Hrun Hg) as (a & Ha & Hn & HB).
  unfold get_num_variables, get_global_backbone. rewrite Hn, HB. cbn zeta.
  destruct Ha as (_ & _ & _ & Hbb & _ & Hvars & _ & -> & -> & _).
  assert (Hcand : ∀ v line, (v, line) ∈ a_queries a →
                            1 ≤ v ≤ get_max_variable (a_formula a)).
  { intros v line Hin.
    assert (Hv : v ∈ (a_queries a).*1) by (apply list_elem_of_fmap; by exists (v, line)).
    rewrite Hvars in Hv. by apply elem_build_vars_to_process in Hv as [? _]. }
  split.
  - intros v w (line & Hin & He)%elem_requires_from.
    apply elem_requires_edges in He as (_ & Hw & Hne & _ & H0 & _).
    pose proof (Hcand _ _ Hin).
    destruct (indexed_positive _ _ _ w Hbb Hw) as (_ & _ & Hz).
    apply Hz in H0 as [? ?]. split_and!; try done; lia.
  - intros v w (line & Hin & He)%elem_excludes_from.
    apply elem_excludes_edges in He as (_ & Hw & _ & Hbw & Hbv & _).
    pose proof (Hcand _ _ Hin) as Hv.
    rewrite (to_indexed_at _ _ _ w Hbb) in Hbw by lia.
    rewrite (to_indexed_at _ _ _ v Hbb) in Hbv by lia.
    split_and!; try lia.
    + intros Hl. by rewrite Hl in Hbv.
    + intros Hl. by rewrite Hl in Hbw.
Qed.

(** ** The files on the disk after a call *)

Lemma write_files_prefix e todo : ∀ written res written',
  write_files e todo written = (res, written') →
  ∃ k : nat,
    written' = written ++ take k (rendered <$> todo) ∧
    Forall (fun pc => open_for_writing e pc.1 = true) (take k todo) ∧
    match res with
    | None => k = length todo
    | Some msg =>
        ∃ pc, todo !! k = Some pc ∧ open_for_writing e pc.1 = false ∧
              msg = "Could not create output file: " +:+ pc.1
    end.
Proof.
  induction todo as [|[path content] todo IH]; intros written res written'; simpl.
  - intros [= <- <-]. exists 0%nat. by rewrite app_nil_r.
  - destruct (open_for_writing e path) eqn:Hopen.
    + intros (k & -> & Hall & Hres)%IH. exists (S k). split_and!.
      * by rewrite <- app_assoc.
      * simpl. by constructor.
      * destruct res; [done|]. by rewrite Hres.
    + intros [= <- <-]. exists 0%nat. rewrite app_nil_r. split_and!; [done..|].
      by exists (path, content).
Qed.

(** X6. The four files are opened and written one after the other, in the
    order core, dead, requires, excludes, and nothing is undone: a call that
    built its graphs leaves the first [k] of them on the disk, with all four
    exactly when it returns [true]; when it returns [false] either the
    output folder could not be created and no file was written, or the file
    after the [k] written ones could not be opened and the message names
    it. A call that did not get as far as the graphs writes nothing. *)
Theorem files_are_written_in_order e file out det T st r :
  generate_graphs e file out det T st = Ok r →
  match graphs r with
  | None => ok r = false ∧ files r = []
  | Some g =>
      let dir := output_dir_of file out in
      let todo := output_files (dir +:+ "/" +:+ get_basename file)
                    (get_num_variables (impl r)) g in
      ∃ k : nat,
        files r = take k (rendered <$> todo) ∧
        Forall (fun pc => open_for_writing e pc.1 = true) (take k todo) ∧
        (ok r = true ↔ k = 4%nat) ∧
        (ok r = false →
         (k = 0%nat ∧ path_exists e dir = false ∧
          ∃ what, create_directories e dir = Some what ∧
            get_error_message (impl r) =
              "Could not create output directory: " +:+ dir +:+ " - " +:+ what) ∨
         (∃ pc, todo !! k = Some pc ∧ open_for_writing e pc.1 = false ∧
            get_error_message (impl r) = "Could not create output file: " +:+ pc.1))
  end.
Proof.
  unfold generate_graphs, generate_graphs_impl, failed. intros Hrun.
  fold (output_dir_of file out) in Hrun.
  set (dir := output_dir_of file out) in *.
  set (path := dimacs_path_of file) in *.
  destruct (read_dimacs e 0 path) as [f|]; [|by injection Hrun as <-].
  destruct (create_backbone_detector f det) as [d|]; [|by injection Hrun as <-].
  cbn [num_variables set_num_variables num_clauses reset filter_auxiliary
       set_num_clauses set_global_backbone] in Hrun.
  destruct (read_clause_count e path 0) as [msg|clauses]; [by injection Hrun as <-|].
  res_simpl.
  destruct (new_vector (get_max_variable f + 1) false) as [aux0|]; [|done].
  destruct (if filter_auxiliary st then read_feature_names e path aux0 else Ok (inr aux0))
    as [[msg|aux]|]; [by injection Hrun as <-| |done].
  destruct (to_indexed (get_max_variable f) (compute_backbone d)) as [bb|]; [|done].
  destruct (T <? 1); [by injection Hrun as <-|].
  destruct (max_threads e <? T); [by injection Hrun as <-|].
  destruct (extract_edges e d path det (get_max_variable f) bb aux _ T)
    as [[msg|[req exc]]|]; [by injection Hrun as <-| |done].
  destruct (name_lines bb aux ([], [], []) (default [] (file_lines e path)))
    as [[[fs cs] ds]|]; [|done].
  destruct (negb (size dir =? 0)%nat && negb (path_exists e dir)) eqn:Hdir.
  - destruct (create_directories e dir) as [what|] eqn:Hmk.
    + injection Hrun as <-. cbn [graphs files ok impl]. exists 0%nat.
      apply andb_true_iff in Hdir as [_ Hex%negb_true_iff].
      split_and!; [done|constructor|done|]. intros _. left. split_and!; [done..|].
      by exists what.
    + destruct (write_files _ _ _) as [[msg|] written] eqn:Hw;
        apply write_files_prefix in Hw as (k & -> & Hall & Hres);
        injection Hrun as <-; cbn [graphs files ok impl]; exists k.
      * destruct Hres as (pc & Hk & Hopen & ->).
        split_and!; [done|done| |intros _; right; by exists pc].
        split; [done|]. intros ->. done.
      * split_and!; [done|done|by rewrite Hres|done].
  - destruct (write_files _ _ _) as [[msg|] written] eqn:Hw;
      apply write_files_prefix in Hw as (k & -> & Hall & Hres);
      injection Hrun as <-; cbn [graphs files ok impl]; exists k.
    + destruct Hres as (pc & Hk & Hopen & ->).
      split_and!; [done|done| |intros _; right; by exists pc].
      split; [done|]. intros ->. done.
    + split_and!; [done|done|by rewrite Hres|done].
Qed.

(** ** The lists of core and dead features *)

Lemma all_nums_impl (P Q : Z → Prop) s :
  (∀ z, P z → Q z) → all_nums P s → all_nums Q s.
Proof. intros HPQ H z Hz. by apply HPQ, H. Qed.

Lemma nums_app s1 s2 : nums (s1 ++ s2) = nums s1 ++ nums s2.
Proof. unfold nums. by rewrite omap_app. Qed.

Lemma name_line_listed bb aux s line s' :
  listed bb s → name_line bb aux s line = Ok s' → listed bb s'.
Proof.
  destruct s as [[fs cs] ds]. intros [Hc Hd]. unfold name_line, is_aux_at. simpl in *.
  destruct (size line =? 0)%nat; [by intros [= <-]|].
  destruct (Ascii.eqb _ _); [|by intros [= <-]].
  destruct (parse_comment line) as [[v ws]|]; [|by intros [= <-]].
  res_simpl. destruct (Z.ltb_spec v 0) as [|Hv0]; [done|].
  destruct (is_aux aux v); [by intros [= <-]|].
  assert (Hmono : ∀ (P : Z → Prop) t (x : stream),
            all_nums (fun z => P z ∧ z ∈ nums fs) x →
            all_nums (fun z => P z ∧ z ∈ nums (fs ++ [Num v] ++ t)) x).
  { intros P t x. apply all_nums_impl. intros z [? ?]. split; [done|].
    rewrite nums_app. apply elem_of_app. by left. }
  assert (Hv : ∀ t, v ∈ nums (fs ++ [Num v] ++ t)).
  { intros t. rewrite nums_app. apply elem_of_app. right. simpl. by left. }
  destruct ws as [|w ws].
  { intros [= <-]. unfold listed. split; simpl.
    - specialize (Hmono (fun z => 0 ≤ z < Z.of_nat (length bb) ∧ 0 < at_ bb z) [] cs).
      simpl in Hmono. eapply all_nums_impl; [|apply Hmono].
      + by intros z [[? ?] ?].
      + eapply all_nums_impl; [|exact Hc]. by intros z (? & ? & ?).
    - specialize (Hmono (fun z => 0 ≤ z < Z.of_nat (length bb) ∧ at_ bb z < 0) [] ds).
      simpl in Hmono. eapply all_nums_impl; [|apply Hmono].
      + by intros z [[? ?] ?].
      + eapply all_nums_impl; [|exact Hd]. by intros z (? & ? & ?). }
  remember (w :: ws) as wl eqn:Hwl. clear Hwl.
  destruct (Z.leb_spec (Z.of_nat (length bb)) v) as [|Hlen]; [done|].
  intros [= <-].
  set (t := concat (quoted <$> wl) ++ [Endl]).
  rewrite <- (app_assoc fs [Num v] t). unfold listed. cbn [fst snd].
  assert (Hc' : all_nums (fun z => 0 ≤ z < Z.of_nat (length bb) ∧ 0 < at_ bb z ∧
                                   z ∈ nums (fs ++ [Num v] ++ t)) cs).
  { eapply all_nums_impl;
      [|apply (Hmono (fun z => 0 ≤ z < Z.of_nat (length bb) ∧ 0 < at_ bb z) t cs)].
    - by intros z [[? ?] ?].
    - eapply all_nums_impl; [|exact Hc]. by intros z (? & ? & ?). }
  assert (Hd' : all_nums (fun z => 0 ≤ z < Z.of_nat (length bb) ∧ at_ bb z < 0 ∧
                                   z ∈ nums (fs ++ [Num v] ++ t)) ds).
  { eapply all_nums_impl;
      [|apply (Hmono (fun z => 0 ≤ z < Z.of_nat (length bb) ∧ at_ bb z < 0) t ds)].
    - by intros z [[? ?] ?].
    - eapply all_nums_impl; [|exact Hd]. by intros z (? & ? & ?). }
  split.
  - destruct (Z.ltb_spec 0 (at_ bb v)); [|done].
    apply all_nums_app; [done|]. apply all_nums_app; [|by apply all_nums_endl, all_nums_nil].
    apply all_nums_per_word. split_and!; [lia|lia|done|apply Hv].
  - destruct (Z.ltb_spec 0 (at_ bb v)); [done|].
    destruct (Z.ltb_spec (at_ bb v) 0); [|done].
    apply all_nums_app; [done|]. apply all_nums_app; [|by apply all_nums_endl, all_nums_nil].
    apply all_nums_per_word. split_and!; [lia|lia|done|apply Hv].
Qed.

Lemma name_lines_listed bb aux lines : ∀ s s',
  listed bb s → name_lines bb aux s lines = Ok s' → listed bb s'.
Proof.
  induction lines as [|l lines IH]; intros s s' Hs; simpl.
  - by intros [= <-].
  - res_simpl. destruct (name_line bb aux s l) as [s1|] eqn:Hl; [|done].
    apply IH. by eapply name_line_listed.
Qed.

(** X7. The lists of core and dead features. Every number in the core
    list is a variable of the formula whose positive literal is in the
    global backbone, every number in the dead list one whose negative literal
    is; all of them have a line in the vertex list, and no variable is in
    both lists. *)
Theorem core_and_dead_lists e file out det T st r g :
  generate_graphs e file out det T st = Ok r → graphs r = Some g →
  let n := get_num_variables (impl r) in
  let B := get_global_backbone (impl r) in
  (∀ z, z ∈ nums (core g) → 1 ≤ z ≤ n ∧ z ∈ B ∧ z ∈ nums (feat g)) ∧
  (∀ z, z ∈ nums (dead g) → 1 ≤ z ≤ n ∧ (- z) ∈ B ∧ z ∈ nums (feat g)) ∧
  (∀ z, z ∈ nums (core g) → z ∉ nums (dead g)).
Proof.
  intros Hrun Hg.
  destruct (generate_graphs_inv _ _ _ _ _ _ _ _ Hrun Hg) as (a & Ha & Hn & HB).
  unfold get_num_variables, get_global_backbone. rewrite Hn, HB. cbn zeta.
  destruct Ha as (_ & _ & _ & Hbb & _ & _ & _ & _ & _ & Hnames).
  apply name_lines_listed in Hnames as [Hc Hd];
    [|split; intros z Hz; by apply elem_of_nil in Hz].
  destruct (to_indexed_length _ _ _ Hbb) as [Hn1 Hlen]. cbn [fst snd] in *.
  split_and!.
  - intros z Hz. destruct (Hc z Hz) as (Hr & Hpos & Hf).
    destruct (to_indexed_elem _ _ _ z Hbb) as [Hin Habs]; [lia..|].
    assert (at_ (a_bb a) z = z) as Heq by lia. rewrite Heq in Hin.
    split_and!; try done; lia.
  - intros z Hz. destruct (Hd z Hz) as (Hr & Hneg & Hf).
    destruct (to_indexed_elem _ _ _ z Hbb) as [Hin Habs]; [lia..|].
    assert (at_ (a_bb a) z = - z) as Heq by lia. rewrite Heq in Hin.
    split_and!; try done; lia.
  - intros z Hz Hz'. destruct (Hc z Hz) as (_ & Hpos & _).
    destruct (Hd z Hz') as (_ & Hneg & _). lia.
Qed.

(** ** Comments that start with a number *)

Lemma name_lines_each bb aux lines : ∀ s s' line,
  name_lines bb aux s lines = Ok s' → line ∈ lines →
  ∃ s1 s2, name_line bb aux s1 line = Ok s2.
Proof.
  induction lines as [|l lines IH]; intros s s' line; simpl.
  - intros _ Hin. by apply elem_of_nil in Hin.
  - res_simpl. destruct (name_line bb aux s l) as [s1|] eqn:Hl; [|done].
    intros Hrest [-> | Hin]%elem_of_cons; [by exists s, s1|]. by eapply IH.
Qed.

(** X8. The comments of a DIMACS file are free text, but a comment whose
    first word after the [c] reads as a number is taken for the name of that
    variable and the number for an index. A call builds its graphs only if
    every such number is not negative and, when words follow it, not above
    the number of variables (unless the filter is on and the words name an
    auxiliary variable): with any other numbered comment in the file the
    call reads or writes outside its arrays. *)
Theorem numbered_comments_are_in_range e file out det T st r g lines :
  generate_graphs e file out det T st = Ok r → graphs r = Some g →
  file_lines e (dimacs_path_of file) = Some lines →
  ∀ line v ws,
    line ∈ lines → Ascii.eqb (first_char line) "c" = true →
    parse_comment line = Some (v, ws) →
    0 ≤ v ∧
    (ws ≠ [] → (filter_auxiliary st = true → names_aux lines v = false) →
     v ≤ get_num_variables (impl r)).
Proof.
  intros Hrun Hg Hlines line v ws Hin Hc Hparse.
  destruct (generate_graphs_inv _ _ _ _ _ _ _ _ Hrun Hg) as (a & Ha & Hn & _).
  unfold get_num_variables. rewrite Hn.
  destruct Ha as (_ & _ & Haux & Hbb & _ & _ & _ & _ & _ & Hnames).
  rewrite Hlines in Hnames. simpl in Hnames.
  destruct (name_lines_each _ _ _ _ _ _ Hnames Hin) as ([[fs cs] ds] & s2 & Hline).
  unfold name_line, is_aux_at in Hline. rewrite Hc, Hparse in Hline.
  assert (Hsize : (size line =? 0)%nat = false).
  { destruct line; [done|done]. }
  rewrite Hsize in Hline. res_simpl.
  destruct (Z.ltb_spec v 0) as [|Hv0]; [done|]. split; [done|].
  intros Hws Hnot.
  assert (Hna : is_aux (a_aux_vars a) v = false).
  { destruct Haux as (aux0 & Haux0 & Htab).
    unfold new_vector in Haux0. destruct (_ <? 0); [done|]. injection Haux0 as <-.
    destruct (filter_auxiliary st).
    - destruct Htab as (lines' & Hl' & Hm). rewrite Hlines in Hl'. injection Hl' as <-.
      rewrite (mark_aux_lines_spec _ _ _ v Hm Hv0), is_aux_replicate by done.
      simpl. by apply Hnot.
    - rewrite Htab. by apply is_aux_replicate. }
  rewrite Hna in Hline. destruct ws as [|w ws]; [done|].
  destruct (Z.leb_spec (Z.of_nat (length (a_bb a))) v) as [|Hlen]; [done|].
  destruct (to_indexed_length _ _ _ Hbb) as [Hn1 Hl]. lia.
Qed.

(** ** These properties at work on the examples *)

Lemma success_iff_no_error_message_witness :
  ∃ r, generate_graphs Examples.lonely_env "m.dimacs" "." "one" 2 Impl_new = Ok r ∧
       get_error_message (impl r) = "Failed to load DIMACS for thread 0" ∧
       (ok r = true ↔ get_error_message (impl r) = EmptyString).
Proof.
  eassert (generate_graphs Examples.lonely_env "m.dimacs" "." "one" 2 Impl_new = Ok _)
    as Hrun by (vm_compute; reflexivity).
  eexists. split; [exact Hrun|]. split; [reflexivity|].
  exact (success_iff_no_error_message Examples.lonely_env "m.dimacs" "." "one" 2
           Impl_new _ Hrun).
Defined.

Lemma edges_are_ascending_witness :
  ∃ r g,
    generate_graphs Examples.chain_env "m" EmptyString "one" 3 Impl_new = Ok r ∧
    graphs r = Some g ∧ requires g = [(2, 1); (3, 1); (3, 2)] ∧
    StronglySorted edge_lt (requires g) ∧ StronglySorted edge_lt (excludes g).
Proof.
  eassert (generate_graphs Examples.chain_env "m" EmptyString "one" 3 Impl_new = Ok _)
    as Hrun by (vm_compute; reflexivity).
  eexists _, _. split; [exact Hrun|]. split; [reflexivity|]. split; [reflexivity|].
  exact (edges_are_ascending Examples.chain_env "m" EmptyString "one" 3 Impl_new
           _ _ Hrun eq_refl).
Defined.

Lemma edge_ends_witness :
  ∃ r g,
    generate_graphs Examples.mutex_env "m" EmptyString "one" 2 Impl_new = Ok r ∧
    graphs r = Some g ∧ excludes g = [(1, 2)] ∧
    (∀ v w, (v, w) ∈ requires g →
       1 ≤ v ≤ 3 ∧ 1 ≤ w ≤ 3 ∧ v ≠ w ∧ (w ∉ @nil Z) ∧ ((- w) ∉ @nil Z)) ∧
    (∀ v w, (v, w) ∈ excludes g →
       1 ≤ v ∧ v ≤ w ∧ w ≤ 3 ∧
       last_literal [] v ≠ Some (- v) ∧ last_literal [] w ≠ Some (- w)).
Proof.
  eassert (generate_graphs Examples.mutex_env "m" EmptyString "one" 2 Impl_new = Ok _)
    as Hrun by (vm_compute; reflexivity).
  eexists _, _. split; [exact Hrun|]. split; [reflexivity|]. split; [reflexivity|].
  exact (edge_ends Examples.mutex_env "m" EmptyString "one" 2 Impl_new _ _ Hrun eq_refl).
Defined.

Lemma files_are_written_in_order_witness :
  ∃ r g,
    generate_graphs Examples.full_disk_env "m" EmptyString "one" 1 Impl_new = Ok r ∧
    graphs r = Some g ∧ ok r = false ∧
    get_error_message (impl r) = "Could not create output file: ./m__requires.net" ∧
    (files r).*1 = ["./m__core.txt"; "./m__dead.txt"] ∧
    ∃ k : nat, files r = take k (rendered <$> output_files "./m" 3 g).
Proof.
  eassert (generate_graphs Examples.full_disk_env "m" EmptyString "one" 1 Impl_new = Ok _)
    as Hrun by (vm_compute; reflexivity).
  eexists _, _. split; [exact Hrun|]. do 4 (split; [reflexivity|]).
  destruct (files_are_written_in_order Examples.full_disk_env "m" EmptyString "one" 1
              Impl_new _ Hrun) as (k & Hk & _).
  exists k. exact Hk.
Defined.

Lemma core_and_dead_lists_witness :
  ∃ r g,
    generate_graphs Examples.words_env "m" EmptyString "one" 1 Impl_new = Ok r ∧
    graphs r = Some g ∧
    get_global_backbone (impl r) = [1; -2] ∧
    nums (core g) = [1; 1] ∧ nums (dead g) = [2] ∧
    (∀ z, z ∈ nums (core g) → 1 ≤ z ≤ 2 ∧ z ∈ [1; -2] ∧ z ∈ nums (feat g)) ∧
    (∀ z, z ∈ nums (dead g) → 1 ≤ z ≤ 2 ∧ (- z) ∈ [1; -2] ∧ z ∈ nums (feat g)) ∧
    (∀ z, z ∈ nums (core g) → z ∉ nums (dead g)).
Proof.
  eassert (generate_graphs Examples.words_env "m" EmptyString "one" 1 Impl_new = Ok _)
    as Hrun by (vm_compute; reflexivity).
  eexists _, _. split; [exact Hrun|]. do 4 (split; [reflexivity|]).
  exact (core_and_dead_lists Examples.words_env "m" EmptyString "one" 1 Impl_new
           _ _ Hrun eq_refl).
Defined.

Lemma numbered_comments_are_in_range_witness :
  ∃ r g,
    generate_graphs Examples.chain_env "m" EmptyString "one" 1 Impl_new = Ok r ∧
    graphs r = Some g ∧
    parse_comment "c 3 c" = Some (3, ["c"]) ∧
    0 ≤ 3 ∧
    (["c"] ≠ @nil string → (false = true → names_aux Examples.chain_lines 3 = false) →
     3 ≤ get_num_variables (impl r)).
Proof.
  eassert (generate_graphs Examples.chain_env "m" EmptyString "one" 1 Impl_new = Ok _)
    as Hrun by (vm_compute; reflexivity).
  eexists _, _. split; [exact Hrun|]. do 2 (split; [reflexivity|]).
  eapply (numbered_comments_are_in_range Examples.chain_env "m" EmptyString "one" 1
            Impl_new _ _ Examples.chain_lines Hrun eq_refl eq_refl "c 3 c" 3 ["c"]);
    [|reflexivity|reflexivity].
  unfold Examples.chain_lines. do 2 right. left.
Defined.

(** ** The paths of the input and of the outputs *)

Lemma append_assoc (s1 s2 s3 : string) : (s1 +:+ s2) +:+ s3 = s1 +:+ (s2 +:+ s3).
Proof.
  induction s1 as [|c s1 IH]; [done|].
  change (String c ((s1 +:+ s2) +:+ s3) = String c (s1 +:+ (s2 +:+ s3))). by f_equal.
Qed.

Lemma append_nil_r (s : string) : s +:+ EmptyString = s.
Proof.
  induction s as [|c s IH]; [done|].
  change (String c (s +:+ EmptyString) = String c s). by f_equal.
Qed.

Lemma substr_to_append p t : substr_to (size p) (p +:+ t) = p.
Proof.
  unfold substr_to. induction p as [|c p IH]; [by destruct t|].
  change (String c p +:+ t) with (String c (p +:+ t)). simpl. by rewrite IH.
Qed.

Lemma substr_from_append_l s t : ∀ k,
  (k ≤ size s)%nat → substr_from k (s +:+ t) = substr_from k s +:+ t.
Proof.
  induction s as [|c s IH]; intros k Hk.
  - destruct k; [|simpl in Hk; lia]. by rewrite !substr_from_0.
  - destruct k as [|k]; [by rewrite !substr_from_0|].
    change (substr_from (S k) (String c (s +:+ t)) = substr_from (S k) (String c s) +:+ t).
    rewrite !substr_from_S. apply IH. simpl in Hk. lia.
Qed.

Lemma find_last_slash_from_bounds s : ∀ i j,
  find_last_slash_from i s = Some j → (i ≤ j < i + size s)%nat.
Proof.
  induction s as [|c s IH]; intros i j; simpl; [done|].
  destruct (find_last_slash_from (S i) s) as [j'|] eqn:Hrec.
  - intros [= <-]. apply IH in Hrec. lia.
  - destruct (_ || _); [|done]. intros [= <-]. lia.
Qed.

Lemma find_last_slash_from_append s t : ∀ i,
  find_last_slash_from i (s +:+ t) =
    match find_last_slash_from (i + size s) t with
    | Some j => Some j
    | None => find_last_slash_from i s
    end.
Proof.
  induction s as [|c s IH]; intros i.
  - change (EmptyString +:+ t) with t. simpl. rewrite Nat.add_0_r.
    by destruct (find_last_slash_from i t).
  - change (String c s +:+ t) with (String c (s +:+ t)). simpl. rewrite IH.
    replace (S i + size s)%nat with (i + S (size s))%nat by lia.
    by destruct (find_last_slash_from (i + S (size s)) t).
Qed.

Lemma find_last_slash_dimacs s :
  find_last_slash (s +:+ ".dimacs") = find_last_slash s.
Proof. unfold find_last_slash. by rewrite find_last_slash_from_append. Qed.

Lemma has_dimacs_suffix_append p s :
  has_dimacs_suffix s = true → has_dimacs_suffix (p +:+ s) = true.
Proof.
  rewrite !has_dimacs_suffix_spec. intros [q ->]. exists (p +:+ q).
  by rewrite append_assoc.
Qed.

Lemma get_basename_dimacs file :
  has_dimacs_suffix file = false → get_basename (file +:+ ".dimacs") = get_basename file.
Proof.
  intros Hno. unfold get_basename. rewrite find_last_slash_dimacs.
  assert (Hstrip : ∀ fn, has_dimacs_suffix fn = false →
    (if has_dimacs_suffix (fn +:+ ".dimacs")
     then substr_to (size (fn +:+ ".dimacs") - 7) (fn +:+ ".dimacs")
     else fn +:+ ".dimacs") = (if has_dimacs_suffix fn then substr_to (size fn - 7) fn else fn)).
  { intros fn ->.
    assert (has_dimacs_suffix (fn +:+ ".dimacs") = true) as ->
      by (apply has_dimacs_suffix_spec; by exists fn).
    rewrite size_append. replace (size fn + size ".dimacs" - 7)%nat with (size fn) by (simpl; lia).
    apply substr_to_append. }
  destruct (find_last_slash file) as [i|] eqn:Hi; [|by apply Hstrip].
  apply find_last_slash_from_bounds in Hi.
  rewrite substr_from_append_l by lia. apply Hstrip.
  apply not_true_is_false. intros Hs.
  apply (has_dimacs_suffix_append (substr_to (S i) file)) in Hs.
  rewrite <- (substr_split file (S i)) in Hs by lia. congruence.
Qed.

(** X9. The extension [.dimacs] of the input path may be given or left
    out: for a path that does not end in it, the call on the path with the
    extension appended is the call on the path itself, in all that it
    loads, reads, writes, returns and leaves behind. *)
Theorem dimacs_extension_is_optional e file out det T st :
  has_dimacs_suffix file = false →
  generate_graphs e (file +:+ ".dimacs") out det T st
  = generate_graphs e file out det T st.
Proof.
  intros Hno. unfold generate_graphs, generate_graphs_impl.
  rewrite (get_basename_dimacs file Hno).
  assert (dimacs_path_of (file +:+ ".dimacs") = dimacs_path_of file) as ->; [|done].
  unfold dimacs_path_of. rewrite Hno.
  assert (has_dimacs_suffix (file +:+ ".dimacs") = true) as ->; [|done].
  apply has_dimacs_suffix_spec. by exists file.
Qed.

Lemma dimacs_extension_is_optional_witness :
  ∃ r, generate_graphs Examples.chain_env "m" "out" "one" 2 Impl_new = Ok r ∧
       ok r = true ∧
       generate_graphs Examples.chain_env "m.dimacs" "out" "one" 2 Impl_new = Ok r.
Proof.
  eassert (generate_graphs Examples.chain_env "m" "out" "one" 2 Impl_new = Ok _) as Hrun
    by (vm_compute; reflexivity).
  eexists. split; [exact Hrun|]. split; [reflexivity|].
  rewrite <- Hrun.
  apply (dimacs_extension_is_optional Examples.chain_env "m" "out" "one" 2 Impl_new).
  reflexivity.
Defined.

Lemma back_singleton_append s c : back (s +:+ String c EmptyString) = Some c.
Proof. by rewrite back_append. Qed.

Lemma normalize_path_slash s c :
  is_slash c = true → normalize_path (s +:+ String c EmptyString) = s.
Proof.
  intros Hc. unfold normalize_path. rewrite back_singleton_append, Hc, size_append.
  replace (size s + size (String c EmptyString) - 1)%nat with (size s) by (simpl; lia).
  apply substr_to_append.
Qed.

(** X10. One separator at the end of the output folder is dropped, a
    slash or a backslash, and no more than one: for a folder that does not
    end in a separator, the call with [folder/] is the call with [folder],
    and the call with [folder//] is the call with [folder/], which writes to
    paths with a doubled slash. *)
Theorem trailing_separator_is_dropped e file out c det T st :
  out ≠ EmptyString → is_slash c = true → (∀ c', back out = Some c' → is_slash c' = false) →
  generate_graphs e file (out +:+ String c EmptyString) det T st
  = generate_graphs e file out det T st ∧
  normalize_path (out +:+ String c (String c EmptyString)) = out +:+ String c EmptyString.
Proof.
  intros Hne Hc Hback. split.
  - unfold generate_graphs, generate_graphs_impl.
    assert (Hsz : ∀ s, s ≠ EmptyString → (size s =? 0)%nat = false) by (by intros []).
    assert (Hne' : out +:+ String c EmptyString ≠ EmptyString) by (by destruct out).
    rewrite (Hsz _ Hne), (Hsz _ Hne'), (normalize_path_slash _ _ Hc).
    assert (normalize_path out = out) as ->; [|done].
    unfold normalize_path. destruct (back out) as [c'|] eqn:Hb; [|done].
    by rewrite (Hback c' eq_refl).
  - replace (out +:+ String c (String c EmptyString))
      with ((out +:+ String c EmptyString) +:+ String c EmptyString)
      by (by rewrite append_assoc).
    by apply normalize_path_slash.
Qed.

Lemma trailing_separator_is_dropped_witness :
  generate_graphs Examples.chain_env "m" "out/" "one" 1 Impl_new
  = generate_graphs Examples.chain_env "m" "out" "one" 1 Impl_new ∧
  normalize_path "out//" = "out/".
Proof.
  apply (trailing_separator_is_dropped Examples.chain_env "m" "out" "/" "one" 1 Impl_new);
    [done|reflexivity|].
  intros c' [= <-]. reflexivity.
Defined.

Lemma find_last_slash_from_none s : ∀ i j,
  find_last_slash_from i s = None → find_last_slash_from j s = None.
Proof.
  induction s as [|c s IH]; intros i j; simpl; [done|].
  destruct (find_last_slash_from (S i) s) eqn:Hrec; [done|].
  rewrite (IH _ (S j) Hrec). by destruct (_ || _).
Qed.

Lemma find_last_slash_joined dir name :
  find_last_slash name = None →
  find_last_slash (dir +:+ "/" +:+ name) = Some (size dir).
Proof.
  intros Hname. unfold find_last_slash. rewrite find_last_slash_from_append.
  change ("/" +:+ name) with (String "/" name). simpl.
  by rewrite (find_last_slash_from_none _ _ (S (size dir)) Hname).
Qed.

Lemma has_dimacs_suffix_joined dir name :
  find_last_slash name = None →
  has_dimacs_suffix (dir +:+ "/" +:+ name) = has_dimacs_suffix name.
Proof.
  intros Hname. destruct (has_dimacs_suffix name) eqn:Hs.
  { rewrite <- append_assoc. by apply has_dimacs_suffix_append. }
  apply not_true_is_false. intros [q Hq]%has_dimacs_suffix_spec.
  pose proof (find_last_slash_joined dir name Hname) as Hj.
  rewrite Hq, find_last_slash_dimacs in Hj.
  pose proof (find_last_slash_from_bounds _ _ _ Hj) as Hb.
  assert (Hn : name = substr_from (S (size dir)) (dir +:+ "/" +:+ name)).
  { rewrite <- append_assoc.
    replace (S (size dir)) with (size (dir +:+ "/")) by (rewrite size_append; simpl; lia).
    by rewrite substr_from_append. }
  rewrite Hq, substr_from_append_l in Hn by lia.
  assert (has_dimacs_suffix name = true); [|congruence].
  apply has_dimacs_suffix_spec. by eexists.
Qed.

Lemma get_basename_extended name :
  find_last_slash name = None → get_basename name +:+ ".dimacs" = dimacs_path_of name.
Proof.
  intros Hname. unfold get_basename, dimacs_path_of. rewrite Hname.
  destruct (has_dimacs_suffix name) eqn:Hs; [|done]. simpl.
  apply has_dimacs_suffix_spec in Hs as [p ->]. rewrite size_append.
  replace (size p + size ".dimacs" - 7)%nat with (size p) by (simpl; lia).
  by rewrite substr_to_append.
Qed.

(** X11. When no output folder is given, the outputs go beside the file
    that is loaded and are named after it: for an input [dir/name], with or
    without the extension, the base of the output paths followed by
    [.dimacs] is the path that is loaded; for an input without a folder it
    is that path in the folder [.]. *)
Theorem outputs_go_beside_the_input dir name :
  find_last_slash name = None →
  let file := dir +:+ "/" +:+ name in
  output_dir_of file EmptyString +:+ "/" +:+ get_basename file +:+ ".dimacs"
    = dimacs_path_of file ∧
  output_dir_of name EmptyString +:+ "/" +:+ get_basename name +:+ ".dimacs"
    = "./" +:+ dimacs_path_of name.
Proof.
  intros Hname file. unfold output_dir_of. simpl (size EmptyString =? 0)%nat. cbn iota.
  assert (Hpath : dimacs_path_of file = dir +:+ "/" +:+ dimacs_path_of name).
  { unfold dimacs_path_of, file. rewrite has_dimacs_suffix_joined by done.
    destruct (has_dimacs_suffix name); simpl; [done|]. by rewrite !append_assoc. }
  assert (Hslash : find_last_slash (dimacs_path_of name) = None).
  { unfold dimacs_path_of. destruct (has_dimacs_suffix name); simpl; [done|].
    by rewrite find_last_slash_dimacs. }
  split.
  - unfold get_directory. rewrite Hpath, (find_last_slash_joined dir _ Hslash).
    rewrite substr_to_append.
    replace (get_basename file) with (get_basename name).
    + by rewrite get_basename_extended.
    + unfold get_basename, file. rewrite (find_last_slash_joined dir _ Hname), Hname.
      rewrite <- append_assoc.
      replace (S (size dir)) with (size (dir +:+ "/")) by (rewrite size_append; simpl; lia).
      by rewrite substr_from_append.
  - unfold get_directory. rewrite Hslash. by rewrite get_basename_extended.
Qed.

Lemma outputs_go_beside_the_input_witness :
  output_dir_of "models/car.dimacs" EmptyString = "models" ∧
  get_basename "models/car.dimacs" = "car" ∧
  output_dir_of "models/car.dimacs" EmptyString +:+ "/" +:+
    get_basename "models/car.dimacs" +:+ ".dimacs" = dimacs_path_of "models/car.dimacs".
Proof.
  split; [reflexivity|]. split; [reflexivity|].
  apply (outputs_go_beside_the_input "models" "car.dimacs"). reflexivity.
Defined.

(** ** Reading back what was printed *)

Lemma pretty_N_char_digit d :
  (d < 10)%N → is_digit (pretty_N_char d) = true ∧ digit_val (pretty_N_char d) = Z.of_N d.
Proof.
  intros Hd.
  assert (d = 0 ∨ d = 1 ∨ d = 2 ∨ d = 3 ∨ d = 4 ∨ d = 5 ∨ d = 6 ∨ d = 7 ∨ d = 8 ∨ d = 9)%N
    as Hcases by lia.
  repeat destruct Hcases as [-> | Hcases]; try subst d; by split.
Qed.

Lemma pretty_N_go_append x : ∀ s t, pretty_N_go x s +:+ t = pretty_N_go x (s +:+ t).
Proof.
  induction (N.lt_wf_0 x) as [x _ IH]. intros s t.
  destruct (decide (x = 0)%N) as [->|Hx]; [done|].
  rewrite !(pretty_N_go_step x) by lia. rewrite IH by (apply N.div_lt; lia). done.
Qed.

(** Reading the digits of [x] from the front of a string gives [x]. *)
Lemma read_digits_pretty x : ∀ seen s,
  read_digits 0 seen (pretty_N_go x s)
  = read_digits (Z.of_N x) (seen || bool_decide (0 < x)%N) s.
Proof.
  induction (N.lt_wf_0 x) as [x _ IH]. intros seen s.
  destruct (decide (x = 0)%N) as [->|Hx].
  { rewrite pretty_N_go_0. simpl. by rewrite orb_false_r. }
  rewrite pretty_N_go_step by lia. rewrite IH by (apply N.div_lt; lia).
  cbn [read_digits].
  destruct (pretty_N_char_digit (x `mod` 10)) as [-> ->]; [by apply N.mod_lt|].
  rewrite (bool_decide_eq_true_2 (0 < x)%N) by lia. rewrite orb_true_r.
  f_equal. rewrite N2Z.inj_div, N2Z.inj_mod. change (Z.of_N 10) with 10.
  symmetry. by apply Z.div_mod.
Qed.

Lemma read_digits_stop v seen s :
  is_digit (first_char s) = false → read_digits v seen s = (v, seen, s).
Proof. destruct s as [|c s]; [done|]. simpl. by intros ->. Qed.

Lemma pretty_pos_cons p : ∃ c s, pretty_N_go (Npos p) EmptyString = String c s ∧ is_digit c = true.
Proof.
  assert (H : ∀ x t, (0 < x)%N → ∃ c s, pretty_N_go x t = String c s ∧ is_digit c = true).
  { intros x. induction (N.lt_wf_0 x) as [x _ IH]. intros t Hx.
    rewrite pretty_N_go_step by done.
    destruct (decide (x `div` 10 = 0)%N) as [->|Hd].
    - rewrite pretty_N_go_0. eexists _, _. split; [done|].
      by apply pretty_N_char_digit, N.mod_lt.
    - apply IH; [apply N.div_lt; [done|reflexivity]|].
      destruct (x `div` 10)%N; [done|reflexivity]. }
  apply H. lia.
Qed.

Lemma is_digit_not_space c : is_digit c = true → is_space c = false.
Proof.
  unfold is_digit, is_space. intros [H1 H2]%andb_true_iff.
  apply Nat.leb_le in H1, H2. apply orb_false_iff. split.
  - apply Nat.eqb_neq. lia.
  - apply andb_false_iff. right. apply Nat.leb_gt. lia.
Qed.

Lemma is_digit_not_sign c :
  is_digit c = true → Ascii.eqb c "-" = false ∧ Ascii.eqb c "+" = false.
Proof.
  intros H. split; apply Ascii.eqb_neq; intros ->; by vm_compute in H.
Qed.

(** [ss >> n] reads back what [ss << n] wrote, for every [int] and
    whatever follows the number, as long as that is not one more digit. *)
Lemma read_int_pretty z rest :
  INT_MIN ≤ z ≤ INT_MAX → is_digit (first_char rest) = false →
  read_int (pretty z +:+ rest) = IntOk z rest.
Proof.
  intros Hz Hrest. unfold read_int, pretty, pretty_Z.
  assert (Hpos : ∀ p, pretty (Npos p) = pretty_N_go (Npos p) EmptyString) by done.
  assert (Hread : ∀ p seen, read_digits 0 seen (pretty_N_go (N.pos p) EmptyString +:+ rest)
                            = (Z.pos p, true, rest)).
  { intros p seen. rewrite pretty_N_go_append, read_digits_pretty.
    change (EmptyString +:+ rest) with rest.
    rewrite (bool_decide_eq_true_2 (0 < N.pos p)%N) by lia. rewrite orb_true_r.
    by apply read_digits_stop. }
  destruct z as [|p|p].
  - change ("0" +:+ rest) with (String "0" rest). simpl.
    by rewrite (read_digits_stop _ _ _ Hrest).
  - unfold pretty, pretty_positive. rewrite Hpos.
    destruct (pretty_pos_cons p) as (c & s & Hcs & Hc).
    assert (Hskip : skip_ws (pretty_N_go (N.pos p) EmptyString +:+ rest)
                    = pretty_N_go (N.pos p) EmptyString +:+ rest).
    { rewrite Hcs. change (String c s +:+ rest) with (String c (s +:+ rest)).
      simpl. by rewrite (is_digit_not_space c Hc). }
    rewrite Hskip. clear Hskip.
    assert (Hsz : (size (pretty_N_go (N.pos p) EmptyString +:+ rest) =? 0)%nat = false)
      by (by rewrite Hcs).
    rewrite Hsz. cbn iota.
    assert (Hsign : match pretty_N_go (N.pos p) EmptyString +:+ rest with
                    | String c0 s' =>
                        if Ascii.eqb c0 "-" then (true, s')
                        else if Ascii.eqb c0 "+" then (false, s')
                        else (false, pretty_N_go (N.pos p) EmptyString +:+ rest)
                    | EmptyString => (false, pretty_N_go (N.pos p) EmptyString +:+ rest)
                    end = (false, pretty_N_go (N.pos p) EmptyString +:+ rest)).
    { rewrite Hcs at 1. change (String c s +:+ rest) with (String c (s +:+ rest)).
      destruct (is_digit_not_sign c Hc) as [-> ->]. done. }
    rewrite Hsign, Hread. simpl negb. cbn iota.
    unfold INT_MIN, INT_MAX in *.
    destruct (Z.ltb_spec (Z.pos p) (-2147483648)); [lia|].
    destruct (Z.ltb_spec 2147483647 (Z.pos p)); [lia|]. done.
  - unfold pretty, pretty_positive. rewrite Hpos.
    change (("-" +:+ pretty_N_go (N.pos p) EmptyString) +:+ rest)
      with (String "-" (pretty_N_go (N.pos p) EmptyString +:+ rest)).
    simpl skip_ws. cbn iota. simpl (Ascii.eqb "-" "-"). cbn iota.
    rewrite Hread. simpl negb. cbn iota.
    unfold INT_MIN, INT_MAX in *.
    destruct (Z.ltb_spec (- Z.pos p) (-2147483648)); [lia|].
    destruct (Z.ltb_spec 2147483647 (- Z.pos p)); [lia|]. done.
Qed.

Lemma read_int_blank s : read_int (" " +:+ s) = read_int s.
Proof. done. Qed.

Lemma pretty_first_char (z : Z) : is_space (first_char (pretty z)) = false ∧ pretty z ≠ EmptyString.
Proof.
  unfold pretty, pretty_Z. destruct z as [|p|p]; [done| |done].
  unfold pretty, pretty_positive.
  change (pretty (N.pos p)) with (pretty_N_go (N.pos p) EmptyString).
  destruct (pretty_pos_cons p) as (c & s & -> & Hc). split; [|done].
  by apply is_digit_not_space.
Qed.

(** X12. The clause count is read from the first line that starts with
    [p]: when that line is a problem line [p cnf V C] as a DIMACS writer
    prints it, with any [int]s [V] and [C], the count is [C], whatever the
    lines before it are. *)
Theorem clause_count_is_read e path old pre post V C :
  file_lines e path =
    Some (pre ++ ["p cnf " +:+ pretty V +:+ " " +:+ pretty C] ++ post) →
  Forall (fun l => Ascii.eqb (first_char l) "p" = false) pre →
  INT_MIN ≤ V ≤ INT_MAX → INT_MIN ≤ C ≤ INT_MAX →
  read_clause_count e path old = inr C.
Proof.
  intros Hlines Hpre HV HC. unfold read_clause_count. rewrite Hlines. clear Hlines.
  change ("p cnf " +:+ pretty V +:+ " " +:+ pretty C)
    with (String "p" (String " " (String "c" (String "n" (String "f"
            (" " +:+ pretty V +:+ " " +:+ pretty C)))))).
  set (rest := " " +:+ pretty V +:+ " " +:+ pretty C).
  assert (Hfind : ∀ line, Ascii.eqb (first_char line) "p" = true →
            List.find (fun l => Ascii.eqb (first_char l) "p") (pre ++ [line] ++ post)
            = Some line).
  { intros line Hline. induction Hpre as [|l pre Hl _ IH]; simpl; [by rewrite Hline|].
    by rewrite Hl. }
  rewrite Hfind by done. f_equal. unfold parse_problem_line. subst rest.
  change (" " +:+ pretty V +:+ " " +:+ pretty C)
    with (String " " (pretty V +:+ " " +:+ pretty C)).
  set (r := pretty V +:+ " " +:+ pretty C).
  assert (H1 : ∀ x, read_char (String "p" x) = Some ("p"%char, x)) by done.
  assert (H2 : read_word (String " " (String "c" (String "n" (String "f" (String " " r)))))
               = Some ("cnf", String " " r)) by done.
  rewrite H1, H2. subst r.
  change (String " " (pretty V +:+ " " +:+ pretty C))
    with (" " +:+ pretty V +:+ " " +:+ pretty C).
  rewrite read_int_blank, read_int_pretty by done.
  rewrite read_int_blank. rewrite <- (append_nil_r (pretty C)).
  by rewrite read_int_pretty.
Qed.

Lemma words_go_words s : ∀ cur,
  (∀ w, cur = Some w → is_word w) → Forall is_word (words_go cur s).
Proof.
  induction s as [|c s IH]; intros cur Hcur; simpl.
  - destruct cur as [w|]; [|constructor]. constructor; [by apply Hcur|constructor].
  - destruct (is_space c) eqn:Hc.
    + destruct cur as [w|]; [constructor; [by apply Hcur|]|]; by apply IH.
    + apply IH. intros w [= <-]. destruct cur as [w|]; simpl.
      * destruct (Hcur w eq_refl) as [Hne Hsp]. split; [by destruct w|].
        clear -Hsp Hc. induction w as [|c' w IHw]; simpl in *; [by rewrite Hc|].
        apply andb_true_iff in Hsp as [-> Hsp]. by rewrite IHw.
      * split; [done|]. simpl. by rewrite Hc.
Qed.

Lemma words_go_word w : ∀ cur rest,
  spaceless w = true → w ≠ EmptyString →
  words_go cur (w +:+ rest) = words_go (Some (default EmptyString cur +:+ w)) rest.
Proof.
  induction w as [|c w IH]; intros cur rest Hsp Hne; [done|].
  simpl in Hsp. apply andb_true_iff in Hsp as [Hc%negb_true_iff Hsp].
  change (String c w +:+ rest) with (String c (w +:+ rest)). cbn [words_go]. rewrite Hc.
  destruct w as [|c' w'].
  - change (EmptyString +:+ rest) with rest. done.
  - rewrite IH by done. simpl default. by rewrite append_assoc.
Qed.

Lemma words_joined ws :
  Forall is_word ws → words (join_words ws) = ws.
Proof.
  unfold words, join_words. induction 1 as [|w ws [Hne Hsp] Hws IH]; [done|].
  destruct ws as [|w' ws'].
  - simpl String.concat. rewrite <- (append_nil_r w) at 1.
    rewrite words_go_word by done. done.
  - change (String.concat " " (w :: w' :: ws'))
      with (w +:+ String " " (String.concat " " (w' :: ws'))).
    rewrite words_go_word by done. cbn [words_go]. simpl (is_space " "). cbn iota.
    simpl default. change (EmptyString +:+ w) with w. by rewrite IH.
Qed.

(** X13. The words of a name. Reading a line word by word gives words:
    none is empty and none holds white space, however the line is spaced.
    Joining words with single blanks and reading the result word by word
    gives the same words back; so a name comment [c v w1 ... wk], with a
    number [v] that an [int] holds and at least the blank after it, is read
    as the variable [v] with the words [w1 ... wk]. *)
Theorem name_comment_is_read :
  (∀ s, Forall is_word (words s)) ∧
  (∀ ws, Forall is_word ws → words (join_words ws) = ws) ∧
  (∀ v ws, INT_MIN ≤ v ≤ INT_MAX → Forall is_word ws →
     parse_comment ("c " +:+ pretty v +:+ " " +:+ join_words ws) = Some (v, ws)).
Proof.
  split_and!.
  - intros s. by apply words_go_words.
  - apply words_joined.
  - intros v ws Hv Hws. unfold parse_comment.
    change ("c " +:+ pretty v +:+ " " +:+ join_words ws)
      with (String "c" (" " +:+ pretty v +:+ " " +:+ join_words ws)).
    assert (H1 : ∀ x, read_char (String "c" x) = Some ("c"%char, x)) by done.
    rewrite H1, read_int_blank, read_int_pretty by done.
    change (" " +:+ join_words ws) with (String " " (join_words ws)).
    unfold words at 1. cbn [words_go]. simpl (is_space " "). cbn iota.
    fold (words (join_words ws)). by rewrite words_joined.
Qed.

Lemma clause_count_is_read_witness :
  read_clause_count Examples.chain_env "m.dimacs" 0 = inr 2.
Proof.
  apply (clause_count_is_read Examples.chain_env "m.dimacs" 0
           ["c 1 a"; "c 2 b"; "c 3 c"] ["1 -2 0"; "2 -3 0"] 3 2).
  - reflexivity.
  - repeat constructor.
  - unfold INT_MIN, INT_MAX. lia.
  - unfold INT_MIN, INT_MAX. lia.
Defined.

Lemma name_comment_is_read_witness :
  parse_comment "c 12 Air Conditioning" = Some (12, ["Air"; "Conditioning"]).
Proof.
  destruct name_comment_is_read as (_ & _ & H).
  assert (Hv : INT_MIN ≤ 12 ≤ INT_MAX) by (unfold INT_MIN, INT_MAX; lia).
  assert (Hws : Forall is_word ["Air"; "Conditioning"]) by (repeat constructor; done).
  exact (H 12 ["Air"; "Conditioning"] Hv Hws).
Defined.

(** ** What the exit codes of the command lines stand for *)

Lemma parse_arguments_result (n : nat) : ∀ args o,
  (length args ≤ n)%nat → 1 ≤ Strong4vm.num_threads o →
  match Strong4vm.parse_arguments args o with
  | Ok (inl code) =>
      code = 0 ∧ (∃ arg, arg ∈ args ∧ (arg = "-h" ∨ arg = "--help")) ∨ code = 1
  | Ok (inr o') =>
      1 ≤ Strong4vm.num_threads o' ∧
      (Strong4vm.input_file o' = Strong4vm.input_file o ∨
       Strong4vm.input_file o' ∈ args ∧
       Ascii.eqb (first_char (Strong4vm.input_file o')) "-" = false)
  | Abort _ => True
  end.
Proof.
  induction n as [|n IH]; intros args o Hlen Ho.
  { destruct args; [|simpl in Hlen; lia]. simpl. split; [done|by left]. }
  destruct args as [|arg rest]; [simpl; split; [done|by left]|]. simpl in Hlen.
  assert (Hstep : ∀ args' o1,
    (length args' ≤ n)%nat → (∀ a, a ∈ args' → a ∈ arg :: rest) →
    1 ≤ Strong4vm.num_threads o1 →
    Strong4vm.input_file o1 = Strong4vm.input_file o ∨
      Strong4vm.input_file o1 ∈ arg :: rest ∧
      Ascii.eqb (first_char (Strong4vm.input_file o1)) "-" = false →
    match Strong4vm.parse_arguments args' o1 with
    | Ok (inl code) =>
        code = 0 ∧ (∃ a, a ∈ arg :: rest ∧ (a = "-h" ∨ a = "--help")) ∨ code = 1
    | Ok (inr o') =>
        1 ≤ Strong4vm.num_threads o' ∧
        (Strong4vm.input_file o' = Strong4vm.input_file o ∨
         Strong4vm.input_file o' ∈ arg :: rest ∧
         Ascii.eqb (first_char (Strong4vm.input_file o')) "-" = false)
    | Abort _ => True
    end).
  { intros args' o1 Hl Hsub Ht Hin. specialize (IH args' o1 Hl Ht).
    destruct (Strong4vm.parse_arguments args' o1) as [[code|o']|]; [| |done].
    - destruct IH as [[-> (a & Ha & Hh)] | ->]; [left|by right].
      split; [done|]. exists a. split; [by apply Hsub|done].
    - destruct IH as [Hth Hfile]. split; [done|].
      destruct Hfile as [-> | [Hf Hd]]; [done|]. right. split; [by apply Hsub|done]. }
  assert (Hrest : ∀ a, a ∈ rest → a ∈ arg :: rest) by (intros a Ha; by right).
  cbn [Strong4vm.parse_arguments].
  destruct (String.eqb arg "-h" || String.eqb arg "--help") eqn:Hh.
  { left. split; [done|]. exists arg. split; [by left|].
    apply orb_true_iff in Hh as [H%String.eqb_eq|H%String.eqb_eq]; auto. }
  destruct (String.eqb arg "-k" || String.eqb arg "--keep-dimacs");
    [apply Hstep; [lia|done|done|by left]|].
  destruct (String.eqb arg "-e" || String.eqb arg "--enable-tseitin");
    [apply Hstep; [lia|done|done|by left]|].
  destruct rest as [|next rest'].
  - destruct (negb _) eqn:Hd; [|by right]. apply negb_true_iff in Hd.
    split; [done|]. right. split; [by left|done].
  - simpl in Hlen.
    assert (Hrest' : ∀ a, a ∈ rest' → a ∈ arg :: next :: rest')
      by (intros a Ha; right; by right).
    destruct (String.eqb arg "-t" || String.eqb arg "--threads").
    { res_simpl. destruct (Strong4vm.atoi next) as [k|]; [|done].
      destruct (Z.ltb_spec k 1); [by right|].
      apply Hstep; [lia|done|simpl; lia|by left]. }
    destruct (String.eqb arg "-o" || String.eqb arg "--output");
      [apply Hstep; [lia|done|done|by left]|].
    destruct (negb _) eqn:Hd; [|by right]. apply negb_true_iff in Hd.
    apply Hstep; [simpl; lia|done|done|]. right. split; [by left|done].
Qed.

(** X14. [strong4vm] ends with the code 0 in two cases only: the help
    was asked for with [-h] or [--help], or a graph generation was run and
    returned [true]. In the second case the options were all read, the
    number of threads is at least 1, the input file was named by an argument
    that does not start with a dash, it exists and has one of the known
    extensions, the detector is [one], and filtering of auxiliary variables
    is on exactly when [-e] was given. *)
Theorem strong4vm_exit_zero c argv :
  Strong4vm.main c argv = Ok 0 →
  (∃ arg, arg ∈ tail argv ∧ (arg = "-h" ∨ arg = "--help")) ∨
  (∃ o file dir r,
     Strong4vm.parse_arguments (tail argv) Strong4vm.defaults = Ok (inr o) ∧
     1 ≤ Strong4vm.num_threads o ∧
     Strong4vm.input_file o ∈ tail argv ∧
     Ascii.eqb (first_char (Strong4vm.input_file o)) "-" = false ∧
     path_exists (Strong4vm.sys c) (Strong4vm.input_file o) = true ∧
     Strong4vm.detect_file_type (Strong4vm.input_file o) ≠ Strong4vm.UNKNOWN ∧
     generate_graphs (Strong4vm.sys c) file dir "one" (Strong4vm.num_threads o)
       (set_filter_auxiliary (Strong4vm.use_tseitin o) Impl_new) = Ok r ∧
     ok r = true).
Proof.
  unfold Strong4vm.main.
  destruct (length argv <? 2)%nat; [done|]. res_simpl.
  pose proof (parse_arguments_result (length (tail argv)) (tail argv) Strong4vm.defaults
                ltac:(lia) ltac:(simpl; lia)) as Hparse.
  destruct (Strong4vm.parse_arguments (tail argv) Strong4vm.defaults)
    as [[code|o]|]; [| |done].
  { intros [= ->]. destruct Hparse as [[_ Hh]|?]; [by left|done]. }
  destruct Hparse as [Hth Hfile].
  destruct (size (Strong4vm.input_file o) =? 0)%nat eqn:Hsz; [done|].
  destruct Hfile as [Hf|[Hin Hdash]].
  { rewrite Hf in Hsz. done. }
  destruct (path_exists _ _) eqn:Hex; [|done]. simpl negb. cbn iota.
  assert (Hfilter : (if Strong4vm.use_tseitin o then set_filter_auxiliary true Impl_new
                     else Impl_new)
                    = set_filter_auxiliary (Strong4vm.use_tseitin o) Impl_new)
    by (by destruct (Strong4vm.use_tseitin o)).
  rewrite Hfilter.
  destruct (Strong4vm.detect_file_type _) eqn:Htype; [| |done];
    (destruct (if negb (path_exists _ _) then _ else None); [done|]).
  - destruct (negb (Strong4vm.uvl_convert _ _ _ _)); [done|].
    destruct (generate_graphs _ _ _ _ _ _) as [r|] eqn:Hrun; [|done].
    destruct (ok r) eqn:Hok; [|done]. intros _. right.
    eexists o, _, _, r. split_and!; try done. by rewrite Htype.
  - destruct (generate_graphs _ _ _ _ _ _) as [r|] eqn:Hrun; [|done].
    destruct (ok r) eqn:Hok; [|done]. intros _. right.
    eexists o, _, _, r. split_and!; try done. by rewrite Htype.
Qed.

Lemma strong4vm_exit_zero_witness :
  Strong4vm.main {| Strong4vm.sys := Examples.chain_env;
                    Strong4vm.uvl_convert := fun _ _ _ => false |}
    ["strong4vm"; "-t"; "2"; "m.dimacs"] = Ok 0 ∧
  ∃ o file dir r,
    Strong4vm.parse_arguments ["-t"; "2"; "m.dimacs"] Strong4vm.defaults = Ok (inr o) ∧
    Strong4vm.num_threads o = 2 ∧
    generate_graphs Examples.chain_env file dir "one" 2
      (set_filter_auxiliary (Strong4vm.use_tseitin o) Impl_new) = Ok r ∧
    ok r = true.
Proof.
  set (c := {| Strong4vm.sys := Examples.chain_env;
               Strong4vm.uvl_convert := fun _ _ _ => false |}).
  assert (Hmain : Strong4vm.main c ["strong4vm"; "-t"; "2"; "m.dimacs"] = Ok 0)
    by (vm_compute; reflexivity).
  split; [exact Hmain|].
  destruct (strong4vm_exit_zero c ["strong4vm"; "-t"; "2"; "m.dimacs"] Hmain)
    as [(arg & Hin & Harg)|(o & file & dir & r & Hparse & _ & _ & _ & _ & _ & Hrun & Hok)].
  - exfalso. simpl in Hin.
    repeat (apply elem_of_cons in Hin as [-> | Hin]; [by destruct Harg|]).
    by apply elem_of_nil in Hin.
  - exists o, file, dir, r.
    assert (Ho : Strong4vm.num_threads o = 2).
    { vm_compute in Hparse. by injection Hparse as <-. }
    rewrite Ho in Hrun. by split_and!.
Defined.

(** X15. The exit codes of [dimacs2graphs] tell three outcomes apart:
    1 for a wrong number of arguments or a number of threads below 1, and
    then no generation is run; 2 for a generation that returned [false];
    0 for one that returned [true]. The generation is run on the first
    argument with no output folder, the detector [one] and filtering off. *)
Theorem dimacs2graphs_exit_codes e argv code :
  Dimacs2graphs.main e argv = Ok code →
  (code = 1 ∧
   ((length argv < 2)%nat ∨ (3 < length argv)%nat ∨
    ∃ a T, argv !! 2%nat = Some a ∧ Strong4vm.atoi a = Ok T ∧ T < 1)) ∨
  (∃ file T r,
     argv !! 1%nat = Some file ∧ 1 ≤ T ∧
     generate_graphs e file EmptyString "one" T Impl_new = Ok r ∧
     code = if ok r then 0 else 2).
Proof.
  unfold Dimacs2graphs.main.
  destruct (Nat.ltb_spec (length argv) 2) as [|H2];
    [intros [= <-]; left; split; [done|by left]|].
  destruct (Nat.ltb_spec 3 (length argv)) as [|H3];
    [intros [= <-]; left; split; [done|right; by left]|].
  simpl orb. cbn iota. res_simpl.
  destruct (argv !! 1%nat) as [file|] eqn:H1;
    [|apply lookup_ge_None in H1; lia].
  simpl default.
  assert (Hrun : ∀ T, 1 ≤ T →
    match generate_graphs e file EmptyString "one" T Impl_new with
    | Ok r => if negb (ok r) then Ok 2 else Ok 0
    | Abort e0 => Abort e0
    end = Ok code →
    ∃ file' T' r, Some file = Some file' ∧ 1 ≤ T' ∧
      generate_graphs e file' EmptyString "one" T' Impl_new = Ok r ∧
      code = if ok r then 0 else 2).
  { intros T HT. destruct (generate_graphs e file EmptyString "one" T Impl_new)
      as [r|] eqn:Hr; [|done].
    intros Hcode. exists file, T, r. split_and!; try done.
    destruct (ok r); simpl in Hcode; by injection Hcode as <-. }
  destruct (argv !! 2%nat) as [a|] eqn:Ha.
  - destruct (Strong4vm.atoi a) as [T|] eqn:HT; [|done].
    destruct (Z.ltb_spec T 1).
    + intros [= <-]. left. split; [done|]. right. right. by exists a, T.
    + intros Hcode. right. by apply (Hrun T).
  - simpl. intros Hcode. right. by apply (Hrun 1).
Qed.

Lemma dimacs2graphs_exit_codes_witness :
  Dimacs2graphs.main Examples.lonely_env ["dimacs2graphs"; "m"; "2"] = Ok 2 ∧
  ∃ file T r,
    1 ≤ T ∧ generate_graphs Examples.lonely_env file EmptyString "one" T Impl_new = Ok r ∧
    2 = if ok r then 0 else 2.
Proof.
  assert (Hmain : Dimacs2graphs.main Examples.lonely_env ["dimacs2graphs"; "m"; "2"] = Ok 2)
    by (vm_compute; reflexivity).
  split; [exact Hmain|].
  destruct (dimacs2graphs_exit_codes Examples.lonely_env ["dimacs2graphs"; "m"; "2"] 2 Hmain)
    as [[Hone _]|(file & T & r & _ & HT & Hrun & Hcode)]; [done|].
  by exists file, T, r.
Defined.

(** ** The combinations of the cardinality encoding *)

Lemma elem_of_concat {A} (x : A) (ls : list (list A)) :
  x ∈ concat ls ↔ ∃ l, x ∈ l ∧ l ∈ ls.
Proof.
  induction ls as [|l ls IH]; simpl.
  - split; [by intros ?%elem_of_nil|by intros (? & _ & ?%elem_of_nil)].
  - rewrite elem_of_app, IH. split.
    + intros [H|(l' & H & Hin)]; [exists l; split; [done|by left]|].
      exists l'. split; [done|by right].
    + intros (l' & H & [-> | Hin]%elem_of_cons); [by left|right; by exists l'].
Qed.

Lemma elem_of_backtrack n left : ∀ start current combo,
  combo ∈ RelationEncoder.backtrack n left start current ↔
  ∃ ext, combo = current ++ ext ∧ length ext = left ∧
         StronglySorted Z.lt ext ∧ Forall (fun i => start ≤ i < n) ext.
Proof.
  induction left as [|left IH]; intros start current combo; simpl.
  - rewrite list_elem_of_singleton. split.
    + intros ->. exists []. rewrite app_nil_r. split_and!; [done|done|constructor|constructor].
    + intros (ext & -> & Hlen & _). destruct ext; [|done]. by rewrite app_nil_r.
  - rewrite elem_of_concat. split.
    + intros (l & Hcombo & Hl). apply list_elem_of_fmap in Hl as (i & -> & Hi).
      apply elem_of_seqZ in Hi. apply IH in Hcombo as (ext & -> & Hlen & Hs & Hall).
      exists (i :: ext). rewrite <- app_assoc. split_and!; [done|simpl; lia| |].
      * constructor; [done|]. eapply Forall_impl; [exact Hall|]. simpl. lia.
      * constructor; [lia|]. eapply Forall_impl; [exact Hall|]. simpl. lia.
    + intros (ext & -> & Hlen & Hs & Hall). destruct ext as [|i ext]; [done|].
      apply StronglySorted_inv in Hs as [Hs Hi]. apply Forall_cons in Hall as [Hr Hall].
      exists (RelationEncoder.backtrack n left (i + 1) (current ++ [i])). split.
      * apply IH. exists ext. rewrite <- app_assoc. split_and!; [done|simpl in Hlen; lia|done|].
        apply Forall_forall. intros x Hx. rewrite Forall_forall in Hi, Hall.
        specialize (Hi x Hx). specialize (Hall x Hx). simpl in *. lia.
      * apply list_elem_of_fmap. exists i. split; [done|]. apply elem_of_seqZ. lia.
Qed.

Lemma NoDup_backtrack n left : ∀ start current,
  NoDup (RelationEncoder.backtrack n left start current).
Proof.
  induction left as [|left IH]; intros start current; simpl.
  - apply NoDup_singleton.
  - assert (H : ∀ idxs, NoDup idxs →
      NoDup (concat ((fun i => RelationEncoder.backtrack n left (i + 1) (current ++ [i]))
                     <$> idxs))).
    { induction 1 as [|i idxs Hi Hnd IHi]; simpl; [constructor|].
      apply NoDup_app. split_and!; [apply IH| |done].
      intros combo H1 H2. apply elem_of_backtrack in H1 as (ext & -> & _).
      apply elem_of_concat in H2 as (l & Hcombo & Hl).
      apply list_elem_of_fmap in Hl as (j & -> & Hj).
      apply elem_of_backtrack in Hcombo as (ext' & Heq & _).
      rewrite <- !app_assoc in Heq. apply app_inv_head in Heq.
      simpl in Heq. injection Heq as -> _. done. }
    apply H, NoDup_seqZ.
Qed.

Lemma sorted_length_bound n combo :
  StronglySorted Z.lt combo → Forall (fun i => 0 ≤ i < n) combo →
  Z.of_nat (length combo) ≤ Z.max 0 n.
Proof.
  intros Hs Hall.
  assert (Hsub : combo ⊆+ seqZ 0 n).
  { apply NoDup_submseteq.
    - clear Hall. induction Hs as [|a l Hl IH Ha]; constructor; [|done].
      intros Hin. rewrite Forall_forall in Ha. specialize (Ha a Hin). lia.
    - intros x Hx. rewrite Forall_forall in Hall. apply elem_of_seqZ.
      specialize (Hall x Hx). simpl in Hall. lia. }
  apply submseteq_length in Hsub. rewrite length_seqZ in Hsub. lia.
Qed.

Lemma elem_of_generate_combinations n k combo :
  0 ≤ n →
  combo ∈ RelationEncoder.generate_combinations n k ↔
  Z.of_nat (length combo) = k ∧ StronglySorted Z.lt combo ∧
  Forall (fun i => 0 ≤ i < n) combo.
Proof.
  intros Hn. unfold RelationEncoder.generate_combinations.
  destruct (Z.ltb_spec n k) as [Hnk|Hnk]; simpl.
  { split; [by intros ?%elem_of_nil|].
    intros (Hl & Hs & Hall). pose proof (sorted_length_bound n combo Hs Hall). lia. }
  destruct (Z.ltb_spec k 0) as [Hk|Hk]; simpl.
  { split; [by intros ?%elem_of_nil|]. lia. }
  destruct (Z.eqb_spec k 0) as [->|Hk0].
  { rewrite list_elem_of_singleton. split.
    - intros ->. split_and!; [done|constructor|constructor].
    - intros (Hl & _). by destruct combo. }
  rewrite elem_of_backtrack. split.
  - intros (ext & -> & Hl & Hs & Hall). simpl. split_and!; [lia|done|done].
  - intros (Hl & Hs & Hall). exists combo. split_and!; [done|lia|done|done].
Qed.

(** X16. [generate_combinations(n, k)] returns the subsets of [k] of the
    indices [0 .. n-1], each as the list of its elements in ascending order
    and each exactly once, for every [k] and every [n] that is not
    negative: none when [k] is negative or above [n], the empty one alone
    when [k] is [0]. *)
Theorem combinations_are_the_subsets n k :
  0 ≤ n →
  NoDup (RelationEncoder.generate_combinations n k) ∧
  ∀ combo,
    combo ∈ RelationEncoder.generate_combinations n k ↔
    Z.of_nat (length combo) = k ∧ StronglySorted Z.lt combo ∧
    Forall (fun i => 0 ≤ i < n) combo.
Proof.
  intros Hn. split; [|intros combo; by apply elem_of_generate_combinations].
  unfold RelationEncoder.generate_combinations.
  destruct (_ || _); [constructor|].
  destruct (k =? 0); [apply NoDup_singleton|apply NoDup_backtrack].
Qed.

Lemma combinations_are_the_subsets_witness :
  RelationEncoder.generate_combinations 3 2 = [[0; 1]; [0; 2]; [1; 2]] ∧
  NoDup (RelationEncoder.generate_combinations 3 2) ∧
  [0; 2] ∈ RelationEncoder.generate_combinations 3 2.
Proof.
  split; [reflexivity|].
  destruct (combinations_are_the_subsets 3 2) as [Hnd Hin]; [lia|].
  split; [exact Hnd|]. apply Hin. split_and!; [done| |].
  - repeat constructor.
  - repeat constructor; lia.
Defined.

(** ** What the clauses of a relation say *)

Lemma lit_holds_pos σ v : 0 < v → lit_holds σ v = σ v.
Proof. intros Hv. unfold lit_holds. by destruct (Z.ltb_spec 0 v); [|lia]. Qed.

Lemma lit_holds_neg σ v : 0 < v → lit_holds σ (- v) = negb (σ v).
Proof.
  intros Hv. unfold lit_holds. destruct (Z.ltb_spec 0 (- v)); [lia|].
  by rewrite Z.opp_involutive.
Qed.

Lemma cnf_holds_app σ cs1 cs2 :
  cnf_holds σ (cs1 ++ cs2) = cnf_holds σ cs1 && cnf_holds σ cs2.
Proof. apply forallb_app. Qed.

Lemma cnf_holds_cons σ c cs :
  cnf_holds σ ([c] ++ cs) = clause_holds σ c && cnf_holds σ cs.
Proof. done. Qed.

Lemma cnf_holds_forall σ cs :
  cnf_holds σ cs = true ↔ ∀ c, c ∈ cs → clause_holds σ c = true.
Proof.
  unfold cnf_holds. rewrite forallb_forall. split; intros H c Hc; apply H.
  - by apply list_elem_of_In.
  - by apply list_elem_of_In.
Qed.

Lemma selected_pos var σ children :
  0 < selected var σ children ↔ ∃ c, c ∈ children ∧ σ (var c) = true.
Proof.
  unfold selected. split.
  - intros Hpos. destruct (filter _ children) as [|c l] eqn:Hf; [simpl in Hpos; lia|].
    assert (Hc : c ∈ filter (fun child => σ (var child) = true) children)
      by (rewrite Hf; by left).
    apply list_elem_of_filter in Hc as [? ?]. by exists c.
  - intros (c & Hin & Hc).
    assert (Hf : c ∈ filter (fun child => σ (var child) = true) children)
      by (by apply list_elem_of_filter).
    destruct (filter _ children); [by apply elem_of_nil in Hf|simpl; lia].
Qed.

Lemma selected_bounds var σ children :
  0 ≤ selected var σ children ≤ Z.of_nat (length children).
Proof. unfold selected. pose proof (length_filter (fun child => σ (var child) = true) children). lia. Qed.

Lemma children_imply_parent_holds var σ children p :
  0 < p → Forall (fun c => 0 < var c) children →
  cnf_holds σ (RelationEncoder.children_imply_parent var children p) = true ↔
  (0 < selected var σ children → σ p = true).
Proof.
  intros Hp Hpos. rewrite cnf_holds_forall, selected_pos.
  unfold RelationEncoder.children_imply_parent. rewrite Forall_forall in Hpos. split.
  - intros H (c & Hin & Hc).
    specialize (H [- var c; p]). simpl in H.
    rewrite lit_holds_neg, lit_holds_pos, Hc in H by auto. simpl in H.
    rewrite orb_false_r in H. apply H. apply list_elem_of_fmap. by exists c.
  - intros H cl (c & -> & Hin)%list_elem_of_fmap. simpl.
    rewrite lit_holds_neg, lit_holds_pos by auto.
    destruct (σ (var c)) eqn:Hc; [|done]. simpl. rewrite H; [done|by exists c].
Qed.

Lemma or_clause_holds var σ children p :
  0 < p → Forall (fun c => 0 < var c) children →
  clause_holds σ ([- p] ++ (var <$> children)) = true ↔
  (σ p = true → 0 < selected var σ children).
Proof.
  intros Hp Hpos. unfold clause_holds. rewrite existsb_app. simpl.
  rewrite lit_holds_neg, orb_false_r by done. rewrite selected_pos.
  rewrite Forall_forall in Hpos. rewrite orb_true_iff, existsb_exists. split.
  - intros [Hn|(l & Hin & Hl)] Hσ; [by rewrite Hσ in Hn|].
    apply list_elem_of_In, list_elem_of_fmap in Hin as (c & -> & Hin).
    exists c. split; [done|]. by rewrite lit_holds_pos in Hl by auto.
  - intros H. destruct (σ p); [|by left]. right.
    destruct (H eq_refl) as (c & Hin & Hc). exists (var c). split.
    + apply list_elem_of_In, list_elem_of_fmap. by exists c.
    + by rewrite lit_holds_pos by auto.
Qed.

(** X17. The clauses of a relation with one child. When the relation has
    exactly one child, the encoder returns, and the clauses of a mandatory
    relation hold exactly under the assignments that give parent and child
    the same value, those of an optional relation exactly under the
    assignments where the child is selected only if the parent is. *)
Theorem single_child_encodings var σ r child :
  RelationEncoder.get_children r = [child] →
  0 < var (RelationEncoder.get_parent r) → 0 < var child →
  ∃ m o,
    RelationEncoder.encode_mandatory var r = Ok m ∧
    RelationEncoder.encode_optional var r = Ok o ∧
    (cnf_holds σ m = true ↔ σ (var (RelationEncoder.get_parent r)) = σ (var child)) ∧
    (cnf_holds σ o = true ↔
     (σ (var child) = true → σ (var (RelationEncoder.get_parent r)) = true)).
Proof.
  intros Hch Hp Hc.
  unfold RelationEncoder.encode_mandatory, RelationEncoder.encode_optional,
    RelationEncoder.child_var.
  rewrite Hch. change ([child] !!! Z.to_nat 0) with child.
  change (negb (length [child] =? 1)%nat) with false. cbn iota.
  eexists _, _. split; [done|]. split; [done|].
  unfold cnf_holds, clause_holds. cbn [forallb existsb].
  rewrite !lit_holds_neg, !lit_holds_pos by done.
  destruct (σ (var (RelationEncoder.get_parent r))), (σ (var child)); simpl;
    intuition congruence.
Qed.

(** X18. The clauses of an or-relation. When the relation has a child,
    the encoder returns, and its clauses hold exactly under the assignments
    that select the parent if and only if they select at least one of the
    children. *)
Theorem or_encoding var σ r :
  RelationEncoder.get_type r = RelationEncoder.OR →
  RelationEncoder.get_children r ≠ [] →
  0 < var (RelationEncoder.get_parent r) →
  Forall (fun c => 0 < var c) (RelationEncoder.get_children r) →
  ∃ cs,
    RelationEncoder.encode_relation var r = Ok cs ∧
    (cnf_holds σ cs = true ↔
     (σ (var (RelationEncoder.get_parent r)) = true ↔
      0 < selected var σ (RelationEncoder.get_children r))).
Proof.
  intros Htype Hne Hp Hpos.
  unfold RelationEncoder.encode_relation, RelationEncoder.encode_or. rewrite Htype.
  assert ((length (RelationEncoder.get_children r) =? 0)%nat = false) as ->
    by (by destruct (RelationEncoder.get_children r)).
  eexists. split; [done|].
  rewrite cnf_holds_cons, andb_true_iff.
  rewrite or_clause_holds, children_imply_parent_holds by done. tauto.
Qed.

Lemma filter_ext_in {A} (P Q : A → Prop) `{∀ x, Decision (P x)} `{∀ x, Decision (Q x)}
    (l : list A) :
  (∀ x, x ∈ l → P x ↔ Q x) → filter P l = filter Q l.
Proof.
  induction l as [|a l IH]; intros Hext; [done|].
  rewrite !filter_cons, IH by (intros x Hx; apply Hext; by right).
  destruct (decide (P a)) as [Hp|Hp], (decide (Q a)) as [Hq|Hq]; try done.
  - destruct Hq. apply Hext; [by left|done].
  - destruct Hp. apply Hext; [by left|done].
Qed.

Lemma child_var_pos var children i :
  Forall (fun c => 0 < var c) children → 0 ≤ i < Z.of_nat (length children) →
  0 < RelationEncoder.child_var var children i.
Proof.
  intros Hpos Hi. unfold RelationEncoder.child_var. rewrite Forall_forall in Hpos.
  apply Hpos, list_elem_of_lookup_total_2. lia.
Qed.

Lemma elem_of_selection var σ children i :
  i ∈ selection var σ children ↔
  0 ≤ i < Z.of_nat (length children) ∧
  σ (RelationEncoder.child_var var children i) = true.
Proof. unfold selection. rewrite list_elem_of_filter, elem_of_seqZ. split; intros [? ?]; split; done || lia. Qed.

Lemma selection_sorted var σ children : StronglySorted Z.lt (selection var σ children).
Proof. apply StronglySorted_filter, StronglySorted_seqZ. Qed.

(** As many indices are selected as children. *)
Lemma length_selection var σ children :
  Z.of_nat (length (selection var σ children)) = selected var σ children.
Proof.
  unfold selection, selected, RelationEncoder.child_var. f_equal.
  induction children as [|x l IH] using rev_ind; [done|].
  rewrite length_app. simpl length. replace (length l + 1)%nat with (S (length l)) by lia.
  rewrite seqZ_S, !filter_app, !length_app. f_equal.
  - rewrite <- IH. f_equal. apply filter_ext_in. intros i Hi%elem_of_seqZ.
    rewrite lookup_total_app_l by lia. done.
  - rewrite !filter_cons, !filter_nil.
    replace (Z.to_nat (0 + Z.of_nat (length l))) with (length l) by lia.
    rewrite list_lookup_total_middle by done.
    by destruct (decide (σ (var x) = true)).
Qed.

Lemma sorted_NoDup (l : list Z) : StronglySorted Z.lt l → NoDup l.
Proof.
  induction 1 as [|a l Hl IH Ha]; constructor; [|done].
  intros Hin. rewrite Forall_forall in Ha. specialize (Ha a Hin). lia.
Qed.

(** Two ascending lists with the same elements are the same list. *)
Lemma sorted_ext (l1 : list Z) : ∀ l2,
  StronglySorted Z.lt l1 → StronglySorted Z.lt l2 →
  (∀ x, x ∈ l1 ↔ x ∈ l2) → l1 = l2.
Proof.
  induction l1 as [|a l1 IH]; intros l2 H1 H2 Hext.
  - destruct l2 as [|b l2]; [done|].
    assert (b ∈ @nil Z) by (apply Hext; by left). by apply elem_of_nil in H.
  - destruct l2 as [|b l2].
    { assert (a ∈ @nil Z) by (apply Hext; by left). by apply elem_of_nil in H. }
    apply StronglySorted_inv in H1 as [H1 Ha]. apply StronglySorted_inv in H2 as [H2 Hb].
    rewrite Forall_forall in Ha, Hb.
    assert (a = b) as <-.
    { assert (Hab : a ∈ b :: l2) by (apply Hext; by left).
      assert (Hba : b ∈ a :: l1) by (apply Hext; by left).
      apply elem_of_cons in Hab as [?|Hab]; [done|].
      apply elem_of_cons in Hba as [?|Hba]; [done|].
      specialize (Ha _ Hba). specialize (Hb _ Hab). lia. }
    f_equal. apply IH; [done..|]. intros x. split; intros Hx.
    + assert (Hx' : x ∈ a :: l2) by (apply Hext; by right).
      apply elem_of_cons in Hx' as [->|?]; [|done]. specialize (Ha _ Hx). lia.
    + assert (Hx' : x ∈ a :: l1) by (apply Hext; by right).
      apply elem_of_cons in Hx' as [->|?]; [|done]. specialize (Hb _ Hx). lia.
Qed.

Lemma pairs_holds var σ children :
  Forall (fun c => 0 < var c) children →
  cnf_holds σ (RelationEncoder.pairs var children) = true ↔ selected var σ children ≤ 1.
Proof.
  intros Hpos. rewrite <- length_selection, cnf_holds_forall.
  unfold RelationEncoder.pairs. split.
  - intros H. pose proof (selection_sorted var σ children) as Hs.
    destruct (selection var σ children) as [|a [|b l]] eqn:Hsel; [simpl; lia..|].
    exfalso.
    assert (Ha : a ∈ selection var σ children) by (rewrite Hsel; by left).
    assert (Hb : b ∈ selection var σ children) by (rewrite Hsel; right; by left).
    apply elem_of_selection in Ha as [Ha Hσa]. apply elem_of_selection in Hb as [Hb Hσb].
    apply StronglySorted_inv in Hs as [_ Hab]. apply Forall_cons in Hab as [Hab _].
    specialize (H [- RelationEncoder.child_var var children a;
                   - RelationEncoder.child_var var children b]).
    simpl in H. rewrite !lit_holds_neg, Hσa, Hσb in H by (by apply child_var_pos).
    simpl in H. discriminate H.
    apply elem_of_concat. eexists. split; [|apply list_elem_of_fmap; exists a; split;
      [done|apply elem_of_seqZ; lia]].
    apply list_elem_of_fmap. exists b. split; [done|]. apply elem_of_seqZ. lia.
  - intros Hle cl (l & Hcl & Hl)%elem_of_concat.
    apply list_elem_of_fmap in Hl as (i & -> & Hi%elem_of_seqZ).
    apply list_elem_of_fmap in Hcl as (j & -> & Hj%elem_of_seqZ).
    simpl. rewrite !lit_holds_neg by (apply child_var_pos; [done|lia]).
    destruct (σ (RelationEncoder.child_var var children i)) eqn:Hσi; [|done].
    destruct (σ (RelationEncoder.child_var var children j)) eqn:Hσj; [|done].
    exfalso.
    assert (Hsub : [i; j] ⊆+ selection var σ children).
    { apply NoDup_submseteq.
      - apply sorted_NoDup. repeat constructor. lia.
      - intros x [-> | [-> | ?%elem_of_nil]%elem_of_cons]%elem_of_cons; [| |done];
          apply elem_of_selection; split; (done || lia). }
    apply submseteq_length in Hsub. simpl in Hsub. lia.
Qed.

(** X19. The clauses of an alternative relation. When the relation has
    at least two children, the encoder returns, and its clauses hold exactly
    under the assignments that select one child when the parent is selected
    and none when it is not. *)
Theorem alternative_encoding var σ r :
  RelationEncoder.get_type r = RelationEncoder.ALTERNATIVE →
  (2 ≤ length (RelationEncoder.get_children r))%nat →
  0 < var (RelationEncoder.get_parent r) →
  Forall (fun c => 0 < var c) (RelationEncoder.get_children r) →
  ∃ cs,
    RelationEncoder.encode_relation var r = Ok cs ∧
    (cnf_holds σ cs = true ↔
     selected var σ (RelationEncoder.get_children r)
     = if σ (var (RelationEncoder.get_parent r)) then 1 else 0).
Proof.
  intros Htype Hlen Hp Hpos.
  unfold RelationEncoder.encode_relation, RelationEncoder.encode_alternative. rewrite Htype.
  destruct (Nat.ltb_spec (length (RelationEncoder.get_children r)) 2); [lia|].
  eexists. split; [done|].
  rewrite cnf_holds_cons, cnf_holds_app, !andb_true_iff.
  rewrite or_clause_holds, pairs_holds, children_imply_parent_holds by done.
  pose proof (selected_bounds var σ (RelationEncoder.get_children r)).
  destruct (σ (var (RelationEncoder.get_parent r))); split.
  - intros (H1 & H2 & _). specialize (H1 eq_refl). lia.
  - intros ->. split_and!; [lia|lia|done].
  - intros (_ & H2 & H3).
    destruct (decide (0 < selected var σ (RelationEncoder.get_children r))) as [Hs|]; [|lia].
    by specialize (H3 Hs).
  - intros ->. split_and!; [done|lia|lia].
Qed.

(** The literals that a combination adds to its clause are all false
    exactly when the combination is the selection. *)
Lemma combination_lits_fail var σ children (combo : list Z) :
  Forall (fun c => 0 < var c) children →
  existsb (lit_holds σ)
    ((fun i => if bool_decide (i ∈ combo)
               then - RelationEncoder.child_var var children i
               else RelationEncoder.child_var var children i)
     <$> seqZ 0 (Z.of_nat (length children))) = false ↔
  ∀ i, 0 ≤ i < Z.of_nat (length children) →
       (i ∈ combo ↔ σ (RelationEncoder.child_var var children i) = true).
Proof.
  intros Hpos. rewrite <- not_true_iff_false, existsb_exists. split.
  - intros H i Hi.
    assert (Hl : lit_holds σ (if bool_decide (i ∈ combo)
                              then - RelationEncoder.child_var var children i
                              else RelationEncoder.child_var var children i) ≠ true).
    { intros Hl. apply H. eexists. split; [|exact Hl].
      apply list_elem_of_In, list_elem_of_fmap. exists i. split; [done|].
      apply elem_of_seqZ. lia. }
    pose proof (child_var_pos var children i Hpos Hi) as Hv.
    destruct (bool_decide_reflect (i ∈ combo)) as [Hin|Hin].
    + rewrite lit_holds_neg in Hl by done.
      destruct (σ (RelationEncoder.child_var var children i)); [done|]. by destruct Hl.
    + rewrite lit_holds_pos in Hl by done.
      destruct (σ (RelationEncoder.child_var var children i)); [done|]. split; [done|discriminate].
  - intros H (l & Hin & Hl).
    apply list_elem_of_In, list_elem_of_fmap in Hin as (i & -> & Hi%elem_of_seqZ).
    pose proof (child_var_pos var children i Hpos ltac:(lia)) as Hv.
    specialize (H i ltac:(lia)).
    destruct (bool_decide_reflect (i ∈ combo)) as [Hin|Hin].
    + rewrite lit_holds_neg in Hl by done. apply H in Hin. by rewrite Hin in Hl.
    + rewrite lit_holds_pos in Hl by done. by apply H in Hl.
Qed.

Lemma combination_clause_holds var σ children p lo hi count (combo : list Z) :
  clause_holds σ (RelationEncoder.combination_clause var children p lo hi count combo)
  = lit_holds σ (first_literal p lo hi count) ||
    existsb (lit_holds σ)
      ((fun i => if bool_decide (i ∈ combo)
                 then - RelationEncoder.child_var var children i
                 else RelationEncoder.child_var var children i)
       <$> seqZ 0 (Z.of_nat (length children))).
Proof.
  unfold RelationEncoder.combination_clause, first_literal, clause_holds.
  rewrite existsb_app. f_equal.
  destruct (_ || _); [simpl; by rewrite orb_false_r|].
  destruct (0 <? count); simpl; by rewrite orb_false_r.
Qed.

(** The clauses for all the combinations of all the counts hold exactly
    when the first literal of the clauses for the number of selected
    children does. *)
Lemma counted_clauses_hold var σ children p lo hi :
  Forall (fun c => 0 < var c) children →
  let n := Z.of_nat (length children) in
  cnf_holds σ
    (concat ((fun count =>
                RelationEncoder.combination_clause var children p lo hi count
                <$> RelationEncoder.generate_combinations n count)
             <$> seqZ 0 (n + 1))) = true ↔
  lit_holds σ (first_literal p lo hi (selected var σ children)) = true.
Proof.
  intros Hpos n. rewrite cnf_holds_forall.
  pose proof (selection_sorted var σ children) as Hsorted.
  pose proof (length_selection var σ children) as Hlen.
  pose proof (selected_bounds var σ children) as Hb.
  assert (Hrange : Forall (fun i => 0 ≤ i < n) (selection var σ children)).
  { apply Forall_forall. intros i Hi. by apply elem_of_selection in Hi as [? _]. }
  split.
  - intros H.
    specialize (H (RelationEncoder.combination_clause var children p lo hi
                     (selected var σ children) (selection var σ children))).
    rewrite combination_clause_holds in H.
    assert (Hfail : existsb (lit_holds σ)
      ((fun i => if bool_decide (i ∈ selection var σ children)
                 then - RelationEncoder.child_var var children i
                 else RelationEncoder.child_var var children i)
       <$> seqZ 0 (Z.of_nat (length children))) = false).
    { apply combination_lits_fail; [done|]. intros i Hi.
      rewrite elem_of_selection. tauto. }
    rewrite Hfail, orb_false_r in H. apply H.
    apply elem_of_concat.
    exists (RelationEncoder.combination_clause var children p lo hi (selected var σ children)
            <$> RelationEncoder.generate_combinations n (selected var σ children)).
    split.
    + apply list_elem_of_fmap. exists (selection var σ children). split; [done|].
      apply elem_of_generate_combinations; [lia|]. by split_and!.
    + apply list_elem_of_fmap. exists (selected var σ children). split; [done|].
      apply elem_of_seqZ. fold n in Hb. lia.
  - intros Hfirst cl (l & Hcl & Hl)%elem_of_concat.
    apply list_elem_of_fmap in Hl as (count & -> & Hcount).
    apply list_elem_of_fmap in Hcl as (combo & -> & Hcombo).
    apply elem_of_generate_combinations in Hcombo as (Hclen & Hcs & Hcr); [|lia].
    rewrite combination_clause_holds.
    destruct (existsb _ _) eqn:Hlits; [by rewrite orb_true_r|].
    rewrite orb_false_r.
    rewrite combination_lits_fail in Hlits by done.
    assert (combo = selection var σ children) as ->.
    { apply sorted_ext; [done..|]. intros i. rewrite elem_of_selection. split.
      - intros Hi. rewrite Forall_forall in Hcr. specialize (Hcr i Hi). simpl in Hcr.
        split; [done|]. by apply Hlits.
      - intros [Hi Hσ]. by apply Hlits. }
    by rewrite <- Hclen, Hlen.
Qed.

(** X20. The clauses of a cardinality relation. The encoder returns for
    every relation, and its clauses hold exactly under the assignments that
    select the parent if and only if they select at least one child, and
    with the parent a number of children within the bounds. So under these
    clauses a selected parent has at least one selected child also when the
    lower bound is [0], and a relation without children makes its parent
    unselectable. *)
Theorem cardinality_encoding var σ r :
  RelationEncoder.get_type r = RelationEncoder.CARDINALITY →
  0 < var (RelationEncoder.get_parent r) →
  Forall (fun c => 0 < var c) (RelationEncoder.get_children r) →
  ∃ cs,
    RelationEncoder.encode_relation var r = Ok cs ∧
    (cnf_holds σ cs = true ↔
     (σ (var (RelationEncoder.get_parent r)) = true ↔
      0 < selected var σ (RelationEncoder.get_children r)) ∧
     (σ (var (RelationEncoder.get_parent r)) = true →
      RelationEncoder.get_card_min r ≤ selected var σ (RelationEncoder.get_children r)
        ≤ RelationEncoder.get_card_max r)).
Proof.
  intros Htype Hp Hpos.
  unfold RelationEncoder.encode_relation, RelationEncoder.encode_cardinality. rewrite Htype.
  eexists. split; [done|].
  rewrite cnf_holds_app, andb_true_iff.
  rewrite counted_clauses_hold, children_imply_parent_holds by done.
  unfold first_literal.
  set (s := selected var σ (RelationEncoder.get_children r)).
  set (p := var (RelationEncoder.get_parent r)) in *.
  destruct (Z.ltb_spec s (RelationEncoder.get_card_min r));
    destruct (Z.ltb_spec (RelationEncoder.get_card_max r) s);
    destruct (Z.ltb_spec 0 s); simpl orb; cbn iota;
    rewrite ?lit_holds_neg, ?lit_holds_pos by done;
    destruct (σ p); simpl; intuition (try discriminate; try lia).
Qed.

Lemma single_child_encodings_witness :
  let r := {| RelationEncoder.get_type := RelationEncoder.MANDATORY;
              RelationEncoder.get_parent := "Car";
              RelationEncoder.get_children := ["Gas"];
              RelationEncoder.get_card_min := 1;
              RelationEncoder.get_card_max := 1 |} in
  RelationEncoder.encode_relation Examples.car_var r = Ok [[-1; 2]; [-2; 1]] ∧
  ∃ m o,
    RelationEncoder.encode_mandatory Examples.car_var r = Ok m ∧
    RelationEncoder.encode_optional Examples.car_var r = Ok o ∧
    (cnf_holds (Examples.only [1]) m = true ↔
     Examples.only [1] 1 = Examples.only [1] 2) ∧
    (cnf_holds (Examples.only [1]) o = true ↔
     (Examples.only [1] 2 = true → Examples.only [1] 1 = true)).
Proof.
  intros r. split; [reflexivity|].
  apply (single_child_encodings Examples.car_var (Examples.only [1]) r "Gas");
    [reflexivity|reflexivity|reflexivity].
Defined.

Lemma or_encoding_witness :
  ∃ cs,
    RelationEncoder.encode_relation Examples.car_var
      (Examples.engines RelationEncoder.OR 1 2) = Ok cs ∧
    cs = [[-1; 2; 3]; [-2; 1]; [-3; 1]] ∧
    (cnf_holds (Examples.only [1; 3]) cs = true ↔
     (Examples.only [1; 3] 1 = true ↔
      0 < selected Examples.car_var (Examples.only [1; 3]) ["Gas"; "Electric"])).
Proof.
  destruct (or_encoding Examples.car_var (Examples.only [1; 3])
              (Examples.engines RelationEncoder.OR 1 2)) as (cs & Hcs & Hiff);
    [reflexivity|done|reflexivity|repeat constructor|].
  exists cs. split; [exact Hcs|]. split; [|exact Hiff].
  vm_compute in Hcs. by injection Hcs as <-.
Defined.

Lemma alternative_encoding_witness :
  ∃ cs,
    RelationEncoder.encode_relation Examples.car_var
      (Examples.engines RelationEncoder.ALTERNATIVE 1 1) = Ok cs ∧
    cs = [[-1; 2; 3]; [-2; -3]; [-2; 1]; [-3; 1]] ∧
    (cnf_holds (Examples.only [1; 3]) cs = true ↔
     selected Examples.car_var (Examples.only [1; 3]) ["Gas"; "Electric"]
     = if Examples.only [1; 3] 1 then 1 else 0).
Proof.
  destruct (alternative_encoding Examples.car_var (Examples.only [1; 3])
              (Examples.engines RelationEncoder.ALTERNATIVE 1 1)) as (cs & Hcs & Hiff);
    [reflexivity|simpl; lia|reflexivity|repeat constructor|].
  exists cs. split; [exact Hcs|]. split; [|exact Hiff].
  vm_compute in Hcs. by injection Hcs as <-.
Defined.

Lemma cardinality_encoding_witness :
  ∃ cs,
    RelationEncoder.encode_relation Examples.car_var
      (Examples.engines RelationEncoder.CARDINALITY 0 2) = Ok cs ∧
    cs = [[-1; 2; 3]; [1; -2; 3]; [1; 2; -3]; [1; -2; -3]; [-2; 1]; [-3; 1]] ∧
    cnf_holds (Examples.only [1]) cs = false ∧
    (cnf_holds (Examples.only [1]) cs = true ↔
     (Examples.only [1] 1 = true ↔
      0 < selected Examples.car_var (Examples.only [1]) ["Gas"; "Electric"]) ∧
     (Examples.only [1] 1 = true →
      0 ≤ selected Examples.car_var (Examples.only [1]) ["Gas"; "Electric"] ≤ 2)).
Proof.
  destruct (cardinality_encoding Examples.car_var (Examples.only [1])
              (Examples.engines RelationEncoder.CARDINALITY 0 2)) as (cs & Hcs & Hiff);
    [reflexivity|reflexivity|repeat constructor|].
  exists cs. split; [exact Hcs|].
  vm_compute in Hcs. injection Hcs as <-.
  split; [reflexivity|]. split; [reflexivity|exact Hiff].
Defined.


(** ** The arguments of [uvl2dimacs] *)

Lemma parse_flags_spec args : ∀ mode0 mode' rest,
  Uvl2dimacs.parse_flags args mode0 = inr (mode', rest) ↔
  ∃ flags,
    args = flags ++ rest ∧
    Forall (fun f => f = "-t" ∨ f = "-s") flags ∧
    match rest with
    | [] => True
    | a :: _ => Ascii.eqb (first_char a) "-" = false
    end ∧
    mode' = match last flags with
            | Some f => if String.eqb f "-t" then Uvl2dimacs.TSEITIN
                        else Uvl2dimacs.STRAIGHTFORWARD
            | None => mode0
            end.
Proof.
  induction args as [|flag args IH]; intros mode0 mode' rest; simpl.
  - split.
    + intros [= <- <-]. exists []. by split_and!.
    + intros (flags & Heq & _ & _ & ->). symmetry in Heq.
      apply app_eq_nil in Heq as [-> ->]. done.
  - destruct (Ascii.eqb (first_char flag) "-") eqn:Hdash.
    + assert (Hstep : ∀ m, (flag = "-t" ∨ flag = "-s") →
                (if String.eqb flag "-t" then Uvl2dimacs.TSEITIN
                 else Uvl2dimacs.STRAIGHTFORWARD) = m →
                Uvl2dimacs.parse_flags args m = inr (mode', rest) ↔
                ∃ flags, flag :: args = flags ++ rest ∧
                  Forall (fun f => f = "-t" ∨ f = "-s") flags ∧
                  match rest with
                  | [] => True
                  | a :: _ => Ascii.eqb (first_char a) "-" = false
                  end ∧
                  mode' = match last flags with
                          | Some f => if String.eqb f "-t" then Uvl2dimacs.TSEITIN
                                      else Uvl2dimacs.STRAIGHTFORWARD
                          | None => mode0
                          end).
      { intros m Hflag Hm. rewrite IH. split.
        - intros (flags & -> & Hall & Hrest & ->). exists (flag :: flags).
          split_and!; [done|by constructor|done|].
          rewrite last_cons. by destruct (last flags).
        - intros (flags & Heq & Hall & Hrest & ->).
          destruct flags as [|f flags].
          + simpl in Heq. subst rest. by rewrite Hdash in Hrest.
          + injection Heq as <- ->. apply Forall_cons in Hall as [_ Hall].
            exists flags. split_and!; [done..|].
            rewrite last_cons. by destruct (last flags). }
      destruct (String.eqb_spec flag "-t") as [->|Ht]; [by apply Hstep; [left|]|].
      destruct (String.eqb_spec flag "-s") as [->|Hs]; [by apply Hstep; [right|]|].
      split; [done|]. intros (flags & Heq & Hall & Hrest & _).
      destruct flags as [|f flags].
      * simpl in Heq. subst rest. by rewrite Hdash in Hrest.
      * injection Heq as <- _. apply Forall_cons in Hall as [[?|?] _]; done.
    + split.
      * intros [= <- <-]. exists []. split_and!; [done|constructor|done|done].
      * intros (flags & Heq & Hall & Hrest & ->).
        destruct flags as [|f flags]; [simpl in Heq; by subst rest|].
        injection Heq as <- _. apply Forall_cons in Hall as [[-> | ->] _]; done.
Qed.

(** X21. The arguments that [uvl2dimacs] accepts. The call goes on to the
    conversion exactly when the arguments after the program name are any
    number of flags [-t] and [-s] followed by two more, the input and the
    output file, the first of which does not start with a dash; the mode is
    that of the last flag, and the straightforward one without a flag. In
    every other case, a flag after the input file among them, the program
    exits with the code 1. *)
Theorem uvl2dimacs_arguments argv :
  match Uvl2dimacs.parse_arguments argv with
  | inr a =>
      ∃ flags,
        tail argv = flags ++ [Uvl2dimacs.input_file a; Uvl2dimacs.output_file a] ∧
        Forall (fun f => f = "-t" ∨ f = "-s") flags ∧
        Ascii.eqb (first_char (Uvl2dimacs.input_file a)) "-" = false ∧
        Uvl2dimacs.verbose a = true ∧
        Uvl2dimacs.mode a = match last flags with
                            | Some f => if String.eqb f "-t" then Uvl2dimacs.TSEITIN
                                        else Uvl2dimacs.STRAIGHTFORWARD
                            | None => Uvl2dimacs.STRAIGHTFORWARD
                            end
  | inl code =>
      code = 1 ∧
      ¬ ∃ flags input output,
          tail argv = flags ++ [input; output] ∧
          Forall (fun f => f = "-t" ∨ f = "-s") flags ∧
          Ascii.eqb (first_char input) "-" = false
  end.
Proof.
  unfold Uvl2dimacs.parse_arguments.
  destruct (Uvl2dimacs.parse_flags (tail argv) Uvl2dimacs.STRAIGHTFORWARD)
    as [code|[mode' rest]] eqn:Hflags.
  - split.
    + clear -Hflags. revert Hflags. generalize Uvl2dimacs.STRAIGHTFORWARD.
      induction (tail argv) as [|flag args IH]; intros m; simpl; [done|].
      destruct (Ascii.eqb _ _); [|done].
      destruct (String.eqb flag "-t"); [apply IH|].
      destruct (String.eqb flag "-s"); [apply IH|]. by intros [= <-].
    + intros (flags & input & output & Heq & Hall & Hdash).
      assert (Hok : Uvl2dimacs.parse_flags (tail argv) Uvl2dimacs.STRAIGHTFORWARD
                    = inr (match last flags with
                           | Some f => if String.eqb f "-t" then Uvl2dimacs.TSEITIN
                                       else Uvl2dimacs.STRAIGHTFORWARD
                           | None => Uvl2dimacs.STRAIGHTFORWARD
                           end, [input; output])).
      { apply parse_flags_spec. exists flags. by split_and!. }
      by rewrite Hok in Hflags.
  - apply parse_flags_spec in Hflags as (flags & Heq & Hall & Hrest & ->).
    destruct rest as [|input [|output [|x rest]]].
    + split; [done|]. intros (flags' & input & output & Heq' & Hall' & Hdash').
      rewrite app_nil_r in Heq. subst flags. rewrite Heq' in Hall.
      apply Forall_app in Hall as [_ Hall]. apply Forall_cons in Hall as [Hin _].
      destruct Hin as [-> | ->]; done.
    + split; [done|]. intros (flags' & input' & output & Heq' & Hall' & Hdash').
      rewrite Heq' in Heq.
      replace (flags' ++ [input'; output]) with ((flags' ++ [input']) ++ [output]) in Heq
        by (by rewrite <- app_assoc).
      apply app_inj_tail in Heq as [Heq <-]. rewrite <- Heq in Hall.
      apply Forall_app in Hall as [_ Hall]. apply Forall_cons in Hall as [Hin _].
      destruct Hin as [-> | ->]; done.
    + exists flags. by split_and!.
    + split; [done|]. intros (flags' & input' & output' & Heq' & Hall' & Hdash').
      rewrite Heq' in Heq. clear Heq'.
      assert (Hlen : (length flags' + 2 = length flags + 3 + length rest)%nat).
      { apply (f_equal length) in Heq. rewrite !length_app in Heq. simpl in Heq. lia. }
      assert (Hin : input ∈ flags').
      { assert (Hl : (flags' ++ [input'; output']) !! length flags = Some input)
          by (rewrite Heq; by rewrite list_lookup_middle).
        rewrite lookup_app_l in Hl by lia. by eapply list_elem_of_lookup_2. }
      rewrite Forall_forall in Hall'. destruct (Hall' _ Hin) as [-> | ->]; done.
Qed.


(** ** The analysis behind [Strong4VMAPI] *)

Lemma separate_spec lits : ∀ core dead,
  Strong4VMAPI.separate lits core dead
  = (core ++ filter (fun lit => 0 < lit) lits,
     dead ++ (Z.opp <$> filter (fun lit => lit ≤ 0) lits)).
Proof.
  induction lits as [|lit lits IH]; intros core dead; simpl.
  - by rewrite !app_nil_r.
  - rewrite !filter_cons. destruct (Z.ltb_spec 0 lit).
    + rewrite IH. destruct (decide (0 < lit)); [|lia]. destruct (decide (lit ≤ 0)); [lia|].
      by rewrite <- app_assoc.
    + rewrite IH. destruct (decide (0 < lit)); [lia|]. destruct (decide (lit ≤ 0)); [|lia].
      by rewrite <- app_assoc.
Qed.

Lemma generate_graphs_keeps_filter e file out det T st r :
  generate_graphs e file out det T st = Ok r →
  filter_auxiliary (impl r) = filter_auxiliary st.
Proof.
  unfold generate_graphs, generate_graphs_impl, failed. intros Hrun.
  set (path := dimacs_path_of file) in *.
  destruct (read_dimacs e 0 path) as [f|]; [|by injection Hrun as <-].
  destruct (create_backbone_detector f det) as [d|]; [|by injection Hrun as <-].
  cbn [num_variables set_num_variables num_clauses reset filter_auxiliary
       set_num_clauses set_global_backbone] in Hrun.
  destruct (read_clause_count e path 0) as [msg|clauses]; [by injection Hrun as <-|].
  res_simpl.
  destruct (new_vector (get_max_variable f + 1) false) as [aux0|]; [|done].
  destruct (if filter_auxiliary st then read_feature_names e path aux0 else Ok (inr aux0))
    as [[msg|aux]|]; [by injection Hrun as <-| |done].
  destruct (to_indexed (get_max_variable f) (compute_backbone d)) as [bb|]; [|done].
  destruct (T <? 1); [by injection Hrun as <-|].
  destruct (max_threads e <? T); [by injection Hrun as <-|].
  destruct (extract_edges e d path det (get_max_variable f) bb aux _ T)
    as [[msg|[req exc]]|]; [by injection Hrun as <-| |done].
  destruct (name_lines bb aux ([], [], []) (default [] (file_lines e path)))
    as [[[fs cs] ds]|]; [|done].
  destruct (if _ && _ then _ else _); [by injection Hrun as <-|].
  destruct (write_files _ _ _) as [[msg|] written]; by injection Hrun as <-.
Qed.

(** What a call that returned [true] went through. *)
Lemma generate_graphs_ok_inv e file out det T st r :
  generate_graphs e file out det T st = Ok r → ok r = true →
  ∃ f d bb g,
    read_dimacs e 0 (dimacs_path_of file) = Some f ∧
    create_backbone_detector f det = Some d ∧
    to_indexed (get_max_variable f) (compute_backbone d) = Ok bb ∧
    get_num_variables (impl r) = get_max_variable f ∧
    get_global_backbone (impl r) = compute_backbone d ∧
    get_error_message (impl r) = EmptyString ∧
    graphs r = Some g ∧
    files r = rendered <$> output_files
                (output_dir_of file out +:+ "/" +:+ get_basename file)
                (get_max_variable f) g.
Proof.
  unfold generate_graphs, generate_graphs_impl, failed. intros Hrun Hok.
  fold (output_dir_of file out) in Hrun.
  set (dir := output_dir_of file out) in *.
  set (path := dimacs_path_of file) in *.
  destruct (read_dimacs e 0 path) as [f|] eqn:Hf;
    [|injection Hrun as <-; discriminate Hok].
  destruct (create_backbone_detector f det) as [d|] eqn:Hd;
    [|injection Hrun as <-; discriminate Hok].
  cbn [num_variables set_num_variables num_clauses reset filter_auxiliary
       set_num_clauses set_global_backbone] in Hrun.
  destruct (read_clause_count e path 0) as [msg|clauses];
    [injection Hrun as <-; discriminate Hok|].
  res_simpl.
  destruct (new_vector (get_max_variable f + 1) false) as [aux0|]; [|done].
  destruct (if filter_auxiliary st then read_feature_names e path aux0 else Ok (inr aux0))
    as [[msg|aux]|]; [injection Hrun as <-; discriminate Hok| |done].
  destruct (to_indexed (get_max_variable f) (compute_backbone d)) as [bb|] eqn:Hbb; [|done].
  destruct (T <? 1); [injection Hrun as <-; discriminate Hok|].
  destruct (max_threads e <? T); [injection Hrun as <-; discriminate Hok|].
  destruct (extract_edges e d path det (get_max_variable f) bb aux _ T)
    as [[msg|[req exc]]|]; [injection Hrun as <-; discriminate Hok| |done].
  destruct (name_lines bb aux ([], [], []) (default [] (file_lines e path)))
    as [[[fs cs] ds]|]; [|done].
  destruct (if _ && _ then _ else _); [injection Hrun as <-; discriminate Hok|].
  destruct (write_files _ _ _) as [[msg|] written] eqn:Hw;
    [injection Hrun as <-; discriminate Hok|].
  injection Hrun as <-.
  apply write_files_prefix in Hw as (k & -> & _ & ->).
  eexists f, d, bb, _. split_and!; done.
Qed.

(** The literals that [scatter] accepts are indices of the array. *)
Lemma scatter_bounds lits : ∀ line line',
  scatter line lits = Ok line' →
  Forall (fun lit => Z.abs lit < Z.of_nat (length line)) lits.
Proof.
  induction lits as [|lit lits IH]; intros line line'; simpl; [by constructor|].
  destruct (Z.leb_spec (Z.of_nat (length line)) (Z.abs lit)) as [|Hlen]; [done|].
  intros H. constructor; [done|]. apply IH in H. by rewrite length_insert in H.
Qed.

Lemma to_indexed_bounds n lits line :
  to_indexed n lits = Ok line → Forall (fun lit => Z.abs lit ≤ n) lits.
Proof.
  unfold to_indexed, new_vector. res_simpl.
  destruct (Z.ltb_spec (n + 1) 0) as [|Hn]; [done|].
  intros H%scatter_bounds. rewrite length_replicate in H.
  eapply Forall_impl; [exact H|]. intros lit Hl. simpl in Hl. lia.
Qed.

(** What a successful analysis went through. *)
Lemma perform_analysis_success m config result :
  Strong4VMAPI.perform_analysis m config = Ok result →
  Strong4VMAPI.success result = true →
  let dir := if (size (Strong4VMAPI.output_dir config) =? 0)%nat
             then Strong4VMAPI.get_directory (Strong4VMAPI.input_file config)
             else Strong4VMAPI.output_dir config in
  let base := Strong4VMAPI.get_basename (Strong4VMAPI.input_file config) in
  let file := match Strong4VMAPI.effective_type config with
              | Strong4VMAPI.UVL => dir +:+ "/" +:+ base +:+ ".dimacs"
              | _ => Strong4VMAPI.input_file config
              end in
  Strong4VMAPI.validate_configuration m config = EmptyString ∧
  ∃ r,
    generate_graphs (Strong4VMAPI.sys m) file dir
      (Strong4VMAPI.detector_to_string (Strong4VMAPI.detector config))
      (Strong4VMAPI.num_threads config) Impl_new = Ok r ∧
    ok r = true ∧
    Strong4VMAPI.error_message result = EmptyString ∧
    Strong4VMAPI.global_backbone result = get_global_backbone (impl r) ∧
    (Strong4VMAPI.core_features result, Strong4VMAPI.dead_features result)
      = Strong4VMAPI.separate (get_global_backbone (impl r)) [] [] ∧
    (Strong4VMAPI.effective_type config = Strong4VMAPI.DIMACS →
     Strong4VMAPI.num_variables result = get_num_variables (impl r)) ∧
    Strong4VMAPI.core_features_file result = dir +:+ "/" +:+ base +:+ "__core.txt" ∧
    Strong4VMAPI.dead_features_file result = dir +:+ "/" +:+ base +:+ "__dead.txt" ∧
    Strong4VMAPI.requires_graph_file result = dir +:+ "/" +:+ base +:+ "__requires.net" ∧
    Strong4VMAPI.excludes_graph_file result = dir +:+ "/" +:+ base +:+ "__excludes.net".
Proof.
  intros Hrun Hok dir base file. unfold Strong4VMAPI.perform_analysis in Hrun.
  destruct (size (Strong4VMAPI.validate_configuration m config) =? 0)%nat eqn:Hval;
    simpl negb in Hrun; cbn iota in Hrun; [|by injection Hrun as <-].
  fold dir base in Hrun.
  split; [by destruct (Strong4VMAPI.validate_configuration m config)|].
  destruct (if negb (path_exists _ dir) then _ else None); [by injection Hrun as <-|].
  fold file in Hrun.
  destruct (match Strong4VMAPI.effective_type config with
            | Strong4VMAPI.UVL => negb _
            | _ => false
            end); [by injection Hrun as <-|].
  res_simpl.
  destruct (generate_graphs _ file dir _ _ Impl_new) as [r|] eqn:Hr; [|done].
  destruct (ok r) eqn:Hokr; simpl negb in Hrun; cbn iota in Hrun;
    [|injection Hrun as <-; discriminate Hok].
  destruct (Strong4VMAPI.separate _ [] []) as [core dead] eqn:Hsep.
  injection Hrun as <-. exists r. cbn. split_and!; try done.
  by intros ->.
Qed.

Lemma append_nonempty c s t : String c s +:+ t ≠ EmptyString.
Proof. change (String c s +:+ t) with (String c (s +:+ t)). done. Qed.

(** X22. An analysis reports success exactly when it leaves the error
    message empty, and a failed analysis reports nothing of the formula:
    its backbone and its lists of core and dead features are empty and it
    names no graph and no feature file, whatever the graph generation wrote
    before it failed. *)
Theorem analysis_success_iff_no_error_message m config result :
  Strong4VMAPI.perform_analysis m config = Ok result →
  (Strong4VMAPI.success result = true ↔
   Strong4VMAPI.error_message result = EmptyString) ∧
  (Strong4VMAPI.success result = false →
   Strong4VMAPI.global_backbone result = [] ∧
   Strong4VMAPI.core_features result = [] ∧
   Strong4VMAPI.dead_features result = [] ∧
   Strong4VMAPI.core_features_file result = EmptyString ∧
   Strong4VMAPI.dead_features_file result = EmptyString ∧
   Strong4VMAPI.requires_graph_file result = EmptyString ∧
   Strong4VMAPI.excludes_graph_file result = EmptyString).
Proof.
  intros Hrun. unfold Strong4VMAPI.perform_analysis in Hrun.
  destruct (size (Strong4VMAPI.validate_configuration m config) =? 0)%nat eqn:Hval;
    simpl negb in Hrun; cbn iota in Hrun.
  2:{ injection Hrun as <-. cbn. split; [|done]. split; [done|].
      intros Hm. by rewrite Hm in Hval. }
  destruct (if negb (path_exists _ _) then _ else None).
  { injection Hrun as <-. cbn. split; [|done]. split; [done|].
    intros Hm. by apply append_nonempty in Hm. }
  destruct (match Strong4VMAPI.effective_type config with
            | Strong4VMAPI.UVL => negb _
            | _ => false
            end).
  { injection Hrun as <-. cbn. split; [|done]. split; [done|].
    intros Hm. by apply append_nonempty in Hm. }
  res_simpl.
  destruct (generate_graphs _ _ _ _ _ Impl_new) as [r|]; [|done].
  destruct (ok r); simpl negb in Hrun; cbn iota in Hrun.
  - destruct (Strong4VMAPI.separate _ [] []) as [core dead].
    injection Hrun as <-. cbn. split; [done|]. done.
  - injection Hrun as <-.
    split.
    + split; [done|]. intros Hm. by apply append_nonempty in Hm.
    + intros _. by destruct (Strong4VMAPI.effective_type config).
Qed.

(** X23. The core and the dead features of a successful analysis are read
    off the global backbone in its order: the core features are its
    positive literals, the dead features the variables of its other
    literals. For a DIMACS input every one of them is a variable counted by
    [num_variables]; a literal [0] of the backbone would be listed as the
    dead feature [0]. *)
Theorem analysis_core_and_dead m config result :
  Strong4VMAPI.perform_analysis m config = Ok result →
  Strong4VMAPI.success result = true →
  Strong4VMAPI.core_features result
    = filter (fun lit => 0 < lit) (Strong4VMAPI.global_backbone result) ∧
  Strong4VMAPI.dead_features result
    = Z.opp <$> filter (fun lit => lit ≤ 0) (Strong4VMAPI.global_backbone result) ∧
  (Strong4VMAPI.effective_type config = Strong4VMAPI.DIMACS →
   Forall (fun v => 1 ≤ v ≤ Strong4VMAPI.num_variables result)
          (Strong4VMAPI.core_features result) ∧
   Forall (fun v => 0 ≤ v ≤ Strong4VMAPI.num_variables result)
          (Strong4VMAPI.dead_features result)).
Proof.
  intros Hrun Hok.
  destruct (perform_analysis_success _ _ _ Hrun Hok)
    as (_ & r & Hr & Hokr & _ & Hbb & Hsep & Hn & _).
  rewrite separate_spec in Hsep. simpl in Hsep. injection Hsep as Hcore Hdead.
  rewrite Hbb, Hcore, Hdead. split; [done|]. split; [done|]. intros Hty.
  rewrite (Hn Hty).
  destruct (generate_graphs_ok_inv _ _ _ _ _ _ _ Hr Hokr)
    as (f & d & bb & g & _ & _ & Hidx & -> & -> & _).
  apply to_indexed_bounds in Hidx. rewrite Forall_forall in Hidx.
  split; apply Forall_forall.
  - intros v [Hv Hin]%list_elem_of_filter. apply Hidx in Hin. lia.
  - intros v (lit & -> & [Hv Hin]%list_elem_of_filter)%list_elem_of_fmap.
    apply Hidx in Hin. lia.
Qed.

(** X24. An input that the analysis takes for DIMACS but whose name does
    not end in [.dimacs], like [m.cnf]: the validation looks for the input
    itself, the formula is loaded from the input path with [.dimacs]
    appended. A successful analysis has found both. *)
Theorem analysis_reads_the_extended_path m config result :
  Strong4VMAPI.perform_analysis m config = Ok result →
  Strong4VMAPI.success result = true →
  Strong4VMAPI.effective_type config = Strong4VMAPI.DIMACS →
  has_dimacs_suffix (Strong4VMAPI.input_file config) = false →
  path_exists (Strong4VMAPI.sys m) (Strong4VMAPI.input_file config) = true ∧
  is_Some (read_dimacs (Strong4VMAPI.sys m) 0
             (Strong4VMAPI.input_file config +:+ ".dimacs")).
Proof.
  intros Hrun Hok Hty Hsuf.
  destruct (perform_analysis_success _ _ _ Hrun Hok)
    as (Hval & r & Hr & Hokr & _).
  split.
  - unfold Strong4VMAPI.validate_configuration in Hval.
    destruct (size _ =? 0)%nat; [done|].
    destruct (path_exists _ _); [done|]. simpl in Hval.
    by apply append_nonempty in Hval.
  - rewrite Hty in Hr.
    destruct (generate_graphs_ok_inv _ _ _ _ _ _ _ Hr Hokr) as (f & _ & _ & _ & Hf & _).
    unfold dimacs_path_of in Hf. rewrite Hsuf in Hf. by exists f.
Qed.

(** ** The names of the files, as the two layers build them *)

Lemma last_component_no_slash t : ∀ acc i,
  find_last_slash_from i t = None → Strong4vm.last_component acc t = acc.
Proof.
  induction t as [|c t IH]; intros acc i; simpl; [done|].
  destruct (find_last_slash_from (S i) t) eqn:Hrec; [done|].
  destruct (Ascii.eqb c "/") eqn:Hc; simpl; [done|]. intros _. by eapply IH.
Qed.

Lemma last_component_joined d t : ∀ acc,
  find_last_slash t = None →
  Strong4vm.last_component acc (d +:+ "/" +:+ t) = t.
Proof.
  intros acc Ht. revert acc. induction d as [|c d IH]; intros acc.
  - change (EmptyString +:+ "/" +:+ t) with (String "/" t). simpl.
    by eapply last_component_no_slash.
  - change (String c d +:+ "/" +:+ t) with (String c (d +:+ "/" +:+ t)). simpl.
    destruct (Ascii.eqb c "/"); apply IH.
Qed.

Lemma find_last_dot_from_append s t : ∀ i,
  Strong4vm.find_last_dot_from i (s +:+ t) =
    match Strong4vm.find_last_dot_from (i + size s) t with
    | Some j => Some j
    | None => Strong4vm.find_last_dot_from i s
    end.
Proof.
  induction s as [|c s IH]; intros i.
  - change (EmptyString +:+ t) with t. simpl. rewrite Nat.add_0_r.
    by destruct (Strong4vm.find_last_dot_from i t).
  - change (String c s +:+ t) with (String c (s +:+ t)). simpl. rewrite IH.
    replace (S i + size s)%nat with (i + S (size s))%nat by lia.
    by destruct (Strong4vm.find_last_dot_from (i + S (size s)) t).
Qed.

(** [fs::path::stem()] of a file [name.dimacs], in a folder or not. *)
Lemma stem_dimacs pre name :
  pre = EmptyString ∨ (∃ d, pre = d +:+ "/") →
  find_last_slash name = None → name ≠ EmptyString →
  Strong4vm.stem (pre +:+ name +:+ ".dimacs") = name.
Proof.
  intros Hpre Hname Hne.
  assert (Hslash : find_last_slash (name +:+ ".dimacs") = None)
    by by rewrite find_last_slash_dimacs.
  assert (Hf : Strong4vm.filename (pre +:+ name +:+ ".dimacs") = name +:+ ".dimacs").
  { unfold Strong4vm.filename. destruct Hpre as [->|[d ->]].
    - change (EmptyString +:+ name +:+ ".dimacs") with (name +:+ ".dimacs").
      by eapply last_component_no_slash.
    - rewrite append_assoc. by apply last_component_joined. }
  assert (Hsz : ∃ k, size name = S k) by (destruct name; [done|by eexists]).
  destruct Hsz as [k Hk].
  assert (Hext : Strong4vm.extension (pre +:+ name +:+ ".dimacs") = ".dimacs").
  { unfold Strong4vm.extension. rewrite Hf.
    assert ((String.eqb (name +:+ ".dimacs") "." || String.eqb (name +:+ ".dimacs") "..")
            = false) as ->.
    { apply orb_false_iff. split; apply String.eqb_neq; intros E;
        apply (f_equal size) in E; rewrite size_append in E; simpl in E; lia. }
    rewrite find_last_dot_from_append. simpl. rewrite Hk.
    rewrite <- Hk. apply substr_from_append. }
  unfold Strong4vm.stem. rewrite Hext, Hf, size_append.
  replace (size name + size ".dimacs" - size ".dimacs")%nat with (size name) by lia.
  apply substr_to_append.
Qed.

(** [get_basename] of a file [name.dimacs], in a folder or not. *)
Lemma get_basename_joined_dimacs pre name :
  pre = EmptyString ∨ (∃ d, pre = d +:+ "/") →
  find_last_slash name = None →
  get_basename (pre +:+ name +:+ ".dimacs") = name.
Proof.
  intros Hpre Hname.
  assert (Hslash : find_last_slash (name +:+ ".dimacs") = None)
    by by rewrite find_last_slash_dimacs.
  assert (Hstrip : (if has_dimacs_suffix (name +:+ ".dimacs")
                    then substr_to (size (name +:+ ".dimacs") - 7) (name +:+ ".dimacs")
                    else name +:+ ".dimacs") = name).
  { assert (has_dimacs_suffix (name +:+ ".dimacs") = true) as ->
      by (apply has_dimacs_suffix_spec; by exists name).
    rewrite size_append.
    replace (size name + size ".dimacs" - 7)%nat with (size name) by (simpl; lia).
    apply substr_to_append. }
  unfold get_basename. destruct Hpre as [->|[d ->]].
  - change (EmptyString +:+ name +:+ ".dimacs") with (name +:+ ".dimacs").
    by rewrite Hslash.
  - rewrite append_assoc, (find_last_slash_joined d _ Hslash), <- append_assoc.
    replace (S (size d)) with (size (d +:+ "/")) by (rewrite size_append; simpl; lia).
    by rewrite substr_from_append.
Qed.

(** [get_directory] never gives the empty path. *)
Lemma get_directory_nonempty p : (size (Strong4VMAPI.get_directory p) =? 0)%nat = false.
Proof.
  unfold Strong4VMAPI.get_directory, Strong4vm.get_directory.
  destruct (size (substr_to _ p) =? 0)%nat eqn:E; [done|].
  destruct (Strong4vm.drop_trailing_slashes _); [|done].
  destruct (size (Strong4vm.filename p) =? 0)%nat; [|done].
  by destruct p.
Qed.

(** X25. The files that a successful analysis reports are the files that
    were written, for a UVL input and for a DIMACS input [name.dimacs],
    when the output folder does not end in a separator and the name holds
    no backslash: the names of the four files that the graph generation
    wrote, in the order core, dead, requires, excludes, are the four names
    in the result. *)
Theorem analysis_reports_the_written_files m config result :
  Strong4VMAPI.perform_analysis m config = Ok result →
  Strong4VMAPI.success result = true →
  let dir := if (size (Strong4VMAPI.output_dir config) =? 0)%nat
             then Strong4VMAPI.get_directory (Strong4VMAPI.input_file config)
             else Strong4VMAPI.output_dir config in
  let base := Strong4VMAPI.get_basename (Strong4VMAPI.input_file config) in
  let file := match Strong4VMAPI.effective_type config with
              | Strong4VMAPI.UVL => dir +:+ "/" +:+ base +:+ ".dimacs"
              | _ => Strong4VMAPI.input_file config
              end in
  normalize_path dir = dir →
  (Strong4VMAPI.effective_type config = Strong4VMAPI.UVL ∧
   find_last_slash base = None) ∨
  (Strong4VMAPI.effective_type config = Strong4VMAPI.DIMACS ∧
   ∃ pre name,
     Strong4VMAPI.input_file config = pre +:+ name +:+ ".dimacs" ∧
     (pre = EmptyString ∨ ∃ d, pre = d +:+ "/") ∧
     find_last_slash name = None ∧ name ≠ EmptyString) →
  ∃ r,
    generate_graphs (Strong4VMAPI.sys m) file dir
      (Strong4VMAPI.detector_to_string (Strong4VMAPI.detector config))
      (Strong4VMAPI.num_threads config) Impl_new = Ok r ∧
    (files r).*1 =
      [Strong4VMAPI.core_features_file result; Strong4VMAPI.dead_features_file result;
       Strong4VMAPI.requires_graph_file result; Strong4VMAPI.excludes_graph_file result].
Proof.
  intros Hrun Hok dir base file Hdir Hcase.
  destruct (perform_analysis_success _ _ _ Hrun Hok)
    as (_ & r & Hr & Hokr & _ & _ & _ & _ & Hc & Hd & Hq & Hx).
  fold dir base file in Hr, Hc, Hd, Hq, Hx.
  exists r. split; [done|].
  destruct (generate_graphs_ok_inv _ _ _ _ _ _ _ Hr Hokr)
    as (f & d & bb & g & _ & _ & _ & _ & _ & _ & _ & ->).
  assert (Hne : (size dir =? 0)%nat = false).
  { unfold dir. destruct (size (Strong4VMAPI.output_dir config) =? 0)%nat eqn:E; [|done].
    apply get_directory_nonempty. }
  assert (Hout : output_dir_of file dir = dir).
  { unfold output_dir_of. by rewrite Hne. }
  assert (Hbase : get_basename file = base).
  { destruct Hcase as [[Hty Hb]|[Hty (pre & name & Hin & Hpre & Hname & Hnn)]].
    - unfold file. rewrite Hty.
      replace (dir +:+ "/" +:+ base +:+ ".dimacs")
        with ((dir +:+ "/") +:+ base +:+ ".dimacs") by by rewrite !append_assoc.
      apply get_basename_joined_dimacs; [right; by exists dir|done].
    - unfold file, base, Strong4VMAPI.get_basename. rewrite Hty, Hin.
      rewrite stem_dimacs by done. by apply get_basename_joined_dimacs. }
  rewrite Hout, Hbase, Hc, Hd, Hq, Hx. unfold output_files. cbn.
  by rewrite !append_assoc.
Qed.

(** ** The analysis at work on the examples *)

Lemma analysis_success_iff_no_error_message_witness :
  ∃ result,
    Strong4VMAPI.perform_analysis (Examples.machine Examples.cnf_env)
      (Examples.config "m.cnf" EmptyString) = Ok result ∧
    Strong4VMAPI.success result = false ∧
    Strong4VMAPI.error_message result =
      "Graph generation failed: Please check that m.cnf.dimacs conforms to the DIMACS CNF format and is accessible." ∧
    Strong4VMAPI.error_message result ≠ EmptyString ∧
    Strong4VMAPI.global_backbone result = [] ∧
    Strong4VMAPI.core_features_file result = EmptyString.
Proof.
  eassert (Strong4VMAPI.perform_analysis (Examples.machine Examples.cnf_env)
             (Examples.config "m.cnf" EmptyString) = Ok _) as Hrun
    by (vm_compute; reflexivity).
  eexists. split; [exact Hrun|]. split; [reflexivity|]. split; [reflexivity|].
  destruct (analysis_success_iff_no_error_message _ _ _ Hrun) as [Hiff Hfail].
  split.
  - intros Hm. apply Hiff in Hm. discriminate Hm.
  - destruct (Hfail eq_refl) as (Hbb & _ & _ & Hc & _). split; [exact Hbb|exact Hc].
Defined.

Lemma analysis_core_and_dead_witness :
  ∃ result,
    Strong4VMAPI.perform_analysis (Examples.machine Examples.words_env)
      (Examples.config "m.dimacs" EmptyString) = Ok result ∧
    Strong4VMAPI.global_backbone result = [1; -2] ∧
    Strong4VMAPI.num_variables result = 2 ∧
    Strong4VMAPI.core_features result = filter (fun lit => 0 < lit) [1; -2] ∧
    Strong4VMAPI.dead_features result = Z.opp <$> filter (fun lit => lit ≤ 0) [1; -2] ∧
    Forall (fun v => 1 ≤ v ≤ 2) (Strong4VMAPI.core_features result) ∧
    Forall (fun v => 0 ≤ v ≤ 2) (Strong4VMAPI.dead_features result).
Proof.
  eassert (Strong4VMAPI.perform_analysis (Examples.machine Examples.words_env)
             (Examples.config "m.dimacs" EmptyString) = Ok _) as Hrun
    by (vm_compute; reflexivity).
  eexists. split; [exact Hrun|]. split; [reflexivity|]. split; [reflexivity|].
  destruct (analysis_core_and_dead _ _ _ Hrun eq_refl) as (Hc & Hd & Hb).
  split; [exact Hc|]. split; [exact Hd|]. exact (Hb eq_refl).
Defined.

Lemma analysis_reads_the_extended_path_witness :
  ∃ result,
    Strong4VMAPI.perform_analysis (Examples.machine Examples.cnf_twice_env)
      (Examples.config "m.cnf" EmptyString) = Ok result ∧
    Strong4VMAPI.success result = true ∧
    path_exists Examples.cnf_twice_env "m.cnf" = true ∧
    is_Some (read_dimacs Examples.cnf_twice_env 0 "m.cnf.dimacs").
Proof.
  eassert (Strong4VMAPI.perform_analysis (Examples.machine Examples.cnf_twice_env)
             (Examples.config "m.cnf" EmptyString) = Ok _) as Hrun
    by (vm_compute; reflexivity).
  eexists. split; [exact Hrun|]. split; [reflexivity|].
  exact (analysis_reads_the_extended_path _ _ _ Hrun eq_refl eq_refl eq_refl).
Defined.

Lemma analysis_reports_the_written_files_witness :
  (∃ result r,
     Strong4VMAPI.perform_analysis (Examples.machine Examples.converted_env)
       (Examples.config "car.uvl" "out") = Ok result ∧
     generate_graphs Examples.converted_env "out/car.dimacs" "out" "one" 1 Impl_new
       = Ok r ∧
     (files r).*1 = ["out/car__core.txt"; "out/car__dead.txt";
                     "out/car__requires.net"; "out/car__excludes.net"] ∧
     (files r).*1 =
       [Strong4VMAPI.core_features_file result; Strong4VMAPI.dead_features_file result;
        Strong4VMAPI.requires_graph_file result;
        Strong4VMAPI.excludes_graph_file result]) ∧
  (∃ result r,
     Strong4VMAPI.perform_analysis (Examples.machine Examples.models_env)
       (Examples.config "models/car.dimacs" EmptyString) = Ok result ∧
     generate_graphs Examples.models_env "models/car.dimacs" "models" "one" 1 Impl_new
       = Ok r ∧
     (files r).*1 = ["models/car__core.txt"; "models/car__dead.txt";
                     "models/car__requires.net"; "models/car__excludes.net"] ∧
     (files r).*1 =
       [Strong4VMAPI.core_features_file result; Strong4VMAPI.dead_features_file result;
        Strong4VMAPI.requires_graph_file result;
        Strong4VMAPI.excludes_graph_file result]).
Proof.
  split.
  - eassert (Strong4VMAPI.perform_analysis (Examples.machine Examples.converted_env)
               (Examples.config "car.uvl" "out") = Ok _) as Hrun
      by (vm_compute; reflexivity).
    eassert (generate_graphs Examples.converted_env "out/car.dimacs" "out" "one" 1
               Impl_new = Ok _) as Hr by (vm_compute; reflexivity).
    eexists _, _. split; [exact Hrun|]. split; [exact Hr|]. split; [reflexivity|].
    destruct (analysis_reports_the_written_files _ _ _ Hrun eq_refl eq_refl)
      as (r & Hr' & Hfiles).
    + left. split; reflexivity.
    + change (generate_graphs Examples.converted_env "out/car.dimacs" "out" "one" 1
                Impl_new = Ok r) in Hr'.
      rewrite Hr in Hr'. injection Hr' as <-. exact Hfiles.
  - eassert (Strong4VMAPI.perform_analysis (Examples.machine Examples.models_env)
               (Examples.config "models/car.dimacs" EmptyString) = Ok _) as Hrun
      by (vm_compute; reflexivity).
    eassert (generate_graphs Examples.models_env "models/car.dimacs" "models" "one" 1
               Impl_new = Ok _) as Hr by (vm_compute; reflexivity).
    eexists _, _. split; [exact Hrun|]. split; [exact Hr|]. split; [reflexivity|].
    destruct (analysis_reports_the_written_files _ _ _ Hrun eq_refl eq_refl)
      as (r & Hr' & Hfiles).
    + right. split; [reflexivity|]. exists "models/", "car".
      split; [reflexivity|]. split; [right; by exists "models"|]. split; [reflexivity|done].
    + change (generate_graphs Examples.models_env "models/car.dimacs" "models" "one" 1
                Impl_new = Ok r) in Hr'.
      rewrite Hr in Hr'. injection Hr' as <-. exact Hfiles.
Defined.

(** ** Calls on one object *)

(** X26. Of the members that the class writes itself, calls on one object
    share the filter switch and nothing else; the solver member belongs to
    the machine of each call. No call changes the switch, whatever it
    returns; and after any calls that returned, a further call ends as it
    does on a new object on which [set_filter_auxiliary] was called with
    the value that the switch had at the start. *)
Theorem calls_share_the_switch_only cs c st st' :
  after_calls cs st = Ok st' →
  filter_auxiliary st' = filter_auxiliary st ∧
  call_on c st' = call_on c (set_filter_auxiliary (filter_auxiliary st) Impl_new).
Proof.
  intros Hcs.
  assert (Hsw : filter_auxiliary st' = filter_auxiliary st).
  { revert st Hcs. induction cs as [|c0 cs IH]; intros st; simpl.
    - by intros [= <-].
    - res_simpl. destruct (call_on c0 st) as [r|] eqn:Hr; [|done].
      intros H%IH. rewrite H. by eapply generate_graphs_keeps_filter. }
  split; [done|].
  unfold call_on, generate_graphs, generate_graphs_impl.
  by rewrite (reset_forgets st' (set_filter_auxiliary (filter_auxiliary st) Impl_new)).
Qed.

Lemma calls_share_the_switch_only_witness :
  let good := {| c_env := Examples.chain_env; c_file := "m"; c_folder := EmptyString;
                 c_detector := "one"; c_threads := 2 |} in
  let bad := {| c_env := Examples.chain_env; c_file := "missing";
                c_folder := EmptyString; c_detector := "one"; c_threads := 1 |} in
  let aux := {| c_env := Examples.aux_env; c_file := "m"; c_folder := EmptyString;
                c_detector := "one"; c_threads := 1 |} in
  ∃ st',
    after_calls [good; bad] (set_filter_auxiliary true Impl_new) = Ok st' ∧
    get_num_variables st' = 0 ∧
    filter_auxiliary st' = true ∧
    call_on aux st' = call_on aux (set_filter_auxiliary true Impl_new).
Proof.
  intros good bad aux.
  eassert (after_calls [good; bad] (set_filter_auxiliary true Impl_new) = Ok _) as Hcs
    by (vm_compute; reflexivity).
  eexists. split; [exact Hcs|]. split; [reflexivity|].
  exact (calls_share_the_switch_only _ aux _ _ Hcs).
Defined.

(** ** The command line and the API *)

Lemma size_append_nonempty c s t : (size (String c s +:+ t) =? 0)%nat = false.
Proof. by change (String c s +:+ t) with (String c (s +:+ t)). Qed.

Lemma detect_file_type_agrees f :
  Strong4VMAPI.detect_file_type f =
    match Strong4vm.detect_file_type f with
    | Strong4vm.UVL => Strong4VMAPI.UVL
    | Strong4vm.DIMACS => Strong4VMAPI.DIMACS
    | Strong4vm.UNKNOWN => Strong4VMAPI.AUTO
    end.
Proof.
  unfold Strong4VMAPI.detect_file_type, Strong4vm.detect_file_type.
  destruct (String.eqb _ ".uvl"); [done|]. by destruct (_ || _).
Qed.

(** X27. Without [-e] the command line does what the API does. For
    options that were all read and do not ask for the Tseitin conversion,
    on a machine whose converter succeeds where that of the API does,
    [strong4vm] ends with the code 0 when the analysis of the
    configuration that stands for the options succeeds and with the code 1
    when it fails, and it has no defined result where the analysis has
    none. (With [-e] the command line switches the filter of auxiliary
    variables on, which the API leaves off.) *)
Theorem command_line_runs_the_analysis c m argv o :
  Strong4VMAPI.sys m = Strong4vm.sys c →
  (∀ input output,
     UVL2Dimacs.success (Strong4VMAPI.convert m UVL2Dimacs.STRAIGHTFORWARD input output)
     = Strong4vm.uvl_convert c false input output) →
  (2 ≤ length argv)%nat →
  Strong4vm.parse_arguments (tail argv) Strong4vm.defaults = Ok (inr o) →
  Strong4vm.use_tseitin o = false →
  Strong4vm.main c argv =
    (result ← Strong4VMAPI.perform_analysis m (config_of o);
     Ok (if Strong4VMAPI.success result then 0 else 1)).
Proof.
  intros Hsys Hconv Hlen Hparse Hts.
  pose proof (parse_arguments_result (length (tail argv)) (tail argv) Strong4vm.defaults
                ltac:(lia) ltac:(simpl; lia)) as Hres.
  rewrite Hparse in Hres. destruct Hres as [Hth _].
  unfold Strong4vm.main. rewrite Hparse.
  destruct (Nat.ltb_spec (length argv) 2) as [|_]; [lia|]. res_simpl.
  unfold Strong4VMAPI.perform_analysis, Strong4VMAPI.validate_configuration,
    Strong4VMAPI.effective_type.
  cbn [config_of Strong4VMAPI.input_file Strong4VMAPI.output_dir Strong4VMAPI.input_type
       Strong4VMAPI.num_threads Strong4VMAPI.conversion_mode Strong4VMAPI.detector
       Strong4VMAPI.keep_dimacs].
  rewrite Hsys, Hts, detect_file_type_agrees.
  destruct (size (Strong4vm.input_file o) =? 0)%nat eqn:Hsz; [done|].
  destruct (path_exists (Strong4vm.sys c) (Strong4vm.input_file o)) eqn:Hex;
    simpl negb; cbn iota; [|done].
  destruct (Strong4vm.detect_file_type (Strong4vm.input_file o)) eqn:Hty; [| |done].
  all: destruct (Z.ltb_spec (Strong4vm.num_threads o) 1) as [|_]; [lia|].
  all: unfold Strong4VMAPI.get_directory, Strong4VMAPI.get_basename,
         Strong4VMAPI.detector_to_string.
  all: try rewrite Hconv.
  all: destruct (size (Strong4vm.output_dir o) =? 0)%nat;
         simpl negb; simpl andb; cbn iota.
  all: try (destruct (path_exists (Strong4vm.sys c) (Strong4vm.output_dir o));
            simpl negb; cbn iota).
  all: try (destruct (create_directories (Strong4vm.sys c) (Strong4vm.output_dir o));
            [by rewrite ?size_append_nonempty|]).
  all: simpl negb; cbn iota.
  all: try (destruct (if negb (path_exists _ _) then _ else None); [done|]).
  all: try (destruct (Strong4vm.uvl_convert c false _ _); simpl negb; cbn iota; [|done]).
  all: res_simpl.
  all: destruct (generate_graphs _ _ _ _ _ _) as [r|]; [|done].
  all: destruct (ok r); simpl negb; cbn iota; [|done].
  all: by destruct (Strong4VMAPI.separate _ [] []).
Qed.

Lemma command_line_runs_the_analysis_witness :
  let c := {| Strong4vm.sys := Examples.converted_env;
              Strong4vm.uvl_convert := fun _ _ _ => true |} in
  let o := {| Strong4vm.input_file := "car.uvl"; Strong4vm.output_dir := "out";
              Strong4vm.num_threads := 1; Strong4vm.keep_dimacs := false;
              Strong4vm.use_tseitin := false |} in
  ∃ result,
    Strong4vm.parse_arguments ["car.uvl"; "-o"; "out"] Strong4vm.defaults = Ok (inr o) ∧
    Strong4VMAPI.perform_analysis (Examples.machine Examples.converted_env) (config_of o)
      = Ok result ∧
    Strong4VMAPI.success result = true ∧
    Strong4vm.main c ["strong4vm"; "car.uvl"; "-o"; "out"] = Ok 0.
Proof.
  intros c o.
  assert (Strong4vm.parse_arguments ["car.uvl"; "-o"; "out"] Strong4vm.defaults
          = Ok (inr o)) as Hparse by (vm_compute; reflexivity).
  eassert (Strong4VMAPI.perform_analysis (Examples.machine Examples.converted_env)
             (config_of o) = Ok _) as Hrun by (vm_compute; reflexivity).
  eexists. split; [exact Hparse|]. split; [exact Hrun|]. split; [reflexivity|].
  rewrite (command_line_runs_the_analysis c (Examples.machine Examples.converted_env)
             ["strong4vm"; "car.uvl"; "-o"; "out"] o eq_refl (fun _ _ => eq_refl)
             ltac:(simpl; lia) Hparse eq_refl).
  by rewrite Hrun.
Defined.

(** ** Requires edges and the answers of the solver *)




(** ** The text of the output files *)

Lemma str_app s1 s2 : str (s1 ++ s2) = str s1 +:+ str s2.
Proof.
  unfold str. induction s1 as [|t s1 IH]; [done|].
  simpl. by rewrite IH, append_assoc.
Qed.

Lemma rows_text_app r1 r2 : rows_text (r1 ++ r2) = rows_text r1 +:+ rows_text r2.
Proof.
  unfold rows_text. induction r1 as [|fs r1 IH]; [done|].
  simpl. by rewrite IH, !append_assoc.
Qed.

Lemma in_rows_nil P : in_rows P [].
Proof. exists []. by split. Qed.

Lemma in_rows_app P s1 s2 : in_rows P s1 → in_rows P s2 → in_rows P (s1 ++ s2).
Proof.
  intros (r1 & H1 & F1) (r2 & H2 & F2). exists (r1 ++ r2).
  split; [by rewrite str_app, rows_text_app, H1, H2|by apply Forall_app].
Qed.

(** *** Lines *)

Lemma text_lines_cons s : ∃ l ls, text_lines s = l :: ls.
Proof.
  induction s as [|c s (l & ls & IH)]; simpl; [by eexists _, _|].
  destruct (Ascii.eqb c _); [by eexists _, _|]. rewrite IH. by eexists _, _.
Qed.

(** A line without a line feed stands before what follows its end. *)
Lemma text_lines_line a : ∀ b,
  text_lines a = [a] →
  text_lines (a +:+ newline +:+ b) = a :: text_lines b.
Proof.
  induction a as [|c a IH]; intros b Ha.
  - done.
  - change (String c a +:+ newline +:+ b) with (String c (a +:+ newline +:+ b)).
    simpl in Ha |- *. destruct (Ascii.eqb c (ascii_of_nat 10)).
    + destruct (text_lines_cons a) as (l & ls & Hl). by rewrite Hl in Ha.
    + destruct (text_lines a) as [|l ls] eqn:Hl.
      * destruct (text_lines_cons a) as (? & ? & ?). congruence.
      * injection Ha as -> ->. by rewrite IH.
Qed.

Lemma text_lines_join a b :
  text_lines a = [a] → text_lines b = [b] → text_lines (a +:+ b) = [a +:+ b].
Proof.
  intros Ha Hb. induction a as [|c a IH]; [done|].
  change (String c a +:+ b) with (String c (a +:+ b)).
  simpl in Ha |- *. destruct (Ascii.eqb c (ascii_of_nat 10)).
  - destruct (text_lines_cons a) as (l & ls & Hl). by rewrite Hl in Ha.
  - destruct (text_lines a) as [|l ls] eqn:Hl.
    + destruct (text_lines_cons a) as (? & ? & ?). congruence.
    + injection Ha as -> ->. by rewrite IH.
Qed.

Lemma text_lines_spaceless s : spaceless s = true → text_lines s = [s].
Proof.
  induction s as [|c s IH]; [done|]. simpl.
  intros [Hc Hs]%andb_true_iff. rewrite (IH Hs).
  destruct (Ascii.eqb_spec c (ascii_of_nat 10)) as [->|]; [done|done].
Qed.

Lemma text_lines_joined fs :
  Forall is_word fs → text_lines (join_words fs) = [join_words fs].
Proof.
  unfold join_words. induction 1 as [|f fs [_ Hf] Hfs IH]; [done|].
  destruct fs as [|f' fs'].
  - simpl. by apply text_lines_spaceless.
  - change (String.concat " " (f :: f' :: fs'))
      with (f +:+ String " " (String.concat " " (f' :: fs'))).
    apply text_lines_join; [by apply text_lines_spaceless|].
    change (String " " (String.concat " " (f' :: fs')))
      with (" " +:+ String.concat " " (f' :: fs')).
    by apply text_lines_join.
Qed.

(** The lines of a text of rows, before whatever follows it. *)
Lemma text_lines_rows rows : ∀ rest,
  Forall (Forall is_word) rows →
  text_lines (rows_text rows +:+ rest) = (join_words <$> rows) ++ text_lines rest.
Proof.
  induction rows as [|fs rows IH]; intros rest Hrows; [done|].
  apply Forall_cons in Hrows as [Hfs Hrows]. simpl.
  rewrite !append_assoc, text_lines_line by by apply text_lines_joined.
  by rewrite IH.
Qed.

(** *** Fields *)

Lemma spaceless_app s t : spaceless (s +:+ t) = spaceless s && spaceless t.
Proof.
  induction s as [|c s IH]; [done|].
  change (String c s +:+ t) with (String c (s +:+ t)). simpl.
  by rewrite IH, andb_assoc.
Qed.

Lemma is_word_app s t : is_word s → is_word t → is_word (s +:+ t).
Proof.
  intros [Hs1 Hs2] [Ht1 Ht2]. split.
  - destruct s; [done|]. by change (String a s +:+ t) with (String a (s +:+ t)).
  - by rewrite spaceless_app, Hs2, Ht2.
Qed.

Lemma spaceless_pretty_N_go x : ∀ s, spaceless (pretty_N_go x s) = spaceless s.
Proof.
  induction (N.lt_wf_0 x) as [x _ IH]. intros s.
  destruct (decide (x = 0)%N) as [->|Hx]; [done|].
  rewrite pretty_N_go_step by lia. rewrite IH by (apply N.div_lt; lia).
  simpl. destruct (pretty_N_char_digit (x `mod` 10)) as [Hd _]; [by apply N.mod_lt|].
  by rewrite (is_digit_not_space _ Hd).
Qed.

Lemma is_word_pretty (z : Z) : is_word (pretty z).
Proof.
  split; [apply pretty_first_char|].
  unfold pretty, pretty_Z. destruct z as [|p|p]; [done| |].
  - unfold pretty, pretty_positive.
    change (pretty (N.pos p)) with (pretty_N_go (N.pos p) EmptyString).
    by rewrite spaceless_pretty_N_go.
  - unfold pretty, pretty_positive.
    change (pretty (N.pos p)) with (pretty_N_go (N.pos p) EmptyString).
    change ("-" +:+ pretty_N_go (N.pos p) EmptyString)
      with (String "-" (pretty_N_go (N.pos p) EmptyString)).
    simpl. by rewrite spaceless_pretty_N_go.
Qed.

Lemma is_word_in_quotes w : is_word w → is_word (in_quotes w).
Proof.
  intros Hw. unfold in_quotes. apply is_word_app; [done|]. by apply is_word_app.
Qed.

(** A number does not start with a quote. *)
Lemma in_quotes_no_number w t (z : Z) : in_quotes w +:+ t ≠ pretty z.
Proof.
  intros H. apply (f_equal first_char) in H. revert H.
  change (first_char (in_quotes w +:+ t)) with (ascii_of_nat 34).
  unfold pretty, pretty_Z. destruct z as [|p|p]; [done| |done].
  unfold pretty, pretty_positive.
  change (pretty (N.pos p)) with (pretty_N_go (N.pos p) EmptyString).
  destruct (pretty_pos_cons p) as (c & s & -> & Hc). simpl. intros <-. done.
Qed.

Lemma join_words_cons a f fs :
  join_words (a :: f :: fs) = a +:+ " " +:+ join_words (f :: fs).
Proof. done. Qed.

(** *** The lines that are written *)

Lemma str_num v : str [Num v] = pretty v.
Proof. unfold str. simpl. apply append_nil_r. Qed.

Lemma str_quoted w t : str (quoted w) +:+ t = " " +:+ in_quotes w +:+ t.
Proof.
  unfold str, quoted, in_quotes. simpl. by rewrite append_nil_r, !append_assoc.
Qed.

Lemma str_quoted_words ws : ∀ a,
  a +:+ str (concat (quoted <$> ws)) = join_words (a :: (in_quotes <$> ws)).
Proof.
  induction ws as [|w ws IH]; intros a.
  - apply append_nil_r.
  - rewrite !fmap_cons. cbn [concat]. rewrite str_app, str_quoted, join_words_cons.
    by rewrite <- IH.
Qed.

Lemma glued_fields_cons v w w' ws :
  glued_fields v (w :: w' :: ws) = (in_quotes w +:+ pretty v) :: glued_fields v (w' :: ws).
Proof. done. Qed.

Lemma glued_fields_nonempty v w ws : ∃ f fs, glued_fields v (w :: ws) = f :: fs.
Proof. destruct ws; by eexists _, _. Qed.

Lemma str_per_word v w ws :
  str (concat ((fun w => Num v :: quoted w) <$> (w :: ws)))
  = join_words (pretty v :: glued_fields v (w :: ws)).
Proof.
  revert w. induction ws as [|w' ws IH]; intros w.
  - cbn [fmap list_fmap concat]. rewrite app_nil_r.
    change (Num v :: quoted w) with ([Num v] ++ quoted w).
    rewrite str_app. rewrite <- (append_nil_r (str (quoted w))), str_quoted.
    by rewrite append_nil_r, str_num.
  - rewrite fmap_cons. cbn [concat].
    change (Num v :: quoted w) with ([Num v] ++ quoted w).
    rewrite <- app_assoc, str_app, str_app, str_quoted, IH, glued_fields_cons.
    destruct (glued_fields_nonempty v w' ws) as (f & fs & ->).
    rewrite !join_words_cons, str_num. by rewrite !append_assoc.
Qed.

Lemma glued_fields_words (P : Z → Prop) v ws :
  Forall is_word ws →
  Forall (fun f => is_word f ∧ ∀ z, f = pretty z → P z) (glued_fields v ws).
Proof.
  induction 1 as [|w ws Hw Hws IH]; [constructor|].
  destruct ws as [|w' ws'].
  - constructor; [|constructor]. split; [by apply is_word_in_quotes|].
    intros z Hz. rewrite <- (append_nil_r (in_quotes w)) in Hz.
    by apply in_quotes_no_number in Hz.
  - rewrite glued_fields_cons. constructor; [|done]. split.
    + apply is_word_app; [by apply is_word_in_quotes|apply is_word_pretty].
    + intros z Hz. by apply in_quotes_no_number in Hz.
Qed.

Lemma in_rows_row (P : Z → Prop) (s : stream) fs :
  str s = join_words fs →
  Forall (fun f => is_word f ∧ ∀ z, f = pretty z → P z) fs →
  in_rows P (s ++ [Endl]).
Proof.
  intros Hs Hfs. exists [fs]. split; [|by constructor].
  rewrite str_app, Hs. unfold rows_text. simpl.
  change (str [Endl]) with (newline +:+ EmptyString). done.
Qed.

(** The line of the vertex list for [v] with a name of the words [ws]. *)
Lemma in_rows_vertex (P : Z → Prop) v ws :
  P v → Forall is_word ws →
  in_rows P ([Num v] ++ concat (quoted <$> ws) ++ [Endl]).
Proof.
  intros Hv Hws. rewrite app_assoc. apply (in_rows_row P _ (pretty v :: (in_quotes <$> ws))).
  - rewrite str_app, str_num. apply str_quoted_words.
  - constructor.
    + split; [apply is_word_pretty|]. by intros z ->%(inj pretty).
    + apply Forall_fmap. eapply Forall_impl; [exact Hws|]. intros w Hw. simpl. split.
      * by apply is_word_in_quotes.
      * intros z Hz. rewrite <- (append_nil_r (in_quotes w)) in Hz.
        by apply in_quotes_no_number in Hz.
Qed.

(** The line of the core or dead list for [v] with a name of the words
    [w :: ws]. *)
Lemma in_rows_listed (P : Z → Prop) v w ws :
  P v → Forall is_word (w :: ws) →
  in_rows P (concat ((fun w => Num v :: quoted w) <$> (w :: ws)) ++ [Endl]).
Proof.
  intros Hv Hws. apply (in_rows_row P _ (pretty v :: glued_fields v (w :: ws))).
  - apply str_per_word.
  - constructor.
    + split; [apply is_word_pretty|]. by intros z ->%(inj pretty).
    + by apply glued_fields_words.
Qed.

(** The lines of an edge list. *)
Lemma in_rows_edges (P : Z → Prop) es :
  Forall (fun e : edge => P e.1 ∧ P e.2) es → in_rows P (edge_stream es).
Proof.
  unfold edge_stream. induction 1 as [|[v i] es [Hv Hi] Hes IH]; [apply in_rows_nil|].
  cbn [fmap list_fmap concat]. apply in_rows_app; [|done].
  apply (in_rows_row P [Num v; Txt " "; Num i] [pretty v; pretty i]).
  - unfold str. simpl. by rewrite append_nil_r.
  - simpl in *. repeat constructor; try apply is_word_pretty;
      by intros z ->%(inj pretty).
Qed.

(** The three streams of names are written line by line when every
    numbered comment gives a name. *)
Lemma name_line_rows (P : Z → Prop) bb aux s line s' :
  (∀ z, 0 ≤ z → is_aux aux z = false → P z) →
  bare_number_comment line = false →
  in_rows P s.1.1 ∧ in_rows P s.1.2 ∧ in_rows P s.2 →
  name_line bb aux s line = Ok s' →
  in_rows P s'.1.1 ∧ in_rows P s'.1.2 ∧ in_rows P s'.2.
Proof.
  unfold name_line, bare_number_comment. intros HP Hbare Hs H.
  destruct (size line =? 0)%nat; [by injection H as <-|].
  destruct (Ascii.eqb (first_char line) "c"); [|by injection H as <-].
  simpl in Hbare.
  assert (Hwords : ∀ v ws, parse_comment line = Some (v, ws) → Forall is_word ws).
  { unfold parse_comment. intros v ws Hp.
    destruct (read_char line) as [[c rest]|]; [|done].
    destruct (read_int rest) as [v' rest'| |]; [|done..].
    injection Hp as _ <-. by apply words_go_words. }
  destruct (parse_comment line) as [[v ws]|]; [|by injection H as <-].
  specialize (Hwords v ws eq_refl).
  unfold is_aux_at in H. res_simpl. destruct (Z.ltb_spec v 0); [done|].
  destruct (is_aux aux v) eqn:Hv; [by injection H as <-|].
  assert (HPv : P v) by by apply HP.
  destruct s as [[fs cs] ds]. destruct Hs as (Hfs & Hcs & Hds). simpl in Hfs, Hcs, Hds.
  destruct ws as [|w ws]; [done|].
  destruct (_ <=? v); [done|]. injection H as <-.
  split_and!; cbn [fst snd].
  - rewrite <- app_assoc. apply in_rows_app; [done|].
    exact (in_rows_vertex P v (w :: ws) HPv Hwords).
  - destruct (0 <? _); [|done]. apply in_rows_app; [done|].
    exact (in_rows_listed P v w ws HPv Hwords).
  - destruct (0 <? _); [done|]. destruct (_ <? 0); [|done].
    apply in_rows_app; [done|]. exact (in_rows_listed P v w ws HPv Hwords).
Qed.

Lemma name_lines_rows (P : Z → Prop) bb aux lines : ∀ s s',
  (∀ z, 0 ≤ z → is_aux aux z = false → P z) →
  Forall (fun line => bare_number_comment line = false) lines →
  in_rows P s.1.1 ∧ in_rows P s.1.2 ∧ in_rows P s.2 →
  name_lines bb aux s lines = Ok s' →
  in_rows P s'.1.1 ∧ in_rows P s'.1.2 ∧ in_rows P s'.2.
Proof.
  induction lines as [|l lines IH]; intros s s' HP Hbare Hs; simpl.
  - by intros [= <-].
  - apply Forall_cons in Hbare as [Hl Hbare]. res_simpl.
    destruct (name_line bb aux s l) as [s1|] eqn:H1; [|done].
    apply IH; [done..|]. by eapply name_line_rows.
Qed.

(** A number that is a field of a line of such a stream satisfies [P],
    unless the line belongs to what follows the stream. *)
Lemma in_rows_fields (P : Z → Prop) s rest line z :
  in_rows P s → line ∈ text_lines (str s +:+ rest) → pretty z ∈ words line →
  P z ∨ line ∈ text_lines rest.
Proof.
  intros (rows & -> & Hrows) Hline Hz.
  rewrite text_lines_rows in Hline.
  2:{ eapply Forall_impl; [exact Hrows|]. intros fs Hfs.
      eapply Forall_impl; [exact Hfs|]. by intros f [? _]. }
  apply elem_of_app in Hline as [Hline|Hline]; [left|by right].
  apply list_elem_of_fmap in Hline as (fs & -> & Hfs).
  rewrite Forall_forall in Hrows. specialize (Hrows _ Hfs).
  rewrite words_joined in Hz.
  2:{ eapply Forall_impl; [exact Hrows|]. by intros f [? _]. }
  rewrite Forall_forall in Hrows. by apply (Hrows _ Hz).
Qed.

(** The text of a list of names. *)
Lemma list_text_clean (P : Z → Prop) s line z :
  in_rows P s → line ∈ text_lines (str s) → pretty z ∈ words line → P z.
Proof.
  intros Hs Hline Hz. rewrite <- (append_nil_r (str s)) in Hline.
  destruct (in_rows_fields P s EmptyString line z Hs Hline Hz) as [|Hl]; [done|].
  apply list_elem_of_singleton in Hl as ->. by apply elem_of_nil in Hz.
Qed.

(** The text of a Pajek file. *)
Lemma net_text_clean (P : Z → Prop) n section_ feat_stream es line z :
  text_lines section_ = [section_] → Ascii.eqb (first_char section_) "*" = true →
  in_rows P feat_stream → Forall (fun e : edge => P e.1 ∧ P e.2) es →
  line ∈ text_lines (str (net_file n section_ feat_stream es)) →
  Ascii.eqb (first_char line) "*" = false →
  pretty z ∈ words line → P z.
Proof.
  intros Hsec Hstar Hfeat Hes Hline Hfirst Hz. unfold net_file in Hline.
  rewrite !str_app in Hline.
  change (str [Txt "*Vertices "; Num n; Endl])
    with ("*Vertices " +:+ pretty n +:+ newline +:+ EmptyString) in Hline.
  change (str [Txt section_; Endl]) with (section_ +:+ newline +:+ EmptyString) in Hline.
  change (str [Endl]) with (newline +:+ EmptyString) in Hline.
  rewrite !append_nil_r in Hline.
  rewrite <- (append_assoc "*Vertices " (pretty n)), !append_assoc in Hline.
  rewrite <- (append_assoc "*Vertices " (pretty n)) in Hline.
  rewrite text_lines_line in Hline.
  2:{ apply text_lines_join; [done|]. apply text_lines_spaceless, is_word_pretty. }
  apply elem_of_cons in Hline as [->|Hline]; [done|].
  destruct (in_rows_fields P _ _ _ _ Hfeat Hline Hz) as [|Hline2]; [done|].
  rewrite text_lines_line in Hline2 by done.
  apply elem_of_cons in Hline2 as [->|Hline2]; [congruence|].
  destruct (in_rows_fields P _ _ _ _ (in_rows_edges P es Hes) Hline2 Hz) as [|Hline3];
    [done|].
  change (text_lines newline) with [EmptyString; EmptyString] in Hline3.
  repeat (apply elem_of_cons in Hline3 as [->|Hline3]; [by apply elem_of_nil in Hz|]).
  by apply elem_of_nil in Hline3.
Qed.

(** The files that a call wrote are the first of its four outputs. *)
Lemma generate_graphs_written e file out det T st r g :
  generate_graphs e file out det T st = Ok r → graphs r = Some g →
  ∃ base (k : nat),
    files r = take k (rendered <$> output_files base (get_num_variables (impl r)) g).
Proof.
  unfold generate_graphs, generate_graphs_impl, failed. intros Hrun Hg.
  set (path := dimacs_path_of file) in *.
  destruct (read_dimacs e 0 path) as [f|]; [|injection Hrun as <-; discriminate Hg].
  destruct (create_backbone_detector f det) as [d|];
    [|injection Hrun as <-; discriminate Hg].
  cbn [num_variables set_num_variables num_clauses reset filter_auxiliary
       set_num_clauses set_global_backbone] in Hrun.
  destruct (read_clause_count e path 0) as [msg|clauses];
    [injection Hrun as <-; discriminate Hg|].
  res_simpl.
  destruct (new_vector (get_max_variable f + 1) false) as [aux0|]; [|done].
  destruct (if filter_auxiliary st then read_feature_names e path aux0 else Ok (inr aux0))
    as [[msg|aux]|]; [injection Hrun as <-; discriminate Hg| |done].
  destruct (to_indexed (get_max_variable f) (compute_backbone d)) as [bb|]; [|done].
  destruct (T <? 1); [injection Hrun as <-; discriminate Hg|].
  destruct (max_threads e <? T); [injection Hrun as <-; discriminate Hg|].
  destruct (extract_edges e d path det (get_max_variable f) bb aux _ T)
    as [[msg|[req exc]]|]; [injection Hrun as <-; discriminate Hg| |done].
  destruct (name_lines bb aux ([], [], []) (default [] (file_lines e path)))
    as [[[fs cs] ds]|]; [|done].
  destruct (if _ && _ then _ else _).
  - injection Hrun as <-. injection Hg as <-. by exists EmptyString, 0%nat.
  - destruct (write_files _ _ _) as [res written] eqn:Hw.
    apply write_files_prefix in Hw as (k & -> & _).
    eexists _, k. destruct res; injection Hrun as <-; by injection Hg as <-.
Qed.

(** C1, as amended. When the filter for auxiliary variables is switched on
    ([set_filter_auxiliary(true)], which the command line does only under
    [--enable-tseitin]), no output of a run mentions a variable that a name
    comment of the file marks as auxiliary. Its number is not written: it
    is no end of a requires or excludes edge and no number in the vertex,
    core and dead lists. And when every comment of the file that starts with
    a number goes on with a name, no file that the call wrote mentions it:
    read line by line and field by field, no line of the two lists and of
    the two Pajek files, their header lines apart, has its number as a
    field. (A comment with a number and no name puts the number into the
    vertex list without ending the line, so that it runs into the number of
    the next line; what the files hold then is left open here.) *)
Theorem filtered_outputs_omit_auxiliary e file out det T st r g lines w :
  filter_auxiliary st = true →
  generate_graphs e file out det T st = Ok r → graphs r = Some g →
  file_lines e (dimacs_path_of file) = Some lines →
  names_aux lines w = true →
  ¬ mentions g w ∧
  (Forall (fun line => bare_number_comment line = false) lines →
   ∀ path text, (path, text) ∈ files r → ¬ text_mentions text w).
Proof.
  intros Hfilter Hrun Hg Hlines Hnamed.
  pose proof (filtered_streams_omit_auxiliary _ _ _ _ _ _ _ _ _ _
                Hfilter Hrun Hg Hlines Hnamed) as Hno.
  split; [done|]. intros Hbare path text Hin (line & Hline & Hstar & Hz).
  set (P := fun z : Z => z ≠ w).
  destruct (generate_graphs_inv _ _ _ _ _ _ _ _ Hrun Hg) as (a & Ha & _).
  rewrite Hfilter in Ha.
  destruct Ha as (_ & _ & Haux & _ & _ & _ & _ & _ & _ & Hnames).
  destruct (aux_table_on _ _ _ _ _ _ Haux Hlines Hnamed) as [Hw Hwaux].
  rewrite Hlines in Hnames. simpl in Hnames.
  apply (name_lines_rows P) in Hnames as (Hf & Hc & Hd);
    [|intros z _ Hz' ->; congruence|done|by split_and!; apply in_rows_nil].
  simpl in Hf, Hc, Hd.
  assert (Hedges : ∀ es, es = requires g ∨ es = excludes g →
                         Forall (fun e : edge => P e.1 ∧ P e.2) es).
  { intros es Hes. apply Forall_forall. intros [x y] Hxy. unfold P. simpl.
    split; intros ->; apply Hno; left.
    - exists y. destruct Hes as [-> | ->]; auto.
    - exists x. destruct Hes as [-> | ->]; auto. }
  destruct (generate_graphs_written _ _ _ _ _ _ _ _ Hrun Hg) as (base & k & Hfiles).
  rewrite Hfiles in Hin. apply elem_of_take in Hin as (i & Hin & _).
  apply list_elem_of_lookup_2 in Hin. unfold output_files, rendered in Hin. simpl in Hin.
  assert (HP : P w); [|by apply HP].
  repeat (apply elem_of_cons in Hin as [[= _ ->]|Hin]).
  - by apply (list_text_clean P (core g) line).
  - by apply (list_text_clean P (dead g) line).
  - apply (net_text_clean P (get_num_variables (impl r)) "*Arcs" (feat g) (requires g)
             line w); [reflexivity|reflexivity|done|apply Hedges; by left|done..].
  - apply (net_text_clean P (get_num_variables (impl r)) "*Edges" (feat g) (excludes g)
             line w); [reflexivity|reflexivity|done|apply Hedges; by right|done..].
  - by apply elem_of_nil in Hin.
Qed.

Lemma filtered_outputs_omit_auxiliary_witness :
  ∃ r g,
    generate_graphs Examples.aux_env "m" EmptyString "one" 3 (set_filter_auxiliary true Impl_new)
      = Ok r ∧
    graphs r = Some g ∧ names_aux Examples.aux_lines 3 = true ∧
    requires g = [(2, 1)] ∧ nums (feat g) = [1; 2] ∧
    (files r).*1 = ["./m__core.txt"; "./m__dead.txt"; "./m__requires.net";
                    "./m__excludes.net"] ∧
    ¬ mentions g 3 ∧
    ∀ path text, (path, text) ∈ files r → ¬ text_mentions text 3.
Proof.
  eassert (generate_graphs Examples.aux_env "m" EmptyString "one" 3
             (set_filter_auxiliary true Impl_new) = Ok _) as Hrun
    by (vm_compute; reflexivity).
  eexists _, _. split; [exact Hrun|]. do 5 (split; [reflexivity|]).
  destruct (filtered_outputs_omit_auxiliary Examples.aux_env "m" EmptyString "one" 3
              (set_filter_auxiliary true Impl_new) _ _ Examples.aux_lines 3
              eq_refl Hrun eq_refl eq_refl eq_refl) as [Hno Htext].
  split; [exact Hno|]. apply Htext. by repeat constructor.
Defined.

(** What the amended C1 leaves open. With the filter on, the comment [c 1]
    puts the number [1] into the vertex list and does not end the line, the
    comment [c 2 foo] goes on with [2 "foo"], and the two Pajek files hold
    the line [12 "foo"]: read field by field they mention the variable
    [12], which the file names [aux_x] and of which no number was
    written. *)
Lemma bare_number_runs_into_the_next_line :
  ∃ r g,
    generate_graphs Examples.bare_env "m" EmptyString "one" 1
      (set_filter_auxiliary true Impl_new) = Ok r ∧
    graphs r = Some g ∧ ok r = true ∧
    names_aux Examples.bare_lines 12 = true ∧
    bare_number_comment "c 1" = true ∧
    nums (feat g) = [1; 2] ∧
    ¬ mentions g 12 ∧
    ∃ text, ("./m__requires.net", text) ∈ files r ∧
      ("12 " +:+ in_quotes "foo") ∈ text_lines text ∧
      text_mentions text 12.
Proof.
  eassert (generate_graphs Examples.bare_env "m" EmptyString "one" 1
             (set_filter_auxiliary true Impl_new) = Ok _) as Hrun
    by (vm_compute; reflexivity).
  eexists _, _. split; [exact Hrun|]. do 5 (split; [reflexivity|]).
  split.
  { by apply (filtered_streams_omit_auxiliary Examples.bare_env "m" EmptyString "one" 1
                (set_filter_auxiliary true Impl_new) _ _ Examples.bare_lines 12 eq_refl Hrun). }
  eexists. split; [do 2 right; left|].
  assert (Hline : ("12 " +:+ in_quotes "foo")
                  ∈ text_lines ("*Vertices 12" +:+ newline +:+ "12 " +:+ in_quotes "foo" +:+
                                newline +:+ "*Arcs" +:+ newline +:+ newline))
    by (right; left).
  split; [exact Hline|]. exists ("12 " +:+ in_quotes "foo").
  split; [exact Hline|]. split; [reflexivity|]. left.
Qed.

(** ** A call without a candidate *)

(** C6 (the code departs from the claim). The candidate list can be empty. With no
    variable in the formula, or with the filter on and a name [aux_...] for
    every variable, the number of workers is capped at [0]; that is not
    [1], so the branch of the workers is taken, and the number of candidates
    is divided by the number of workers, [0 / 0]: the call has undefined
    behaviour where the claim has the empty list handed out to no worker.
    The loop of the single-threaded branch takes the empty list as it
    is. *)
Lemma empty_candidate_list_divides_by_zero :
  build_vars_to_process false 0 [false] = [] ∧
  build_vars_to_process true 1 [false; true] = [] ∧
  effective_threads 1 (Z.of_nat (length (@nil Z))) = 0 ∧
  partition (Z.of_nat (length (@nil Z))) 0 = Abort UndefinedBehaviour ∧
  generate_graphs Examples.empty_env "m" EmptyString "one" 1 Impl_new
    = Abort UndefinedBehaviour ∧
  generate_graphs Examples.all_aux_env "m" EmptyString "one" 1
    (set_filter_auxiliary true Impl_new) = Abort UndefinedBehaviour ∧
  ∀ d n bb aux, single_threaded d n bb aux [] [] [] = Ok ([], []).
Proof. split_and!; reflexivity. Qed.
